(** * pacifica-ts-sdk: request signing, key resolution, HTTP retry and
      streaming transport, embedded from the TypeScript sources.

    Conventions of the embedding.
    - A JavaScript string is a [string]; each [ascii] is one code unit, so the
      strings covered are those whose code units are below 256.  Comparison of
      code units is comparison of their codes, as [Array.prototype.sort] does.
    - A byte buffer ([Uint8Array], [Buffer]) is a [list byte].
    - A JavaScript number is a [Z]: the integers, printed in decimal, which is
      what [JSON.stringify] prints for integral doubles of ordinary size.
    - An object is the list of its own properties in the order in which the
      engine enumerates them ([OrdinaryOwnPropertyKeys]: array-index keys in
      ascending numeric order, then the other keys in creation order).
    - Exceptions are a sum type; [async] functions are their results. *)

From Stdlib Require Import ZArith NArith List String Ascii Strings.Byte Bool Lia.
From Stdlib Require Import Permutation Sorted Decimal DecimalString DecimalN DecimalZ.
Import ListNotations.

Local Open Scope string_scope.
Local Open Scope list_scope.

#[local] Set Warnings "-register-all".

(* ================================================================== *)
(** * Part I.  Definitions                                             *)
(* ================================================================== *)

(** ** Strings and buffers *)

Definition code (c : ascii) : N := N_of_ascii c.

Definition byte_of_N (n : N) : byte :=
  match Byte.of_N (n mod 256) with Some b => b | None => x00 end.

Definition ascii_of_code (n : N) : ascii := ascii_of_N n.

Fixpoint drop (n : nat) (s : string) : string :=
  match n, s with
  | S n', String _ r => drop n' r
  | _, _ => s
  end.

Definition startsWith (s p : string) : bool := String.prefix p s.

Fixpoint repeat_string (c : ascii) (n : nat) : string :=
  match n with O => EmptyString | S n' => String c (repeat_string c n') end.

(** [String.prototype.trim]: white space and line terminators among the code
    units below 256 are TAB, LF, VT, FF, CR, SPACE and NBSP. *)
Definition is_js_space (c : ascii) : bool :=
  let n := code c in
  (((9 <=? n) && (n <=? 13)) || (n =? 32) || (n =? 160))%N.

Fixpoint trimStart (s : string) : string :=
  match s with
  | String c r => if is_js_space c then trimStart r else s
  | EmptyString => EmptyString
  end.

Definition rev_string (s : string) : string :=
  string_of_list_ascii (List.rev (list_ascii_of_string s)).

Definition trim (s : string) : string :=
  rev_string (trimStart (rev_string (trimStart s))).

(** [TextEncoder.encode]: UTF-8 of code units below 256. *)
Definition utf8_char (c : ascii) : list byte :=
  let n := code c in
  if (n <? 128)%N then [byte_of_N n]
  else [byte_of_N (192 + n / 64)%N; byte_of_N (128 + n mod 64)%N].

Fixpoint utf8_encode (s : string) : list byte :=
  match s with
  | EmptyString => []
  | String c r => utf8_char c ++ utf8_encode r
  end.

(** *** Hexadecimal ([Buffer.from(s, 'hex')], [buf.toString('hex')]) *)

Definition unhex (c : ascii) : option N :=
  let n := code c in
  if ((48 <=? n) && (n <=? 57))%N then Some (n - 48)%N
  else if ((97 <=? n) && (n <=? 102))%N then Some (n - 87)%N
  else if ((65 <=? n) && (n <=? 70))%N then Some (n - 55)%N
  else None.

(** Node decodes pairs of digits and stops at the first pair that is not
    hexadecimal; a trailing single character is dropped. *)
Fixpoint hex_decode (s : string) : list byte :=
  match s with
  | String a (String b r) =>
      match unhex a, unhex b with
      | Some x, Some y => byte_of_N (16 * x + y)%N :: hex_decode r
      | _, _ => []
      end
  | _ => []
  end.

Definition hex_digit (n : N) : ascii :=
  if (n <? 10)%N then ascii_of_code (48 + n)%N else ascii_of_code (87 + n)%N.

Fixpoint hex_encode (bs : list byte) : string :=
  match bs with
  | [] => EmptyString
  | b :: r =>
      let n := Byte.to_N b in
      String (hex_digit (n / 16)) (String (hex_digit (n mod 16)) (hex_encode r))
  end.

(** *** Base 58 (the [bs58] package, Bitcoin alphabet) *)

Definition base58_alphabet : string :=
  "123456789ABCDEFGHJKLMNPQRSTUVWXYZabcdefghijkmnopqrstuvwxyz".

Fixpoint index_of (c : ascii) (s : string) (i : N) : option N :=
  match s with
  | EmptyString => None
  | String d r => if Ascii.eqb c d then Some i else index_of c r (N.succ i)
  end.

Definition b58_value (c : ascii) : option N := index_of c base58_alphabet 0.

Definition b58_char (n : N) : ascii :=
  match String.get (N.to_nat n) base58_alphabet with
  | Some c => c
  | None => "1"%char
  end.

(** Big-endian value of a buffer, and the digits of a number in a base, most
    significant first; [fuel] is the size of the output buffer that the
    package allocates. *)
Definition be_value (bs : list byte) : N :=
  fold_left (fun acc b => (acc * 256 + Byte.to_N b)%N) bs 0%N.

Fixpoint to_digits (base : N) (fuel : nat) (n : N) (acc : list N) : list N :=
  match fuel with
  | O => acc
  | S f => if (n =? 0)%N then acc
           else to_digits base f (n / base) ((n mod base)%N :: acc)
  end.

Fixpoint leading_zero_bytes (bs : list byte) : nat :=
  match bs with
  | b :: r => if Byte.eqb b x00 then S (leading_zero_bytes r) else O
  | [] => O
  end.

(** [bs58.encode]: one ['1'] per leading zero byte, then the base-58 digits
    of the rest; the digit buffer has [(len - zeroes) * 138 / 100 + 1]
    places. *)
Definition bs58_encode (bs : list byte) : string :=
  let z := leading_zero_bytes bs in
  let rest := skipn z bs in
  let size := (List.length rest * 138 / 100 + 1)%nat in
  let digits := to_digits 58 size (be_value rest) [] in
  repeat_string "1" z ++ string_of_list_ascii (map b58_char digits).

Fixpoint leading_ones (s : string) : nat :=
  match s with
  | String c r => if Ascii.eqb c "1" then S (leading_ones r) else O
  | EmptyString => O
  end.

Fixpoint b58_number (s : string) (acc : N) : option N :=
  match s with
  | EmptyString => Some acc
  | String c r =>
      match b58_value c with
      | Some d => b58_number r (acc * 58 + d)%N
      | None => None
      end
  end.

(** [bs58.decode]: throws ([None]) on a character outside the alphabet. *)
Definition bs58_decode (s : string) : option (list byte) :=
  let z := leading_ones s in
  let rest := drop z s in
  match b58_number rest 0 with
  | None => None
  | Some n =>
      let size := (String.length rest * 733 / 1000 + 1)%nat in
      Some (repeat x00 z ++ map byte_of_N (to_digits 256 size n []))
  end.

(** The test [/^[1-9A-HJ-NP-Za-km-z]+$/]. *)
Fixpoint all_base58 (s : string) : bool :=
  match s with
  | EmptyString => true
  | String c r =>
      match b58_value c with Some _ => all_base58 r | None => false end
  end.

Definition base58Regex_test (s : string) : bool :=
  match s with EmptyString => false | _ => all_base58 s end.

(** *** Base 64 ([Buffer.from(s, 'base64')]) *)

Definition unbase64 (c : ascii) : option N :=
  let n := code c in
  if ((65 <=? n) && (n <=? 90))%N then Some (n - 65)%N
  else if ((97 <=? n) && (n <=? 122))%N then Some (n - 71)%N
  else if ((48 <=? n) && (n <=? 57))%N then Some (n + 4)%N
  else if ((n =? 43) || (n =? 45))%N then Some 62%N
  else if ((n =? 47) || (n =? 95))%N then Some 63%N
  else None.

(** Node's decoder is lenient: it stops at the first ['='], skips every other
    character outside the two alphabets, and never throws. *)
Fixpoint base64_sextets (s : string) : list N :=
  match s with
  | EmptyString => []
  | String c r =>
      match unbase64 c with
      | Some v => v :: base64_sextets r
      | None => if Ascii.eqb c "=" then [] else base64_sextets r
      end
  end.

Fixpoint base64_bytes (l : list N) : list byte :=
  match l with
  | a :: b :: c :: d :: r =>
      byte_of_N (a * 4 + b / 16)%N :: byte_of_N (b * 16 + c / 4)%N
        :: byte_of_N (c * 64 + d)%N :: base64_bytes r
  | [a; b; c] => [byte_of_N (a * 4 + b / 16)%N; byte_of_N (b * 16 + c / 4)%N]
  | [a; b] => [byte_of_N (a * 4 + b / 16)%N]
  | _ => []
  end.

Definition base64_decode (s : string) : list byte :=
  base64_bytes (base64_sextets s).

(** ** JSON values and JavaScript objects *)

#[local] Unset Elimination Schemes.
Inductive json : Type :=
| JNull
| JBool (b : bool)
| JNum (z : Z)
| JStr (s : string)
| JArr (items : list json)
| JObj (props : list (string * json)).
#[local] Set Elimination Schemes.

(** The own properties of an object, in enumeration order. *)
Definition props : Type := list (string * json).

(** A key is an array index when it is the canonical decimal form of an
    integer below [2^32 - 1] ([ToString(ToUint32(k)) = k]). *)
Definition array_index (k : string) : option N :=
  match NilEmpty.uint_of_string k with
  | Some d =>
      let n := N.of_uint d in
      if String.eqb (NilZero.string_of_uint (N.to_uint n)) k
         && (n <? 4294967295)%N
      then Some n else None
  | None => None
  end.

Fixpoint obj_get (k : string) (o : props) : option json :=
  match o with
  | [] => None
  | (k', v) :: r => if String.eqb k k' then Some v else obj_get k r
  end.

Fixpoint obj_replace (k : string) (v : json) (o : props) : props :=
  match o with
  | [] => []
  | (k', v') :: r =>
      if String.eqb k k' then (k', v) :: r else (k', v') :: obj_replace k v r
  end.

Fixpoint obj_insert_index (n : N) (k : string) (v : json) (o : props) : props :=
  match o with
  | [] => [(k, v)]
  | (k', v') :: r =>
      match array_index k' with
      | Some n' =>
          if (n <? n')%N then (k, v) :: o
          else (k', v') :: obj_insert_index n k v r
      | None => (k, v) :: o
      end
  end.

(** Defining the property [k] of [o], as object literals, spreads and
    [JSON.parse] do: an existing property keeps its place; a new array index
    goes to its numeric place among the indices; any other new key goes
    last. *)
Definition obj_set (k : string) (v : json) (o : props) : props :=
  match obj_get k o with
  | Some _ => obj_replace k v o
  | None =>
      match array_index k with
      | Some n => obj_insert_index n k v o
      | None => o ++ [(k, v)]
      end
  end.

(** The assignment [o[k] = v] on a plain object.  The name [__proto__] is the
    prototype accessor that every plain object inherits: assigning to it
    creates no property.  Any other name defines the property. *)
Definition obj_assign (k : string) (v : json) (o : props) : props :=
  if String.eqb k "__proto__" then o else obj_set k v o.

(** [{ ...o, ...src }] copies the properties of [src] in their enumeration
    order; an object literal is the same from the empty object. *)
Definition obj_spread (o src : props) : props :=
  fold_left (fun acc kv => obj_set (fst kv) (snd kv) acc) src o.

Definition obj_literal (entries : props) : props := obj_spread [] entries.

Definition Object_keys (o : props) : list string := map fst o.

(** [Array.prototype.sort()] without a comparator orders strings by code
    units; the keys of an object are distinct, so the result does not depend
    on the algorithm. *)
Fixpoint insert_sorted (k : string) (l : list string) : list string :=
  match l with
  | [] => [k]
  | h :: t => if String.leb k h then k :: l else h :: insert_sorted k t
  end.

Definition sort_keys (l : list string) : list string :=
  fold_right insert_sorted [] l.

(** *** [JSON.stringify] with one argument

    The text of [v] followed by [k]. *)

Definition quote_char : ascii := "034"%char.

Definition escape_char (c : ascii) (k : string) : string :=
  let n := code c in
  if (n =? 34)%N then String "\" (String quote_char k)
  else if (n =? 92)%N then String "\" (String "\" k)
  else if (n =? 8)%N then String "\" (String "b" k)
  else if (n =? 12)%N then String "\" (String "f" k)
  else if (n =? 10)%N then String "\" (String "n" k)
  else if (n =? 13)%N then String "\" (String "r" k)
  else if (n =? 9)%N then String "\" (String "t" k)
  else if (n <? 32)%N then
    String "\" (String "u" (String "0" (String "0"
      (String (hex_digit (n / 16)) (String (hex_digit (n mod 16)) k)))))
  else String c k.

Fixpoint escape_string (s k : string) : string :=
  match s with
  | EmptyString => k
  | String c r => escape_char c (escape_string r k)
  end.

Definition write_string (s k : string) : string :=
  String quote_char (escape_string s (String quote_char k)).

Definition write_number (z : Z) (k : string) : string :=
  NilZero.string_of_int (Z.to_int z) ++ k.

Fixpoint write_rest {A : Type} (f : A -> string -> string) (close : ascii)
    (l : list A) (k : string) : string :=
  match l with
  | [] => String close k
  | x :: r => String "," (f x (write_rest f close r k))
  end.

Definition write_seq {A : Type} (f : A -> string -> string) (open close : ascii)
    (l : list A) (k : string) : string :=
  match l with
  | [] => String open (String close k)
  | x :: r => String open (f x (write_rest f close r k))
  end.

Definition write_member (f : json -> string -> string) (kv : string * json)
    (k : string) : string :=
  write_string (fst kv) (String ":" (f (snd kv) k)).

Fixpoint write (v : json) (k : string) : string :=
  match v with
  | JNull => "null" ++ k
  | JBool true => "true" ++ k
  | JBool false => "false" ++ k
  | JNum z => write_number z k
  | JStr s => write_string s k
  | JArr items =>
      String "["
        (match items with
         | [] => String "]" k
         | x :: r =>
             write x
               ((fix rest (l : list json) : string :=
                   match l with
                   | [] => String "]" k
                   | y :: l' => String "," (write y (rest l'))
                   end) r)
         end)
  | JObj ps =>
      String "{"
        (match ps with
         | [] => String "}" k
         | x :: r =>
             write_string (fst x) (String ":" (write (snd x)
               ((fix rest (l : list (string * json)) : string :=
                   match l with
                   | [] => String "}" k
                   | y :: l' =>
                       String ","
                         (write_string (fst y) (String ":" (write (snd y) (rest l'))))
                   end) r)))
         end)
  end.

Definition JSON_stringify (v : json) : string := write v EmptyString.

(** *** [JSON.parse]

    The parser reads the texts that have no white space between tokens and
    whose numbers are integers; on any other text it answers [None], as it
    does where [JSON.parse] throws.  Object members are installed with
    [obj_set] in the order of the text. *)

Definition unescape_simple (c : ascii) : option ascii :=
  let n := code c in
  if (n =? 34)%N then Some quote_char
  else if (n =? 92)%N then Some "\"%char
  else if (n =? 47)%N then Some "/"%char
  else if (n =? 98)%N then Some (ascii_of_code 8)
  else if (n =? 102)%N then Some (ascii_of_code 12)
  else if (n =? 110)%N then Some (ascii_of_code 10)
  else if (n =? 114)%N then Some (ascii_of_code 13)
  else if (n =? 116)%N then Some (ascii_of_code 9)
  else None.

Definition unescape_unicode (h1 h2 h3 h4 : ascii) : option ascii :=
  match unhex h1, unhex h2, unhex h3, unhex h4 with
  | Some a, Some b, Some c, Some d =>
      if ((a =? 0) && (b =? 0))%N then Some (ascii_of_code (16 * c + d)) else None
  | _, _, _, _ => None
  end.

Definition cons_char (c : ascii) (r : option (string * string)) :
    option (string * string) :=
  match r with
  | Some (s, rest) => Some (String c s, rest)
  | None => None
  end.

(** The characters of a string literal after its opening quote. *)
Fixpoint parse_chars (s : string) : option (string * string) :=
  match s with
  | EmptyString => None
  | String c r =>
      if Ascii.eqb c quote_char then Some (EmptyString, r)
      else if Ascii.eqb c "\" then
        match r with
        | String e r' =>
            match unescape_simple e with
            | Some c' => cons_char c' (parse_chars r')
            | None =>
                if Ascii.eqb e "u" then
                  match r' with
                  | String h1 (String h2 (String h3 (String h4 r''))) =>
                      match unescape_unicode h1 h2 h3 h4 with
                      | Some c' => cons_char c' (parse_chars r'')
                      | None => None
                      end
                  | _ => None
                  end
                else None
            end
        | EmptyString => None
        end
      else if (code c <? 32)%N then None
      else cons_char c (parse_chars r)
  end.

Definition digit_of_char (c : ascii) : option (uint -> uint) :=
  let n := code c in
  if (n =? 48)%N then Some D0 else if (n =? 49)%N then Some D1
  else if (n =? 50)%N then Some D2 else if (n =? 51)%N then Some D3
  else if (n =? 52)%N then Some D4 else if (n =? 53)%N then Some D5
  else if (n =? 54)%N then Some D6 else if (n =? 55)%N then Some D7
  else if (n =? 56)%N then Some D8 else if (n =? 57)%N then Some D9
  else None.

Fixpoint take_digits (s : string) : uint * string :=
  match s with
  | EmptyString => (Nil, EmptyString)
  | String c r =>
      match digit_of_char c with
      | Some d => let (u, rest) := take_digits r in (d u, rest)
      | None => (Nil, s)
      end
  end.

Definition starts_fraction (s : string) : bool :=
  match s with
  | String c _ => Ascii.eqb c "." || Ascii.eqb c "e" || Ascii.eqb c "E"
  | EmptyString => false
  end.

Definition parse_unsigned (s : string) : option (Z * string) :=
  let (u, rest) := take_digits s in
  if uint_beq (unorm u) u && negb (starts_fraction rest)
  then Some (Z.of_uint u, rest) else None.

Definition starts_with (c : ascii) (s : string) : bool :=
  match s with
  | String c' _ => Ascii.eqb c' c
  | EmptyString => false
  end.

Definition parse_number (s : string) : option (json * string) :=
  if starts_with "-" s then
    match parse_unsigned (drop 1 s) with
    | Some (z, rest) => Some (JNum (- z), rest)
    | None => None
    end
  else
    match parse_unsigned s with
    | Some (z, rest) => Some (JNum z, rest)
    | None => None
    end.

Definition expect (word : string) (s : string) (v : json) :
    option (json * string) :=
  if String.prefix word s then Some (v, drop (String.length word) s) else None.

Fixpoint parse_value (fuel : nat) (s : string) {struct fuel} :
    option (json * string) :=
  match fuel with
  | O => None
  | S f =>
      match s with
      | EmptyString => None
      | String c r =>
          if Ascii.eqb c "n" then expect "ull" r JNull
          else if Ascii.eqb c "t" then expect "rue" r (JBool true)
          else if Ascii.eqb c "f" then expect "alse" r (JBool false)
          else if Ascii.eqb c quote_char then
            match parse_chars r with
            | Some (str, rest) => Some (JStr str, rest)
            | None => None
            end
          else if Ascii.eqb c "[" then
            if starts_with "]" r then Some (JArr [], drop 1 r)
            else
              match parse_items f r with
              | Some (items, rest) => Some (JArr items, rest)
              | None => None
              end
          else if Ascii.eqb c "{" then
            if starts_with "}" r then Some (JObj [], drop 1 r)
            else
              match parse_members f r with
              | Some (entries, rest) => Some (JObj (obj_literal entries), rest)
              | None => None
              end
          else parse_number s
      end
  end

with parse_items (fuel : nat) (s : string) {struct fuel} :
    option (list json * string) :=
  match fuel with
  | O => None
  | S f =>
      match parse_value f s with
      | Some (v, String c rest) =>
          if Ascii.eqb c "," then
            match parse_items f rest with
            | Some (vs, rest') => Some (v :: vs, rest')
            | None => None
            end
          else if Ascii.eqb c "]" then Some ([v], rest)
          else None
      | _ => None
      end
  end

with parse_members (fuel : nat) (s : string) {struct fuel} :
    option (props * string) :=
  match fuel with
  | O => None
  | S f =>
      match s with
      | String q r =>
          if Ascii.eqb q quote_char then
            match parse_chars r with
            | Some (key, String colon r1) =>
                if Ascii.eqb colon ":" then
                  match parse_value f r1 with
                  | Some (v, String c rest) =>
                      if Ascii.eqb c "," then
                        match parse_members f rest with
                        | Some (es, rest') => Some ((key, v) :: es, rest')
                        | None => None
                        end
                      else if Ascii.eqb c "}" then Some ([(key, v)], rest)
                      else None
                  | _ => None
                  end
                else None
            | _ => None
            end
          else None
      | EmptyString => None
      end
  end.

Definition JSON_parse (s : string) : option json :=
  match parse_value (S (String.length s)) s with
  | Some (v, EmptyString) => Some v
  | _ => None
  end.

(** ** The signer ([utils/signer.ts]) *)

(** [sortJsonKeys]: the values are sorted first, then the properties are
    assigned on a fresh object in the order of the sorted keys. *)
Fixpoint sortJsonKeys (obj : json) : json :=
  match obj with
  | JArr items => JArr (map sortJsonKeys items)
  | JObj ps =>
      let values := map (fun kv => (fst kv, sortJsonKeys (snd kv))) ps in
      let keys := sort_keys (Object_keys ps) in
      JObj (fold_left
              (fun sorted key =>
                 obj_assign key
                   (match obj_get key values with Some v => v | None => JNull end)
                   sorted)
              keys [])
  | _ => obj
  end.

Definition createCompactJson (obj : json) : string :=
  JSON_stringify (sortJsonKeys obj).

(** *** Results and thrown values *)

Inductive result (E A : Type) : Type :=
| Ok (a : A)
| Err (e : E).
Arguments Ok {E A} a.
Arguments Err {E A} e.

(** What the code throws, by class, with the fields that the code reads
    back; [retryAfter] is a JavaScript number, [None] standing for [NaN]. *)
Inductive exn : Type :=
| InvalidKeyFormat            (* 'Invalid private key format. Expected: ...' *)
| InvalidKeyLength (n : nat)  (* 'Invalid private key length. ...' *)
| HardwareWalletError         (* 'Error signing with hardware wallet: ...' *)
| RateLimitError (retryAfter : option Z)
| APIError (status : Z)
| TimeoutError
| NetworkError
| AbortError                  (* the DOMException of an aborted fetch *)
| FetchFailure                (* the TypeError of a failed fetch *)
| SyntaxError                 (* response.json() on a body that is not JSON *)
| UndefinedThrown             (* throw of an unset variable *)
| ChannelError                (* 'Channel must be a non-empty string' *)
| NotConnected                (* 'WebSocket not connected' *)
| TypeError                   (* property access on null *)
| HandlerError (n : nat).     (* whatever a user handler throws *)

(** The Ed25519 primitives of [@noble/ed25519]; [verify] answers [None]
    where the package throws. *)
Class Ed25519 : Type := {
  getPublicKey : list byte -> list byte;
  sign : list byte -> list byte -> list byte;
  verify : list byte -> list byte -> list byte -> option bool
}.

(** The [solana sign-offchain-message] command behind
    [signWithHardwareWallet]: the signature printed for a wallet path and a
    message, [None] where the function throws. *)
Class SolanaCli : Type := {
  sign_offchain_message : string -> string -> option string
}.

(** *** [generateKeypair] *)

Inductive PrivateKey : Type :=
| KeyString (s : string)
| KeyBytes (b : list byte).

Record Keypair : Type := {
  publicKey : list byte;
  privateKey : list byte
}.

(** The hexadecimal attempt: [Some] when the function returns from it. *)
Definition try_hex (cleanKey : string) : option (list byte) :=
  if (String.length cleanKey =? 128)%nat
     || (startsWith cleanKey "0x" && (String.length cleanKey =? 130)%nat)
  then
    let cleanHex := if startsWith cleanKey "0x" then drop 2 cleanKey else cleanKey in
    let privateKeyBytes := hex_decode cleanHex in
    if (List.length privateKeyBytes =? 32)%nat then Some privateKeyBytes else None
  else None.

Definition check32 (privateKeyBytes : list byte) : option (list byte) :=
  if (List.length privateKeyBytes =? 32)%nat then Some privateKeyBytes else None.

(** The base-58 attempt; a [throw] inside it is caught and falls through. *)
Definition try_base58 (cleanKey : string) : option (list byte) :=
  if base58Regex_test cleanKey then
    match bs58_decode cleanKey with
    | Some decoded =>
        let n := List.length decoded in
        if (n =? 64)%nat then check32 (firstn 32 decoded)
        else if (n =? 32)%nat then check32 decoded
        else if (32 <? n)%nat then check32 (firstn 32 decoded)
        else None
    | None => None
    end
  else None.

Definition try_base64 (cleanKey : string) : option (list byte) :=
  check32 (base64_decode cleanKey).

Definition keypair_of `{Ed25519} (privateKeyBytes : list byte) : Keypair :=
  {| publicKey := getPublicKey privateKeyBytes; privateKey := privateKeyBytes |}.

Definition generateKeypair `{Ed25519} (privateKey : PrivateKey) :
    result exn Keypair :=
  match privateKey with
  | KeyString s =>
      let cleanKey := trim s in
      match try_hex cleanKey with
      | Some b => Ok (keypair_of b)
      | None =>
          match try_base58 cleanKey with
          | Some b => Ok (keypair_of b)
          | None =>
              match try_base64 cleanKey with
              | Some b => Ok (keypair_of b)
              | None => Err InvalidKeyFormat
              end
          end
      end
  | KeyBytes privateKeyBytes =>
      if (List.length privateKeyBytes =? 32)%nat
      then Ok (keypair_of privateKeyBytes)
      else Err (InvalidKeyLength (List.length privateKeyBytes))
  end.

Definition publicKeyToHex (publicKey : list byte) : string := hex_encode publicKey.

Definition publicKeyToBase58 (publicKey : list byte) : string := bs58_encode publicKey.

(** *** [signMessage], [verifySignature] *)

Definition signMessage `{Ed25519} (message : string) (privateKey : list byte) :
    string :=
  let messageBytes := utf8_encode message in
  let signature := sign messageBytes privateKey in
  bs58_encode signature.

Definition verifySignature `{Ed25519} (message signature publicKey : string) :
    bool :=
  let messageBytes := utf8_encode message in
  let signatureBytes := hex_decode signature in
  let publicKeyBytes :=
    hex_decode (if startsWith publicKey "0x" then drop 2 publicKey else publicKey) in
  match verify signatureBytes messageBytes publicKeyBytes with
  | Some b => b
  | None => false
  end.

(** *** [createSignatureHeader], [buildSignedRequest] *)

Record SignatureHeader : Type := {
  h_timestamp : Z;
  h_expiry_window : option Z
}.

(** [now] is the value of [Date.now()]. *)
Definition createSignatureHeader (now : Z) (expiryWindow : option Z) :
    SignatureHeader :=
  {| h_timestamp := now; h_expiry_window := expiryWindow |}.

Record SignedRequest : Type := {
  account : string;
  signature : string;
  operation : string;
  data : props;
  timestamp : Z;
  expiry_window : option Z
}.

(** The object spread [...(x !== undefined && { expiry_window: x })]. *)
Definition expiry_entry (x : option Z) : props :=
  match x with
  | Some e => [("expiry_window", JNum e)]
  | None => []
  end.

Definition messagePayload (operation : string) (header : SignatureHeader)
    (data : props) : json :=
  JObj (obj_literal
          ([("type", JStr operation); ("timestamp", JNum (h_timestamp header))]
           ++ expiry_entry (h_expiry_window header)
           ++ [("data", JObj data)])).

Definition accountAddress_of (accountPublicKey : string) : string :=
  if startsWith accountPublicKey "0x" then
    let hexKey := drop 2 accountPublicKey in
    if (String.length hexKey =? 64)%nat then bs58_encode (hex_decode hexKey)
    else accountPublicKey
  else if (String.length accountPublicKey =? 64)%nat then
    bs58_encode (hex_decode accountPublicKey)
  else accountPublicKey.

(** A string is truthy when it is present and not empty. *)
Definition truthy_string (s : option string) : option string :=
  match s with
  | Some EmptyString => None
  | _ => s
  end.

Definition buildSignedRequest `{Ed25519} (now : Z) (operation : string)
    (data : props) (privateKey : PrivateKey) (accountPublicKey : option string)
    (expiryWindow : option Z) : result exn SignedRequest :=
  match generateKeypair privateKey with
  | Err e => Err e
  | Ok {| publicKey := keypair_publicKey; privateKey := privateKeyBytes |} =>
      let accountAddress :=
        match truthy_string accountPublicKey with
        | Some a => accountAddress_of a
        | None => bs58_encode keypair_publicKey
        end in
      let header := createSignatureHeader now expiryWindow in
      let compactJson := createCompactJson (messagePayload operation header data) in
      let signature := signMessage compactJson privateKeyBytes in
      Ok {| account := accountAddress;
            signature := signature;
            operation := operation;
            data := data;
            timestamp := h_timestamp header;
            expiry_window := expiryWindow |}
  end.

(** [buildSignedRequestWithHardwareWallet] answers the flattened object. *)
Definition buildSignedRequestWithHardwareWallet `{SolanaCli} (now : Z)
    (operation : string) (data : props) (accountPublicKey : string)
    (hardwareWalletPath : string) (expiryWindow : option Z) : result exn props :=
  let header := createSignatureHeader now expiryWindow in
  let compactJson := createCompactJson (messagePayload operation header data) in
  match sign_offchain_message hardwareWalletPath compactJson with
  | None => Err HardwareWalletError
  | Some signature =>
      Ok (obj_spread
            (obj_literal
               ([("account",
                  JStr (if startsWith accountPublicKey "0x"
                        then drop 2 accountPublicKey else accountPublicKey));
                 ("signature", JStr signature);
                 ("timestamp", JNum (h_timestamp header))]
                ++ expiry_entry (h_expiry_window header)))
            data)
  end.

(** ** The HTTP transport ([clients/BaseClient.ts]) *)

Record PacificaConfig : Type := {
  cfg_retryAttempts : option Z;
  cfg_retryDelay : option Z
}.

Record BaseClient : Type := {
  baseUrl : string;
  timeout : Z;
  retryAttempts : Z;
  retryDelay : Z
}.

Definition endsWith (s p : string) : bool :=
  startsWith (rev_string s) (rev_string p).

Definition drop_last (s : string) : string := rev_string (drop 1 (rev_string s)).

Definition new_BaseClient (baseUrl : option string) (timeout : option Z)
    (config : option PacificaConfig) : BaseClient :=
  {| baseUrl :=
       match truthy_string baseUrl with
       | Some b =>
           if endsWith b "/api/v1" then b
           else if endsWith b "/api/v1/" then drop_last b
           else (if endsWith b "/" then drop_last b else b) ++ "/api/v1"
       | None => "https://api.pacifica.fi/api/v1"
       end;
     timeout :=
       match timeout with
       | Some t => if (t =? 0)%Z then 30000%Z else t
       | None => 30000%Z
       end;
     retryAttempts :=
       match config with
       | Some {| cfg_retryAttempts := Some n |} => n
       | _ => 3%Z
       end;
     retryDelay :=
       match config with
       | Some {| cfg_retryDelay := Some d |} => d
       | _ => 1000%Z
       end |}.

(** What the code reads of a response: the status, the [Retry-After] header
    and the result of [response.json()] ([None] when it rejects). *)
Record Response : Type := {
  status : Z;
  retryAfterHeader : option string;
  body : option json
}.

Definition response_ok (r : Response) : bool :=
  ((200 <=? status r) && (status r <=? 299))%Z.

(** [fetch] either resolves with a response or rejects: with [AbortError]
    when the timeout fires, with [FetchFailure] on a network failure. *)
Inductive FetchResult : Type :=
| Responds (r : Response)
| Rejects (e : exn).

Record HttpRequest : Type := {
  method : string;
  url : string;
  headers : props;
  req_body : option string
}.

(** The observable steps of a request: the sleeps and the calls of [fetch]. *)
Inductive HttpEvent : Type :=
| Sleep (ms : Z)
| Fetch (req : HttpRequest).

(** [parseInt] with one argument; [None] stands for [NaN]. *)
Fixpoint hex_prefix_value (s : string) (acc : option Z) : option Z :=
  match s with
  | EmptyString => acc
  | String c r =>
      match unhex c with
      | Some d =>
          hex_prefix_value r
            (Some (16 * (match acc with Some a => a | None => 0 end) + Z.of_N d)%Z)
      | None => acc
      end
  end.

Definition parseInt_unsigned (s : string) : option Z :=
  if startsWith s "0x" || startsWith s "0X" then hex_prefix_value (drop 2 s) None
  else
    match fst (take_digits s) with
    | Nil => None
    | u => Some (Z.of_uint u)
    end.

Definition parseInt (s : string) : option Z :=
  match trimStart s with
  | String "-" r => option_map Z.opp (parseInt_unsigned r)
  | String "+" r => parseInt_unsigned r
  | s' => parseInt_unsigned s'
  end.

Definition backoff (c : BaseClient) (k : Z) : Z := (retryDelay c * 2 ^ k)%Z.

(** [x || y] on numbers: [0] and [NaN] are falsy. *)
Definition number_or (x : option Z) (y : Z) : Z :=
  match x with
  | Some n => if (n =? 0)%Z then y else n
  | None => y
  end.

Definition truthy_status (s : option Z) : bool :=
  match s with
  | Some n => negb (n =? 0)%Z
  | None => false
  end.

Definition is_sdk_error (e : exn) : bool :=
  match e with
  | APIError _ | RateLimitError _ | TimeoutError => true
  | _ => false
  end.

(** [error instanceof Error]: everything that is thrown here but the value
    of an unset variable. *)
Definition instanceof_Error (e : exn) : bool :=
  match e with
  | UndefinedThrown => false
  | _ => true
  end.

Definition isRetryableError (error : exn) (status : option Z) : bool :=
  match error with
  | NetworkError => true
  | _ =>
      if instanceof_Error error && negb (is_sdk_error error)
         && negb (truthy_status status)
      then true
      else
        match status with
        | Some n =>
            if negb (n =? 0)%Z && (500 <=? n)%Z then true
            else (n =? 429)%Z
        | None => false
        end
  end.

(** The body of the [try] block after [fetch] has resolved. *)
Definition after_response (c : BaseClient) (attempt : Z) (r : Response) :
    result exn json :=
  if (status r =? 429)%Z then
    let retryAfterMs :=
      match truthy_string (retryAfterHeader r) with
      | Some h => option_map (fun n => n * 1000)%Z (parseInt h)
      | None => Some (backoff c attempt)
      end in
    Err (RateLimitError retryAfterMs)
  else if negb (response_ok r) then Err (APIError (status r))
  else
    match body r with
    | Some data => Ok data
    | None => Err SyntaxError
    end.

(** The [catch] block: the sleeps it performs, and [None] for [continue] or
    the value it throws. *)
Definition on_catch (c : BaseClient) (attempt : Z) (error : exn)
    (lastStatus : option Z) : list HttpEvent * option exn :=
  let more := (attempt <? retryAttempts c)%Z in
  match error with
  | RateLimitError retryAfter =>
      if more then ([Sleep (number_or retryAfter (backoff c attempt))], None)
      else ([], Some error)
  | AbortError => if more then ([], None) else ([], Some TimeoutError)
  | _ =>
      if isRetryableError error lastStatus && more then ([], None)
      else if is_sdk_error error then ([], Some error)
      else
        match lastStatus with
        | Some n => if (n =? 0)%Z then ([], Some NetworkError)
                    else ([], Some (APIError n))
        | None => ([], Some NetworkError)
        end
  end.

(** The loop [for (attempt = 0; attempt <= retryAttempts; attempt++)];
    [fuel] counts the iterations left and [fetch k] is the outcome of the
    call of [fetch] made in iteration [k]. *)
Fixpoint request_loop (c : BaseClient) (req : HttpRequest)
    (fetch : Z -> FetchResult) (fuel : nat) (attempt : Z)
    (lastError : option exn) (lastStatus : option Z) :
    list HttpEvent * result exn json :=
  match fuel with
  | O => ([], Err (match lastError with Some e => e | None => UndefinedThrown end))
  | S fuel' =>
      let pre :=
        if (0 <? attempt)%Z then [Sleep (backoff c (attempt - 1)); Fetch req]
        else [Fetch req] in
      let caught (error : exn) (lastStatus' : option Z) :=
        match on_catch c attempt error lastStatus' with
        | (sleeps, Some thrown) => (pre ++ sleeps, Err thrown)
        | (sleeps, None) =>
            let (trace, res) :=
              request_loop c req fetch fuel' (attempt + 1)%Z (Some error) lastStatus' in
            (pre ++ sleeps ++ trace, res)
        end in
      match fetch attempt with
      | Rejects e => caught e lastStatus
      | Responds r =>
          match after_response c attempt r with
          | Ok data => (pre, Ok data)
          | Err e => caught e (Some (status r))
          end
      end
  end.

Definition run_request (c : BaseClient) (req : HttpRequest)
    (fetch : Z -> FetchResult) : list HttpEvent * result exn json :=
  request_loop c req fetch (Z.to_nat (retryAttempts c + 1)) 0%Z None None.

(** [get] without [params]; a query string, when there is one, is part of
    the URL and plays no part in the loop. *)
Definition get (c : BaseClient) (endpoint : string) (fetch : Z -> FetchResult) :
    list HttpEvent * result exn json :=
  run_request c
    {| method := "GET";
       url := baseUrl c ++ endpoint;
       headers := obj_literal [("Content-Type", JStr "application/json")];
       req_body := None |}
    fetch.

Definition post (c : BaseClient) (endpoint : string) (body : json)
    (headers : props) (fetch : Z -> FetchResult) :
    list HttpEvent * result exn json :=
  run_request c
    {| method := "POST";
       url := baseUrl c ++ endpoint;
       headers :=
         obj_spread (obj_literal [("Content-Type", JStr "application/json")]) headers;
       req_body := Some (JSON_stringify body) |}
    fetch.

Fixpoint count_fetches (t : list HttpEvent) : nat :=
  match t with
  | [] => O
  | Fetch _ :: r => S (count_fetches r)
  | Sleep _ :: r => count_fetches r
  end.

Fixpoint sleeps_of (t : list HttpEvent) : list Z :=
  match t with
  | [] => []
  | Sleep ms :: r => ms :: sleeps_of r
  | Fetch _ :: r => sleeps_of r
  end.

(** The requests of a trace, each with the sleeps that precede it since the
    request before. *)
Fixpoint delays_before (t : list HttpEvent) (pending : list Z) :
    list (list Z) :=
  match t with
  | [] => []
  | Sleep ms :: r => delays_before r (pending ++ [ms])
  | Fetch _ :: r => pending :: delays_before r []
  end.

(** ** The signing client ([clients/SignClient.ts]) *)

Record SignClientConfig : Type := {
  sc_baseUrl : option string;
  sc_accountPublicKey : option string;
  sc_agentWalletPublicKey : option string;
  sc_builderCode : option string;
  sc_expiryWindow : option Z;
  sc_timeout : option Z;
  sc_retryAttempts : option Z;
  sc_retryDelay : option Z
}.

Record SignClient : Type := {
  base : BaseClient;
  this_privateKey : PrivateKey;
  this_accountPublicKey : option string;
  this_agentWalletPublicKey : option string;
  defaultExpiryWindow : Z;
  builderCode : option string
}.

Definition config_field {A B : Type} (config : option A) (f : A -> option B) :
    option B :=
  match config with
  | Some c => f c
  | None => None
  end.

(** [a || b] on strings that may be absent. *)
Definition string_or (a b : option string) : option string :=
  match truthy_string a with
  | Some x => Some x
  | None => b
  end.

(** The constructor; [env_BUILDER_CODE] is [process.env.BUILDER_CODE]. *)
Definition new_SignClient (env_BUILDER_CODE : option string)
    (privateKey : PrivateKey) (config : option SignClientConfig) : SignClient :=
  {| base :=
       new_BaseClient (config_field config sc_baseUrl)
         (config_field config sc_timeout)
         (option_map
            (fun c => {| cfg_retryAttempts := sc_retryAttempts c;
                         cfg_retryDelay := sc_retryDelay c |})
            config);
     this_privateKey := privateKey;
     this_accountPublicKey := config_field config sc_accountPublicKey;
     this_agentWalletPublicKey := config_field config sc_agentWalletPublicKey;
     defaultExpiryWindow :=
       match config_field config sc_expiryWindow with
       | Some w => w
       | None => 5000%Z
       end;
     builderCode := string_or env_BUILDER_CODE (config_field config sc_builderCode) |}.

Record RequestOptions : Type := {
  agent_wallet : option string;
  hardware_wallet_path : option string
}.

Definition agent_headers (agentWalletPublicKey : option string) : props :=
  obj_spread (obj_literal [("Content-Type", JStr "application/json")])
    (match truthy_string agentWalletPublicKey with
     | Some a => [("agent_wallet", JStr a)]
     | None => []
     end).

(** The body that [makeSignedRequest] hands to [post], before the call. *)
Definition signed_request_body `{Ed25519} `{SolanaCli} (self : SignClient)
    (now : Z) (operation : string) (data : props)
    (options : option RequestOptions) : result exn props :=
  let resolved :=
    match truthy_string (this_accountPublicKey self) with
    | Some a => Ok a
    | None =>
        match generateKeypair (this_privateKey self) with
        | Ok keypair => Ok (publicKeyToHex (publicKey keypair))
        | Err e => Err e
        end
    end in
  match resolved with
  | Err e => Err e
  | Ok accountPublicKey =>
      match truthy_string (config_field options hardware_wallet_path),
            truthy_string (Some accountPublicKey) with
      | Some path, Some _ =>
          buildSignedRequestWithHardwareWallet now operation data accountPublicKey
            path (Some (defaultExpiryWindow self))
      | _, _ =>
          match buildSignedRequest now operation data (this_privateKey self)
                  (Some accountPublicKey) (Some (defaultExpiryWindow self)) with
          | Err e => Err e
          | Ok signedRequest =>
              Ok (obj_spread
                    (obj_literal
                       ([("account", JStr (account signedRequest));
                         ("signature", JStr (signature signedRequest));
                         ("timestamp", JNum (timestamp signedRequest))]
                        ++ expiry_entry (expiry_window signedRequest)))
                    data)
          end
      end
  end.

Definition makeSignedRequest `{Ed25519} `{SolanaCli} (self : SignClient)
    (now : Z) (fetch : Z -> FetchResult) (endpoint operation : string)
    (data : props) (options : option RequestOptions) :
    list HttpEvent * result exn json :=
  let agentWalletPublicKey :=
    string_or (config_field options agent_wallet) (this_agentWalletPublicKey self) in
  match signed_request_body self now operation data options with
  | Err e => ([], Err e)
  | Ok requestBody =>
      post (base self) endpoint (JObj requestBody)
        (agent_headers agentWalletPublicKey) fetch
  end.

(** ** The streaming transport ([WebSocketClient] in [clients/ApiClient.ts]) *)

Inductive ReadyState : Type := CONNECTING | OPEN | CLOSING | CLOSED.

Inductive WebSocketEventType : Type :=
| E_open | E_close | E_error | E_message | E_reconnect | E_subscription
| E_order_update | E_trade | E_ticker | E_orderbook
| E_twap_order | E_twap_order_update.

Definition event_eq_dec (a b : WebSocketEventType) : {a = b} + {a <> b}.
Proof. decide equality. Defined.

Record WebSocketConfig : Type := {
  ws_url : option string;
  ws_reconnect : option bool;
  ws_reconnectInterval : option Z;
  ws_maxReconnectAttempts : option Z
}.

Record RequiredWebSocketConfig : Type := {
  cfg_url : string;
  reconnect : bool;
  reconnectInterval : Z;
  maxReconnectAttempts : Z
}.

(** A handler is known by its identity, as in a [Set] of functions. *)
Definition HandlerId : Type := nat.

Record WebSocketClient : Type := {
  ws : option nat;                 (* the socket held in [this.ws] *)
  config : RequiredWebSocketConfig;
  reconnectAttempts : Z;
  reconnectTimer : option nat;
  eventHandlers : list (WebSocketEventType * list HandlerId);
  isConnecting : bool;
  subscriptions : list string      (* a [Set<string>], in insertion order *)
}.

Definition number_or_default (x : option Z) (d : Z) : Z := number_or x d.

Definition new_WebSocketClient (config : option WebSocketConfig) : WebSocketClient :=
  {| ws := None;
     config :=
       {| cfg_url :=
            match truthy_string (config_field config ws_url) with
            | Some u => u
            | None => "wss://api.pacifica.fi/ws"
            end;
          reconnect :=
            match config_field config ws_reconnect with
            | Some false => false
            | _ => true
            end;
          reconnectInterval :=
            number_or_default (config_field config ws_reconnectInterval) 5000;
          maxReconnectAttempts :=
            number_or_default (config_field config ws_maxReconnectAttempts) 10 |};
     reconnectAttempts := 0;
     reconnectTimer := None;
     eventHandlers := [];
     isConnecting := false;
     subscriptions := [] |}.

(** [Set.prototype.add] and [delete] on a set kept in insertion order. *)
Definition set_add (c : string) (s : list string) : list string :=
  if existsb (String.eqb c) s then s else s ++ [c].

Definition set_delete (c : string) (s : list string) : list string :=
  filter (fun x => negb (String.eqb c x)) s.

Definition handler_add (h : HandlerId) (s : list HandlerId) : list HandlerId :=
  if existsb (Nat.eqb h) s then s else s ++ [h].

Definition handler_delete (h : HandlerId) (s : list HandlerId) : list HandlerId :=
  filter (fun x => negb (Nat.eqb h x)) s.

Fixpoint handlers_get (event : WebSocketEventType)
    (m : list (WebSocketEventType * list HandlerId)) : option (list HandlerId) :=
  match m with
  | [] => None
  | (e, hs) :: r => if event_eq_dec event e then Some hs else handlers_get event r
  end.

Fixpoint handlers_update (event : WebSocketEventType)
    (f : list HandlerId -> list HandlerId)
    (m : list (WebSocketEventType * list HandlerId)) :
    list (WebSocketEventType * list HandlerId) :=
  match m with
  | [] => []
  | (e, hs) :: r =>
      if event_eq_dec event e then (e, f hs) :: r
      else (e, hs) :: handlers_update event f r
  end.

Definition subscribe_message (channel : string) : json :=
  JObj (obj_literal [("type", JStr "subscribe"); ("channel", JStr channel)]).

Definition unsubscribe_message (channel : string) : json :=
  JObj (obj_literal [("type", JStr "unsubscribe"); ("channel", JStr channel)]).

Definition channel_data (channel : string) : json :=
  JObj (obj_literal [("channel", JStr channel)]).

Definition error_data (e : exn) : json :=
  JObj (obj_literal [("error", JStr "Error")]).

Definition message_field (name : string) (message : json) : option json :=
  match message with
  | JObj ps => obj_get name ps
  | _ => None
  end.

Definition field_is (v : option json) (s : string) : bool :=
  match v with
  | Some (JStr x) => String.eqb x s
  | _ => false
  end.

Definition truthy (v : json) : bool :=
  match v with
  | JNull => false
  | JBool b => b
  | JNum z => negb (z =? 0)%Z
  | JStr s => negb (String.eqb s EmptyString)
  | JArr _ | JObj _ => true
  end.

(** [message.data]; an absent field and [null] are both [JNull] here. *)
Definition message_data (message : json) : json :=
  match message_field "data" message with
  | Some d => d
  | None => JNull
  end.

Definition data_or_message (message : json) : json :=
  if truthy (message_data message) then message_data message else message.

Section Transport.

(** The state that user handlers act on, and what each handler does with the
    data it is given: a new state, and the value it throws if it throws.
    Handlers do not call back into the client. *)
Context {U : Type}.
Variable run : HandlerId -> json -> U -> U * option exn.

Record World : Type := {
  client : WebSocketClient;
  sockets : list ReadyState;           (* every socket created so far *)
  wire : list (nat * json);            (* the calls of [ws.send]: socket, message *)
  timers : list (Z * bool);            (* the calls of [setTimeout]: delay, pending *)
  calls : list (HandlerId * WebSocketEventType * json);
  logged : list (WebSocketEventType * exn);
  user : U
}.

Definition with_client (f : WebSocketClient -> WebSocketClient) (w : World) : World :=
  {| client := f (client w); sockets := sockets w; wire := wire w;
     timers := timers w; calls := calls w; logged := logged w; user := user w |}.

Definition with_sockets (f : list ReadyState -> list ReadyState) (w : World) : World :=
  {| client := client w; sockets := f (sockets w); wire := wire w;
     timers := timers w; calls := calls w; logged := logged w; user := user w |}.

Definition with_wire (f : list (nat * json) -> list (nat * json)) (w : World) : World :=
  {| client := client w; sockets := sockets w; wire := f (wire w);
     timers := timers w; calls := calls w; logged := logged w; user := user w |}.

Definition with_timers (f : list (Z * bool) -> list (Z * bool)) (w : World) : World :=
  {| client := client w; sockets := sockets w; wire := wire w;
     timers := f (timers w); calls := calls w; logged := logged w; user := user w |}.

Definition set_ws (x : option nat) (c : WebSocketClient) : WebSocketClient :=
  {| ws := x; config := config c; reconnectAttempts := reconnectAttempts c;
     reconnectTimer := reconnectTimer c; eventHandlers := eventHandlers c;
     isConnecting := isConnecting c; subscriptions := subscriptions c |}.

Definition set_reconnectAttempts (x : Z) (c : WebSocketClient) : WebSocketClient :=
  {| ws := ws c; config := config c; reconnectAttempts := x;
     reconnectTimer := reconnectTimer c; eventHandlers := eventHandlers c;
     isConnecting := isConnecting c; subscriptions := subscriptions c |}.

Definition set_reconnectTimer (x : option nat) (c : WebSocketClient) : WebSocketClient :=
  {| ws := ws c; config := config c; reconnectAttempts := reconnectAttempts c;
     reconnectTimer := x; eventHandlers := eventHandlers c;
     isConnecting := isConnecting c; subscriptions := subscriptions c |}.

Definition set_eventHandlers (x : list (WebSocketEventType * list HandlerId))
    (c : WebSocketClient) : WebSocketClient :=
  {| ws := ws c; config := config c; reconnectAttempts := reconnectAttempts c;
     reconnectTimer := reconnectTimer c; eventHandlers := x;
     isConnecting := isConnecting c; subscriptions := subscriptions c |}.

Definition set_isConnecting (x : bool) (c : WebSocketClient) : WebSocketClient :=
  {| ws := ws c; config := config c; reconnectAttempts := reconnectAttempts c;
     reconnectTimer := reconnectTimer c; eventHandlers := eventHandlers c;
     isConnecting := x; subscriptions := subscriptions c |}.

Definition set_subscriptions (x : list string) (c : WebSocketClient) : WebSocketClient :=
  {| ws := ws c; config := config c; reconnectAttempts := reconnectAttempts c;
     reconnectTimer := reconnectTimer c; eventHandlers := eventHandlers c;
     isConnecting := isConnecting c; subscriptions := x |}.

(** A computation on the world that returns or throws. *)
Definition M (A : Type) : Type := World -> World * result exn A.

Definition ret {A : Type} (a : A) : M A := fun w => (w, Ok a).

Definition throw {A : Type} (e : exn) : M A := fun w => (w, Err e).

Definition bind {A B : Type} (m : M A) (f : A -> M B) : M B :=
  fun w =>
    match m w with
    | (w', Ok a) => f a w'
    | (w', Err e) => (w', Err e)
    end.

Definition try_catch {A : Type} (m : M A) (handler : exn -> M A) : M A :=
  fun w =>
    match m w with
    | (w', Ok a) => (w', Ok a)
    | (w', Err e) => handler e w'
    end.

Definition update (f : World -> World) : M unit := fun w => (f w, Ok tt).

Notation "m ;; k" := (bind m (fun _ => k)) (at level 61, right associativity).

(** [forEach]: a callback that throws ends the iteration. *)
Fixpoint forEach {X : Type} (l : list X) (f : X -> M unit) : M unit :=
  match l with
  | [] => ret tt
  | x :: r => f x ;; forEach r f
  end.

Definition call_handler (event : WebSocketEventType) (handler : HandlerId)
    (data : json) : M unit :=
  fun w =>
    let (u', thrown) := run handler data (user w) in
    ({| client := client w; sockets := sockets w; wire := wire w;
        timers := timers w; calls := calls w ++ [(handler, event, data)];
        logged := logged w; user := u' |},
     match thrown with Some e => Err e | None => Ok tt end).

Definition logger_error (event : WebSocketEventType) (error : exn) : M unit :=
  update (fun w =>
    {| client := client w; sockets := sockets w; wire := wire w;
       timers := timers w; calls := calls w;
       logged := logged w ++ [(event, error)]; user := user w |}).

Definition emit (event : WebSocketEventType) (data : json) : M unit :=
  fun w =>
    match handlers_get event (eventHandlers (client w)) with
    | Some handlers =>
        forEach handlers
          (fun handler =>
             try_catch (call_handler event handler data)
               (fun error => logger_error event error)) w
    | None => ret tt w
    end.

Definition readyState (w : World) : option ReadyState :=
  match ws (client w) with
  | Some i => nth_error (sockets w) i
  | None => None
  end.

(** The test [!this.ws || this.ws.readyState !== 1], negated. *)
Definition is_open (w : World) : bool :=
  match readyState w with
  | Some OPEN => true
  | _ => false
  end.

Definition send (message : json) : M unit :=
  fun w =>
    if is_open w then
      match ws (client w) with
      | Some i => (with_wire (fun l => l ++ [(i, message)]) w, Ok tt)
      | None => (w, Err NotConnected)
      end
    else (w, Err NotConnected).

Definition subscribe (channel : string) : M unit :=
  fun w =>
    if String.eqb channel EmptyString then (w, Err ChannelError)
    else if negb (is_open w) then
      (with_client (fun c => set_subscriptions (set_add channel (subscriptions c)) c) w,
       Ok tt)
    else
      (send (subscribe_message channel) ;;
       update (with_client
                 (fun c => set_subscriptions (set_add channel (subscriptions c)) c)) ;;
       emit E_subscription (channel_data channel)) w.

Definition unsubscribe (channel : string) : M unit :=
  fun w =>
    if negb (is_open w) then
      (with_client (fun c => set_subscriptions (set_delete channel (subscriptions c)) c) w,
       Ok tt)
    else
      (send (unsubscribe_message channel) ;;
       update (with_client
                 (fun c => set_subscriptions (set_delete channel (subscriptions c)) c))) w.

Definition on (event : WebSocketEventType) (handler : HandlerId) : M unit :=
  update (with_client (fun c =>
    set_eventHandlers
      (match handlers_get event (eventHandlers c) with
       | Some _ => handlers_update event (handler_add handler) (eventHandlers c)
       | None => eventHandlers c ++ [(event, [handler])]
       end) c)).

Definition off (event : WebSocketEventType) (handler : HandlerId) : M unit :=
  update (with_client (fun c =>
    set_eventHandlers (handlers_update event (handler_delete handler) (eventHandlers c)) c)).

(** [connect]: the socket is created in state [CONNECTING] and its listeners
    are the four functions below; the promise it returns is not modelled. *)
Definition connect : M unit :=
  fun w =>
    if is_open w then (w, Ok tt)
    else if isConnecting (client w) then (w, Ok tt)
    else
      (with_sockets (fun l => l ++ [CONNECTING])
         (with_client
            (fun c => set_ws (Some (List.length (sockets w))) (set_isConnecting true c))
            w),
       Ok tt).

Definition cancel_timer (t : nat) (l : list (Z * bool)) : list (Z * bool) :=
  match nth_error l t with
  | Some (d, _) => firstn t l ++ [(d, false)] ++ skipn (S t) l
  | None => l
  end.

Definition set_socket (i : nat) (r : ReadyState) (l : list ReadyState) :
    list ReadyState :=
  match nth_error l i with
  | Some _ => firstn i l ++ [r] ++ skipn (S i) l
  | None => l
  end.

(** [ws.close()] starts the closing handshake of a socket that is not
    closed yet. *)
Definition close_socket (i : nat) (l : list ReadyState) : list ReadyState :=
  match nth_error l i with
  | Some CLOSED => l
  | Some _ => set_socket i CLOSING l
  | None => l
  end.

Definition disconnect : M unit :=
  update (fun w =>
    let w1 :=
      match reconnectTimer (client w) with
      | Some t => with_client (set_reconnectTimer None) (with_timers (cancel_timer t) w)
      | None => w
      end in
    let w2 :=
      match ws (client w1) with
      | Some i => with_client (set_ws None) (with_sockets (close_socket i) w1)
      | None => w1
      end in
    with_client (set_subscriptions []) w2).

Definition handleMessage (message : json) : M unit :=
  emit E_message message ;;
  match message with
  | JNull => throw TypeError
  | _ =>
      let type := message_field "type" message in
      let source := message_field "source" message in
      if field_is type "order_update" then emit E_order_update (message_data message)
      else if field_is type "trade" then emit E_trade (message_data message)
      else if field_is type "ticker" then emit E_ticker (message_data message)
      else if field_is type "orderbook" then emit E_orderbook (message_data message)
      else if field_is type "account_twap_orders"
              || field_is source "account_twap_orders"
      then emit E_twap_order (data_or_message message)
      else if field_is type "account_twap_order_updates"
              || field_is source "account_twap_order_updates"
      then emit E_twap_order_update (data_or_message message)
      else ret tt
  end.

Definition handleReconnect : M unit :=
  fun w =>
    let c := client w in
    if negb (reconnect (config c)) then (w, Ok tt)
    else if (maxReconnectAttempts (config c) <=? reconnectAttempts c)%Z then
      emit E_error (error_data NotConnected) w
    else
      let attempts := (reconnectAttempts c + 1)%Z in
      let delay := Z.min (reconnectInterval (config c) * 2 ^ (attempts - 1)) 60000 in
      let cappedDelay := Z.min delay 60000 in
      (update (with_client (set_reconnectAttempts attempts)) ;;
       emit E_reconnect (JObj (obj_literal [("attempt", JNum attempts)])) ;;
       update (fun w' =>
         with_client (set_reconnectTimer (Some (List.length (timers w'))))
           (with_timers (fun l => l ++ [(cappedDelay, true)]) w'))) w.

(** The listeners that [connect] registers on the socket. *)
Definition on_open : M unit :=
  update (with_client (fun c => set_reconnectAttempts 0 (set_isConnecting false c))) ;;
  emit E_open (JObj []) ;;
  (fun w => forEach (subscriptions (client w)) (fun channel => subscribe channel) w).

(** [parsed] is the result of [JSON.parse(data.toString())], [None] where it
    throws. *)
Definition on_message (parsed : option json) : M unit :=
  try_catch
    (match parsed with
     | Some message => handleMessage message
     | None => throw SyntaxError
     end)
    (fun error => emit E_error (error_data error)).

Definition on_error : M unit :=
  update (with_client (set_isConnecting false)) ;;
  emit E_error (error_data FetchFailure).

Definition on_close : M unit :=
  update (with_client (set_isConnecting false)) ;;
  emit E_close (JObj []) ;;
  handleReconnect.

(** What happens to the client: calls of its methods, events of a socket it
    created, and the firing of a timer it set. *)
Inductive Action : Type :=
| CallConnect
| CallDisconnect
| CallSubscribe (channel : string)
| CallUnsubscribe (channel : string)
| CallOn (event : WebSocketEventType) (handler : HandlerId)
| CallOff (event : WebSocketEventType) (handler : HandlerId)
| SocketOpen (i : nat)
| SocketMessage (i : nat) (parsed : option json)
| SocketError (i : nat)
| SocketClose (i : nat)
| TimerFires (t : nat).

(** A socket opens from [CONNECTING], delivers messages while [OPEN], and
    closes once; a timer fires while it is pending. *)
Definition enabled (a : Action) (w : World) : bool :=
  match a with
  | SocketOpen i =>
      match nth_error (sockets w) i with Some CONNECTING => true | _ => false end
  | SocketMessage i _ =>
      match nth_error (sockets w) i with Some OPEN => true | _ => false end
  | SocketError i | SocketClose i =>
      match nth_error (sockets w) i with
      | Some CLOSED | None => false
      | Some _ => true
      end
  | TimerFires t =>
      match nth_error (timers w) t with Some (_, true) => true | _ => false end
  | _ => true
  end.

Definition perform (a : Action) : M unit :=
  match a with
  | CallConnect => connect
  | CallDisconnect => disconnect
  | CallSubscribe channel => subscribe channel
  | CallUnsubscribe channel => unsubscribe channel
  | CallOn event handler => on event handler
  | CallOff event handler => off event handler
  | SocketOpen i => update (with_sockets (set_socket i OPEN)) ;; on_open
  | SocketMessage i parsed => on_message parsed
  | SocketError i => update (with_sockets (set_socket i CLOSING)) ;; on_error
  | SocketClose i => update (with_sockets (set_socket i CLOSED)) ;; on_close
  | TimerFires t => update (with_timers (cancel_timer t)) ;; connect
  end.

Definition step (w : World) (a : Action) (w' : World) : Prop :=
  enabled a w = true /\ fst (perform a w) = w'.

Definition new_World (config : option WebSocketConfig) (u : U) : World :=
  {| client := new_WebSocketClient config; sockets := []; wire := [];
     timers := []; calls := []; logged := []; user := u |}.

Inductive reachable (config : option WebSocketConfig) (u : U) : World -> Prop :=
| reachable_new : reachable config u (new_World config u)
| reachable_step w a w' :
    reachable config u w -> step w a w' -> reachable config u w'.

Fixpoint run_actions (l : list Action) (w : World) : World :=
  match l with
  | [] => w
  | a :: r => run_actions r (fst (perform a w))
  end.

(** The messages sent on a socket, oldest first. *)
Definition sent_on (i : nat) (w : World) : list json :=
  map snd (filter (fun f => Nat.eqb (fst f) i) (wire w)).

End Transport.

(** ** Notions used in the statements *)

(** The statuses that the transport retries: 429 and 5xx. *)
Definition retryable_status (s : Z) : Prop := (s = 429 \/ 500 <= s)%Z.

(** A stand-in for the Ed25519 primitives, to run the code on examples: the
    public key is the secret, a signature is the first 64 bytes of the
    secret followed by the message and zeros, and [verify] throws on a
    signature that does not have 64 bytes. *)
Definition toy_sign (message sk : list byte) : list byte :=
  firstn 64 (sk ++ message ++ repeat x00 64).

Definition bytes_eqb (a b : list byte) : bool :=
  if list_eq_dec Byte.byte_eq_dec a b then true else false.

Definition toy_Ed25519 : Ed25519 :=
  {| getPublicKey := fun sk => sk;
     sign := toy_sign;
     verify := fun sig message pk =>
       if (List.length sig =? 64)%nat
       then Some (bytes_eqb sig (toy_sign message pk))
       else None |}.

Definition toy_SolanaCli : SolanaCli :=
  {| sign_offchain_message := fun path message => Some "sig" |}.

(** The sleeps of [n] retries that follow failures other than 429, from
    retry [k] on. *)
Fixpoint backoff_sleeps (c : BaseClient) (k : Z) (n : nat) : list Z :=
  match n with
  | O => []
  | S n' => backoff c k :: backoff_sleeps c (k + 1)%Z n'
  end.

Section TransportNotions.

Context {U : Type}.

(** The handlers registered for an event, in registration order. *)
Definition registered (event : WebSocketEventType) (w : @World U) : list HandlerId :=
  match handlers_get event (eventHandlers (client w)) with
  | Some handlers => handlers
  | None => []
  end.

(** The part of the world that handlers cannot touch. *)
Definition same_transport (w w' : @World U) : Prop :=
  client w' = client w /\ sockets w' = sockets w /\
  wire w' = wire w /\ timers w' = timers w.

(** The invocations of the handlers of one event, oldest first. *)
Definition calls_for (event : WebSocketEventType) (w : @World U) :
    list (HandlerId * WebSocketEventType * json) :=
  filter (fun c => if event_eq_dec (snd (fst c)) event then true else false) (calls w).

(** The world after a run of inbound frames, each already parsed. *)
Definition deliver_frames (run : HandlerId -> json -> U -> U * option exn)
    (frames : list json) (w : @World U) : @World U :=
  fold_left (fun w' message => fst (on_message run (Some message) w')) frames w.

End TransportNotions.

Section TransportRuns.

Context {U : Type}.
Variable run : HandlerId -> json -> U -> U * option exn.

(** A run of actions in which every action is possible when it happens. *)
Fixpoint run_checked (l : list Action) (w : @World U) : option (@World U) :=
  match l with
  | [] => Some w
  | a :: r => if enabled a w then run_checked r (fst (perform run a w)) else None
  end.

(** What an action does to the subscription set [s]. *)
Definition subscriptions_after (a : Action) (s : list string) : list string :=
  match a with
  | CallDisconnect => []
  | CallSubscribe channel =>
      if String.eqb channel EmptyString then s else set_add channel s
  | CallUnsubscribe channel => set_delete channel s
  | _ => s
  end.

End TransportRuns.

(** The text of a string literal. *)
Definition quoted (s : string) : string := write_string s EmptyString.

(** The request body is signed, by the key of the client or by the hardware
    wallet of the options, when [sig] is the signature of [text]. *)
Definition signed_by `{Ed25519} `{SolanaCli} (self : SignClient)
    (options : option RequestOptions) (text sig : string) : Prop :=
  (exists path,
      truthy_string (config_field options hardware_wallet_path) = Some path /\
      sign_offchain_message path text = Some sig)
  \/ (exists keypair,
        generateKeypair (this_privateKey self) = Ok keypair /\
        sig = signMessage text (privateKey keypair)).

(** The fields that [makeSignedRequest] puts before the payload. *)
Definition envelope (account signature : string) (timestamp expiry_window : Z) :
    props :=
  [("account", JStr account); ("signature", JStr signature);
   ("timestamp", JNum timestamp); ("expiry_window", JNum expiry_window)].

(** ** Notions used in the statements about canonical JSON *)

Definition str_le (a b : string) : Prop := String.leb a b = true.

Definition str_lt (a b : string) : Prop := String.ltb a b = true.

Definition is_index (k : string) : Prop := array_index k <> None.

(** The order of two array indices. *)
Definition index_le (a b : string) : Prop :=
  match array_index a, array_index b with
  | Some n, Some m => (n <= m)%N
  | _, _ => False
  end.

(** [obj_insert_index] and [obj_set] on the keys alone. *)
Fixpoint insert_index_key (n : N) (k : string) (l : list string) : list string :=
  match l with
  | [] => [k]
  | k' :: r =>
      match array_index k' with
      | Some n' => if (n <? n')%N then k :: l else k' :: insert_index_key n k r
      | None => k :: l
      end
  end.

Definition key_insert (k : string) (l : list string) : list string :=
  match array_index k with
  | Some n => insert_index_key n k l
  | None => l ++ [k]
  end.

(** The order in which an object enumerates keys that it received in the
    order [ks]. *)
Definition enumeration_order (ks : list string) : list string :=
  fold_left (fun acc k => key_insert k acc) ks [].

(** The keys that an assignment turns into properties. *)
Definition assignable (ks : list string) : list string :=
  filter (fun k => negb (String.eqb k "__proto__")) ks.

(** The keys of the canonical form of an object whose keys are [ks]. *)
Definition canonical_keys (ks : list string) : list string :=
  enumeration_order (assignable (sort_keys ks)).

(** A list of keys in enumeration order: array indices in ascending order,
    then the other keys. *)
Definition enumerated (ks : list string) : Prop :=
  exists I S,
    ks = I ++ S /\ Forall is_index I /\ StronglySorted index_le I /\
    Forall (fun k => array_index k = None) S.

(** A value as a program holds it: the keys of each object are distinct.
    [js_value] asks moreover that each object lists its properties in
    enumeration order, as every object that exists at run time does. *)
Inductive distinct_keys : json -> Prop :=
| dk_null : distinct_keys JNull
| dk_bool b : distinct_keys (JBool b)
| dk_num z : distinct_keys (JNum z)
| dk_str s : distinct_keys (JStr s)
| dk_arr items : Forall distinct_keys items -> distinct_keys (JArr items)
| dk_obj ps :
    NoDup (map fst ps) -> Forall (fun kv => distinct_keys (snd kv)) ps ->
    distinct_keys (JObj ps).

Inductive js_value : json -> Prop :=
| jv_null : js_value JNull
| jv_bool b : js_value (JBool b)
| jv_num z : js_value (JNum z)
| jv_str s : js_value (JStr s)
| jv_arr items : Forall js_value items -> js_value (JArr items)
| jv_obj ps :
    NoDup (map fst ps) -> enumerated (map fst ps) ->
    Forall (fun kv => js_value (snd kv)) ps -> js_value (JObj ps).

(** Two values are the same up to the order of the properties of their
    objects. *)
Inductive option_rel {A : Type} (R : A -> A -> Prop) : option A -> option A -> Prop :=
| option_rel_None : option_rel R None None
| option_rel_Some a b : R a b -> option_rel R (Some a) (Some b).

Inductive same_json : json -> json -> Prop :=
| sj_null : same_json JNull JNull
| sj_bool b : same_json (JBool b) (JBool b)
| sj_num z : same_json (JNum z) (JNum z)
| sj_str s : same_json (JStr s) (JStr s)
| sj_arr l1 l2 : Forall2 same_json l1 l2 -> same_json (JArr l1) (JArr l2)
| sj_obj p1 p2 :
    NoDup (map fst p1) -> NoDup (map fst p2) ->
    (forall k, option_rel same_json (obj_get k p1) (obj_get k p2)) ->
    same_json (JObj p1) (JObj p2).

(** The strings of a value, keys included, have no space character. *)
Fixpoint no_space (s : string) : bool :=
  match s with
  | EmptyString => true
  | String c r => negb (Ascii.eqb c " ") && no_space r
  end.

Fixpoint strings_no_space (v : json) : bool :=
  match v with
  | JStr s => no_space s
  | JArr items => forallb strings_no_space items
  | JObj ps => forallb (fun kv => no_space (fst kv) && strings_no_space (snd kv)) ps
  | _ => true
  end.

(** White space of JSON texts: space, tab, line feed, carriage return. *)
Definition is_json_space (c : ascii) : bool :=
  let n := code c in ((n =? 32) || (n =? 9) || (n =? 10) || (n =? 13))%N.

Fixpoint no_whitespace (s : string) : bool :=
  match s with
  | EmptyString => true
  | String c r => negb (is_json_space c) && no_whitespace r
  end.

(** The fuel that the parser needs for the text of a value. *)
Fixpoint json_size (v : json) : nat :=
  match v with
  | JArr items => S (fold_right (fun x n => S (json_size x + n)) O items)
  | JObj ps => S (fold_right (fun kv n => S (json_size (snd kv) + n)) O ps)
  | _ => 1
  end.

(** The value that the canonical form of an object holds under a key. *)
Definition sorted_value (ps : props) (k : string) : json :=
  match obj_get k ps with
  | Some v => sortJsonKeys v
  | None => JNull
  end.

(** What may follow a value inside a text: nothing, or a separator. *)
Definition delimited (k : string) : Prop :=
  match k with
  | EmptyString => True
  | String c _ => c = ","%char \/ c = "]"%char \/ c = "}"%char
  end.

(** The first character of the text of a value. *)
Definition value_head (c : ascii) : bool :=
  let n := code c in
  ((n =? 110) || (n =? 116) || (n =? 102) || (n =? 34) || (n =? 91) || (n =? 123)
   || (n =? 45) || ((48 <=? n) && (n <=? 57)))%N.

Definition number_head (c : ascii) : bool :=
  let n := code c in ((n =? 45) || ((48 <=? n) && (n <=? 57)))%N.

(** The text of [v] followed by a separator is read back as [v], with any
    fuel that covers the size of [v]. *)
Definition reads_back (v : json) : Prop :=
  js_value v ->
  forall fuel k,
    (json_size v <= fuel)%nat -> delimited k ->
    parse_value fuel (write v k) = Some (v, k).

(** ** Notions used in the statements about the HTTP transport *)

(** The requests that [get] and [post] hand to [fetch]. *)
Definition get_request (c : BaseClient) (endpoint : string) : HttpRequest :=
  {| method := "GET";
     url := baseUrl c ++ endpoint;
     headers := obj_literal [("Content-Type", JStr "application/json")];
     req_body := None |}.

Definition post_request (c : BaseClient) (endpoint : string) (body : json)
    (headers : props) : HttpRequest :=
  {| method := "POST";
     url := baseUrl c ++ endpoint;
     headers :=
       obj_spread (obj_literal [("Content-Type", JStr "application/json")]) headers;
     req_body := Some (JSON_stringify body) |}.

(** What an attempt ends with: the parsed body, or the value that reaches
    the [catch] block together with [lastStatus] as it then is. *)
Definition attempt_outcome (c : BaseClient) (fetch : Z -> FetchResult)
    (attempt : Z) (lastStatus : option Z) : result (exn * option Z) json :=
  match fetch attempt with
  | Rejects e => Err (e, lastStatus)
  | Responds r =>
      match after_response c attempt r with
      | Ok data => Ok data
      | Err e => Err (e, Some (status r))
      end
  end.

(** The events of [n] attempts from attempt [k] on when no [catch] block
    sleeps: the backoff before each retry, and the call. *)
Fixpoint attempts_trace (c : BaseClient) (req : HttpRequest) (k : Z) (n : nat) :
    list HttpEvent :=
  match n with
  | O => []
  | S n' =>
      (if (0 <? k)%Z then [Sleep (backoff c (k - 1)); Fetch req] else [Fetch req])
      ++ attempts_trace c req (k + 1)%Z n'
  end.

(** The sleeps before the retries [k + 1], [k + 2], ... of a request that is
    answered 429 each time, when the [catch] block of attempt [j] sleeps
    [wait j]. *)
Fixpoint rate_limit_waits (c : BaseClient) (wait : Z -> Z) (k : Z) (n : nat) :
    list (list Z) :=
  match n with
  | O => []
  | S n' => [wait k; backoff c k] :: rate_limit_waits c wait (k + 1)%Z n'
  end.

(** The delay that a 429 response asks for, as the [try] block computes it:
    [None] stands for [NaN]. *)
Definition retryAfterMs (c : BaseClient) (attempt : Z) (r : Response) : option Z :=
  match truthy_string (retryAfterHeader r) with
  | Some h => option_map (fun n => n * 1000)%Z (parseInt h)
  | None => Some (backoff c attempt)
  end.

(** ** The order methods of the signing client ([clients/SignClient.ts]) *)

(** What a method of a client throws: a value that the transport or the
    signer threw, or [new Error(...)] with one of the messages of the
    method. *)
Inductive client_exn : Type :=
| Thrown (e : exn)
| PlainError (message : string)              (* new Error(message) *)
| UnsupportedOrderType (orderType : json).  (* `Unsupported order type: ${orderType}. ...` *)

Definition lift (r : list HttpEvent * result exn json) :
    list HttpEvent * result client_exn json :=
  (fst r, match snd r with Ok v => Ok v | Err e => Err (Thrown e) end).

(** [!o.name]: an absent property is [undefined]. *)
Definition falsy_field (name : string) (o : props) : bool :=
  match obj_get name o with
  | Some v => negb (truthy v)
  | None => true
  end.

(** [const { name, ...rest } = o]. *)
Definition rest_without (name : string) (o : props) : props :=
  obj_literal (filter (fun kv => negb (String.eqb (fst kv) name)) o).

(** [String(v)] on plain data. *)
Fixpoint ToString (v : json) : string :=
  match v with
  | JNull => "null"
  | JBool b => if b then "true" else "false"
  | JNum z => write_number z EmptyString
  | JStr s => s
  | JArr items =>
      (fix join (l : list json) : string :=
         match l with
         | [] => EmptyString
         | x :: r =>
             ((match x with JNull => EmptyString | _ => ToString x end)
              ++ match r with [] => EmptyString | _ => String "," (join r) end)%string
         end) items
  | JObj _ => "[object Object]"
  end.

(** [parseFloat]: the number that the longest numeric prefix of the trimmed
    text denotes, before it is rounded to a double: [digits * 10^exponent]
    with its sign. *)
Inductive parsed_number : Type :=
| PNaN
| PInfinity (negative : bool)
| PDecimal (negative : bool) (digits : N) (exponent : Z).

(** The exponent part [e], [e+] or [e-] followed by digits; without digits
    it is not part of the number. *)
Definition parse_exponent (s : string) : Z :=
  if starts_with "e" s || starts_with "E" s then
    let r := drop 1 s in
    let negative := starts_with "-" r in
    let r' := if starts_with "-" r || starts_with "+" r then drop 1 r else r in
    match fst (take_digits r') with
    | Nil => 0%Z
    | d => if negative then (- Z.of_N (N.of_uint d))%Z else Z.of_N (N.of_uint d)
    end
  else 0%Z.

Definition parseFloat (s : string) : parsed_number :=
  let t := trimStart s in
  let negative := starts_with "-" t in
  let u := if starts_with "-" t || starts_with "+" t then drop 1 t else t in
  if String.prefix "Infinity" u then PInfinity negative
  else
    let (int_digits, r1) := take_digits u in
    let (frac_digits, r2) :=
      if starts_with "." r1 then take_digits (drop 1 r1) else (Nil, r1) in
    match int_digits, frac_digits with
    | Nil, Nil => PNaN
    | _, _ =>
        PDecimal negative (N.of_uint (Decimal.app int_digits frac_digits))
          (parse_exponent r2 - Z.of_nat (nb_digits frac_digits))
    end.

(** A positive number rounds to the double [0] when it is at most
    [2^-1075], half of the least positive double. *)
Definition rounds_to_zero (digits : N) (exponent : Z) : bool :=
  (digits =? 0)%N
  || ((exponent <? 0)%Z && (Z.of_N digits * 2 ^ 1075 <=? 10 ^ (- exponent))%Z).

(** [x <= 0] on the double that [x] rounds to. *)
Definition le_zero (x : parsed_number) : bool :=
  match x with
  | PNaN => false
  | PInfinity negative => negative
  | PDecimal negative digits exponent => negative || rounds_to_zero digits exponent
  end.

(** [{ ...params, builder_code: this.builderCode }] when the client has a
    builder code and the parameters have none. *)
Definition mergeBuilderCode (self : SignClient) (params : props) : props :=
  match truthy_string (builderCode self) with
  | Some code =>
      if falsy_field "builder_code" params
      then obj_literal (params ++ [("builder_code", JStr code)])
      else params
  | None => params
  end.

Definition createLimitOrder `{Ed25519} `{SolanaCli} (self : SignClient) (now : Z)
    (fetch : Z -> FetchResult) (params : props) (options : option RequestOptions) :
    list HttpEvent * result client_exn json :=
  if falsy_field "side" params then ([], Err (PlainError "Order side is required"))
  else if falsy_field "amount" params && falsy_field "size" params
  then ([], Err (PlainError "Order amount or size is required"))
  else
    match obj_get "price" params with
    | Some price =>
        if negb (truthy price)
        then ([], Err (PlainError "Price is required for limit orders"))
        else if le_zero (parseFloat (ToString price))
        then ([], Err (PlainError "Order price must be greater than 0"))
        else
          let limitParams := rest_without "order_type" params in
          let paramsWithBuilder := mergeBuilderCode self limitParams in
          lift (makeSignedRequest self now fetch "/orders/create" "create_order"
                  paramsWithBuilder options)
    | None => ([], Err (PlainError "Price is required for limit orders"))
    end.

Definition createMarketOrder `{Ed25519} `{SolanaCli} (self : SignClient) (now : Z)
    (fetch : Z -> FetchResult) (params : props) (options : option RequestOptions) :
    list HttpEvent * result client_exn json :=
  if falsy_field "side" params then ([], Err (PlainError "Order side is required"))
  else if falsy_field "amount" params && falsy_field "size" params
  then ([], Err (PlainError "Order amount or size is required"))
  else if falsy_field "slippage_percent" params
  then ([], Err (PlainError "slippage_percent is required for market orders"))
  else
    let marketParams := rest_without "order_type" params in
    let paramsWithBuilder := mergeBuilderCode self marketParams in
    lift (makeSignedRequest self now fetch "/orders/create_market"
            "create_market_order" paramsWithBuilder options).

Definition createTWAPOrder `{Ed25519} `{SolanaCli} (self : SignClient) (now : Z)
    (fetch : Z -> FetchResult) (params : props) (options : option RequestOptions) :
    list HttpEvent * result client_exn json :=
  if falsy_field "side" params then ([], Err (PlainError "Order side is required"))
  else if falsy_field "amount" params
  then ([], Err (PlainError "Order amount is required"))
  else if falsy_field "slippage_percent" params
  then ([], Err (PlainError "slippage_percent is required for TWAP orders"))
  else if falsy_field "duration_in_seconds" params
  then ([], Err (PlainError "duration_in_seconds is required for TWAP orders"))
  else
    let paramsWithBuilder := mergeBuilderCode self params in
    lift (makeSignedRequest self now fetch "/orders/twap/create"
            "create_twap_order" paramsWithBuilder options).

(** [params.order_type || 'limit']. *)
Definition order_type_or_limit (params : props) : json :=
  match obj_get "order_type" params with
  | Some v => if truthy v then v else JStr "limit"
  | None => JStr "limit"
  end.

(** [createOrder]: the [switch] on the order type. *)
Definition createOrder `{Ed25519} `{SolanaCli} (self : SignClient) (now : Z)
    (fetch : Z -> FetchResult) (params : props) (options : option RequestOptions) :
    list HttpEvent * result client_exn json :=
  let orderType := order_type_or_limit params in
  match orderType with
  | JStr t =>
      if String.eqb t "limit" then createLimitOrder self now fetch params options
      else if String.eqb t "market" then createMarketOrder self now fetch params options
      else if String.eqb t "twap" then createTWAPOrder self now fetch params options
      else ([], Err (UnsupportedOrderType orderType))
  | _ => ([], Err (UnsupportedOrderType orderType))
  end.

Definition createStopOrder `{Ed25519} `{SolanaCli} (self : SignClient) (now : Z)
    (fetch : Z -> FetchResult) (params : props) (options : option RequestOptions) :
    list HttpEvent * result client_exn json :=
  let paramsWithBuilder := mergeBuilderCode self params in
  lift (makeSignedRequest self now fetch "/api/v1/orders/stop/create"
          "create_stop_order" paramsWithBuilder options).

Definition cancelOrder `{Ed25519} `{SolanaCli} (self : SignClient) (now : Z)
    (fetch : Z -> FetchResult) (params : props) (options : option RequestOptions) :
    list HttpEvent * result client_exn json :=
  lift (makeSignedRequest self now fetch "/orders/cancel" "cancel_order" params options).

Definition withdraw `{Ed25519} `{SolanaCli} (self : SignClient) (now : Z)
    (fetch : Z -> FetchResult) (params : props) (options : option RequestOptions) :
    list HttpEvent * result client_exn json :=
  lift (makeSignedRequest self now fetch "/api/v1/account/withdraw" "withdraw"
          params options).

Record ClosePositionParams : Type := {
  cp_market : string;
  cp_size : option string
}.

Definition closePosition `{Ed25519} `{SolanaCli} (self : SignClient) (now : Z)
    (fetch : Z -> FetchResult) (params : ClosePositionParams)
    (options : option RequestOptions) : list HttpEvent * result client_exn json :=
  let closeOrderParams :=
    obj_literal [("symbol", JStr (cp_market params)); ("side", JStr "ask");
                 ("reduce_only", JBool true); ("slippage_percent", JStr "0.5")] in
  let closeOrderParams :=
    match truthy_string (cp_size params) with
    | Some size => obj_assign "amount" (JStr size) closeOrderParams
    | None => closeOrderParams
    end in
  createMarketOrder self now fetch closeOrderParams options.

(** *** [batchOrders] *)

Record BatchOrderAction : Type := {
  action_type : string;
  action_data : props
}.

Definition batch_operation (action : BatchOrderAction) : string :=
  if String.eqb (action_type action) "Create" then "create_order" else "cancel_order".

(** The callback of [actions.map]; [now] is the value of [Date.now()] when
    the header of this action is created.  The expiry window of the signed
    request is always set here, so [expiry_window: signedRequest.expiry_window]
    is a property with a number. *)
Definition signed_action `{Ed25519} (self : SignClient) (accountPublicKey : string)
    (now : Z) (action : BatchOrderAction) : result exn json :=
  match buildSignedRequest now (batch_operation action) (action_data action)
          (this_privateKey self) (Some accountPublicKey)
          (Some (defaultExpiryWindow self)) with
  | Err e => Err e
  | Ok signedRequest =>
      let request :=
        obj_spread
          (obj_literal
             ([("account", JStr (account signedRequest));
               ("signature", JStr (signature signedRequest));
               ("timestamp", JNum (timestamp signedRequest))]
              ++ expiry_entry (expiry_window signedRequest)))
          (action_data action) in
      Ok (JObj (obj_literal [("type", JStr (action_type action));
                             ("data", JObj request)]))
  end.

(** [Promise.all] over the actions: the results in order, or the first
    rejection.  [now_of i] is the clock reading for action [i]. *)
Fixpoint signed_actions `{Ed25519} (self : SignClient) (accountPublicKey : string)
    (now_of : nat -> Z) (i : nat) (actions : list BatchOrderAction) :
    result exn (list json) :=
  match actions with
  | [] => Ok []
  | action :: rest =>
      match signed_action self accountPublicKey (now_of i) action with
      | Err e => Err e
      | Ok first =>
          match signed_actions self accountPublicKey now_of (S i) rest with
          | Err e => Err e
          | Ok more => Ok (first :: more)
          end
      end
  end.

Definition batchOrders `{Ed25519} (self : SignClient) (now_of : nat -> Z)
    (fetch : Z -> FetchResult) (actions : list BatchOrderAction)
    (options : option RequestOptions) : list HttpEvent * result exn json :=
  let resolved :=
    match truthy_string (this_accountPublicKey self) with
    | Some a => Ok a
    | None =>
        match generateKeypair (this_privateKey self) with
        | Ok keypair => Ok (publicKeyToHex (publicKey keypair))
        | Err e => Err e
        end
    end in
  match resolved with
  | Err e => ([], Err e)
  | Ok accountPublicKey =>
      match signed_actions self accountPublicKey now_of O actions with
      | Err e => ([], Err e)
      | Ok signedActions =>
          post (base self) "/orders/batch"
            (JObj (obj_literal [("actions", JArr signedActions)]))
            (agent_headers
               (string_or (config_field options agent_wallet)
                  (this_agentWalletPublicKey self)))
            fetch
      end
  end.

(** ** The read-only client ([clients/ApiClient.ts]) *)

(** *** [get] with [params] *)

Definition hex_digit_upper (n : N) : ascii :=
  if (n <? 10)%N then ascii_of_code (48 + n)%N else ascii_of_code (55 + n)%N.

(** A byte that the [application/x-www-form-urlencoded] serializer leaves as
    it is: an ASCII letter or digit, or one of [*], [-], [.], [_]. *)
Definition form_safe (n : N) : bool :=
  (((48 <=? n) && (n <=? 57)) || ((65 <=? n) && (n <=? 90))
   || ((97 <=? n) && (n <=? 122))
   || (n =? 42) || (n =? 45) || (n =? 46) || (n =? 95))%N.

Fixpoint form_encode_bytes (bs : list byte) : string :=
  match bs with
  | [] => EmptyString
  | b :: r =>
      let n := Byte.to_N b in
      if (n =? 32)%N then String "+" (form_encode_bytes r)
      else if form_safe n then String (ascii_of_code n) (form_encode_bytes r)
      else String "%" (String (hex_digit_upper (n / 16))
                         (String (hex_digit_upper (n mod 16)) (form_encode_bytes r)))
  end.

Definition form_encode (s : string) : string := form_encode_bytes (utf8_encode s).

(** [new URLSearchParams(params).toString()] for an object whose values are
    strings. *)
Fixpoint URLSearchParams_toString (params : list (string * string)) : string :=
  match params with
  | [] => EmptyString
  | (name, value) :: r =>
      (form_encode name ++ "=" ++ form_encode value
       ++ match r with
          | [] => EmptyString
          | _ => String "&" (URLSearchParams_toString r)
          end)%string
  end.

(** [get(endpoint, params)]: the query string is added when [params] is
    given and has a property. *)
Definition get_url (c : BaseClient) (endpoint : string)
    (params : option (list (string * string))) : string :=
  match params with
  | Some (p :: ps) =>
      (baseUrl c ++ endpoint ++ "?" ++ URLSearchParams_toString (p :: ps))%string
  | _ => (baseUrl c ++ endpoint)%string
  end.

Definition get_with (c : BaseClient) (endpoint : string)
    (params : option (list (string * string))) (fetch : Z -> FetchResult) :
    list HttpEvent * result exn json :=
  run_request c
    {| method := "GET";
       url := get_url c endpoint params;
       headers := obj_literal [("Content-Type", JStr "application/json")];
       req_body := None |}
    fetch.

(** *** The methods *)

Record ApiClientConfig : Type := {
  ac_baseUrl : option string;
  ac_timeout : option Z;
  ac_retryAttempts : option Z;
  ac_retryDelay : option Z
}.

Definition new_ApiClient (config : option ApiClientConfig) : BaseClient :=
  new_BaseClient (config_field config ac_baseUrl) (config_field config ac_timeout)
    (option_map
       (fun c => {| cfg_retryAttempts := ac_retryAttempts c;
                    cfg_retryDelay := ac_retryDelay c |})
       config).

(** The [catch] block of the market-data methods: [error.status === 404]
    holds of an [APIError] whose status is 404; reading [status] of
    [undefined] throws. *)
Definition not_found_as (message : string) (r : list HttpEvent * result exn json) :
    list HttpEvent * result client_exn json :=
  (fst r,
   match snd r with
   | Ok v => Ok v
   | Err (APIError s) =>
       if (s =? 404)%Z then Err (PlainError message) else Err (Thrown (APIError s))
   | Err UndefinedThrown => Err (Thrown TypeError)
   | Err e => Err (Thrown e)
   end).

Definition getMarketInfo (c : BaseClient) (market : option string)
    (fetch : Z -> FetchResult) : list HttpEvent * result client_exn json :=
  let endpoint :=
    match truthy_string market with
    | Some m => ("/markets/" ++ m)%string
    | None => "/markets"
    end in
  not_found_as
    ("Market data endpoints are not available via REST API. "
     ++ "Please use WebSocketClient.subscribe(" ++ quoted "prices"
     ++ ") for real-time market data.")%string
    (get_with c endpoint None fetch).

Definition getTicker (c : BaseClient) (market : string) (fetch : Z -> FetchResult) :
    list HttpEvent * result client_exn json :=
  not_found_as
    ("Ticker endpoints are not available via REST API. "
     ++ "Please use WebSocketClient.subscribe('ticker:" ++ market
     ++ "') for real-time ticker data.")%string
    (get_with c ("/ticker/" ++ market)%string None fetch).

Definition getTickers (c : BaseClient) (fetch : Z -> FetchResult) :
    list HttpEvent * result client_exn json :=
  not_found_as
    ("Ticker endpoints are not available via REST API. "
     ++ "Please use WebSocketClient.subscribe(" ++ quoted "prices"
     ++ ") for real-time ticker data.")%string
    (get_with c "/tickers" None fetch).

(** [n ? { name: n.toString() } : undefined] for a number [n]. *)
Definition number_param (name : string) (n : option Z) :
    option (list (string * string)) :=
  match n with
  | Some z => if (z =? 0)%Z then None else Some [(name, write_number z EmptyString)]
  | None => None
  end.

Definition getOrderBook (c : BaseClient) (market : string) (depth : option Z)
    (fetch : Z -> FetchResult) : list HttpEvent * result client_exn json :=
  not_found_as
    ("Orderbook endpoints are not available via REST API. "
     ++ "Please use WebSocketClient.subscribe('orderbook:" ++ market
     ++ "') for real-time orderbook data.")%string
    (get_with c ("/orderbook/" ++ market)%string (number_param "depth" depth) fetch).

Definition getTrades (c : BaseClient) (market : string) (limit : option Z)
    (fetch : Z -> FetchResult) : list HttpEvent * result client_exn json :=
  not_found_as
    ("Trades endpoints are not available via REST API. "
     ++ "Please use WebSocketClient.subscribe('trades:" ++ market
     ++ "') for real-time trades data.")%string
    (get_with c ("/trades/" ++ market)%string (number_param "limit" limit) fetch).

Definition getAccountInfo (c : BaseClient) (account : string)
    (fetch : Z -> FetchResult) : list HttpEvent * result client_exn json :=
  if String.eqb account EmptyString
  then ([], Err (PlainError "Account parameter is required for getAccountInfo()"))
  else lift (get_with c "/account" (Some [("account", account)]) fetch).

Definition getBalance (c : BaseClient) (account currency : option string)
    (fetch : Z -> FetchResult) : list HttpEvent * result client_exn json :=
  match truthy_string currency with
  | Some cur =>
      lift (get_with c ("/account/balance/" ++ cur)%string
              (match truthy_string account with
               | Some a => Some [("account", a)]
               | None => None
               end) fetch)
  | None =>
      match truthy_string account with
      | Some a => getAccountInfo c a fetch
      | None => ([], Err (PlainError "Account parameter is required for getBalance()"))
      end
  end.

(** [params] of [getOrderHistory]: the [market] argument is not read. *)
Definition getOrderHistory (c : BaseClient) (account : string)
    (market : option string) (limit : option Z) (fetch : Z -> FetchResult) :
    list HttpEvent * result client_exn json :=
  let params :=
    [("account", account)]
    ++ match limit with
       | Some z => if (z =? 0)%Z then [] else [("limit", write_number z EmptyString)]
       | None => []
       end in
  lift (get_with c "/orders/history" (Some params) fetch).

Definition getAccountHistory (c : BaseClient) (account : string) (limit : option Z)
    (cursor : option string) (fetch : Z -> FetchResult) :
    list HttpEvent * result client_exn json :=
  if String.eqb account EmptyString
  then ([], Err (PlainError "Account parameter is required for getAccountHistory()"))
  else
    let params :=
      [("account", account)]
      ++ match limit with
         | Some z => if (z =? 0)%Z then [] else [("limit", write_number z EmptyString)]
         | None => []
         end
      ++ match truthy_string cursor with
         | Some x => [("cursor", x)]
         | None => []
         end in
    lift (get_with c "/account/balance/history" (Some params) fetch).

(** ** Notions used in the statements about query strings *)

(** The characters that a query string is made of. *)
Definition query_char (c : ascii) : bool :=
  form_safe (code c)
  || ((code c =? 43) || (code c =? 37) || (code c =? 38) || (code c =? 61))%N.

Fixpoint count_char (c : ascii) (s : string) : nat :=
  match s with
  | EmptyString => O
  | String d r => if Ascii.eqb c d then S (count_char c r) else count_char c r
  end.

Fixpoint all_chars (p : ascii -> bool) (s : string) : bool :=
  match s with
  | EmptyString => true
  | String c r => p c && all_chars p r
  end.

(** ** More of the streaming transport *)

(** The frame of [subscribeToTWAPOrders] and [subscribeToTWAPOrderUpdates]. *)
Definition twap_subscribe_message (source account : string) : json :=
  JObj (obj_literal
          [("method", JStr "subscribe");
           ("params",
            JObj (obj_literal [("source", JStr source); ("account", JStr account)]))]).

(** The fields of the client that the transport itself does not read. *)
Record WebSocketKeys : Type := {
  wk_privateKey : option PrivateKey;
  wk_accountPublicKey : option string;
  wk_agentWalletPublicKey : option string;
  wk_builderCode : option string
}.

(** A private key is truthy unless it is the empty string. *)
Definition truthy_key (k : option PrivateKey) : option PrivateKey :=
  match k with
  | Some (KeyString EmptyString) => None
  | _ => k
  end.

(** The part of the constructor that sets these fields: the account and the
    agent wallet are kept only when a private key is given. *)
Definition new_WebSocketKeys (env_BUILDER_CODE : option string)
    (privateKey : option PrivateKey)
    (accountPublicKey agentWalletPublicKey builderCode : option string) :
    WebSocketKeys :=
  {| wk_privateKey := truthy_key privateKey;
     wk_accountPublicKey :=
       match truthy_key privateKey with Some _ => accountPublicKey | None => None end;
     wk_agentWalletPublicKey :=
       match truthy_key privateKey with
       | Some _ => agentWalletPublicKey
       | None => None
       end;
     wk_builderCode := string_or env_BUILDER_CODE builderCode |}.

(** The message that [sendSignedOperation] sends: [{ type: 'operation',
    ...signedRequest }], then [agent_wallet] when there is one. *)
Definition operation_message (signedRequest : SignedRequest)
    (agentWallet : option string) : json :=
  let message :=
    obj_literal
      ([("type", JStr "operation");
        ("account", JStr (account signedRequest));
        ("signature", JStr (signature signedRequest));
        ("operation", JStr (operation signedRequest));
        ("data", JObj (data signedRequest));
        ("timestamp", JNum (timestamp signedRequest))]
       ++ expiry_entry (expiry_window signedRequest)) in
  JObj (match agentWallet with
        | Some a => obj_assign "agent_wallet" (JStr a) message
        | None => message
        end).

Section TransportOperations.

Context {U : Type}.
Variable run : HandlerId -> json -> U -> U * option exn.

Local Notation "m ;; k" := (bind m (fun _ => k)) (at level 61, right associativity).

Definition subscribeToTWAPOrders (account : string) : @M U unit :=
  fun w =>
    let channel := ("twap_orders:" ++ account)%string in
    if negb (is_open w) then
      (with_client (fun c => set_subscriptions (set_add channel (subscriptions c)) c) w,
       Ok tt)
    else
      (send (twap_subscribe_message "account_twap_orders" account) ;;
       update (with_client
                 (fun c => set_subscriptions (set_add channel (subscriptions c)) c)) ;;
       emit run E_subscription (channel_data channel)) w.

Definition subscribeToTWAPOrderUpdates (account : string) : @M U unit :=
  fun w =>
    let channel := ("twap_order_updates:" ++ account)%string in
    if negb (is_open w) then
      (with_client (fun c => set_subscriptions (set_add channel (subscriptions c)) c) w,
       Ok tt)
    else
      (send (twap_subscribe_message "account_twap_order_updates" account) ;;
       update (with_client
                 (fun c => set_subscriptions (set_add channel (subscriptions c)) c)) ;;
       emit run E_subscription (channel_data channel)) w.

(** [sendSignedOperation], up to its [await]: the checks, made on the world
    as it is at the call, and the message that is then signed.  What it
    answers is the message to send; [send] runs after the [await], on the
    world as it is by then. *)
Definition sendSignedOperation `{Ed25519} (keys : WebSocketKeys) (now : Z)
    (operation : string) (data : props) (options : option RequestOptions)
    (w : @World U) : result client_exn json :=
  match wk_privateKey keys with
  | None => Err (PlainError "Private key required for signed operations")
  | Some privateKey =>
      if negb (is_open w) then Err (Thrown NotConnected)
      else
        let agentWallet :=
          string_or (config_field options agent_wallet) (wk_agentWalletPublicKey keys) in
        let publicKey := string_or agentWallet (wk_accountPublicKey keys) in
        let dataWithBuilder :=
          match truthy_string (wk_builderCode keys) with
          | Some code =>
              if falsy_field "builder_code" data
              then obj_literal (data ++ [("builder_code", JStr code)])
              else data
          | None => data
          end in
        match buildSignedRequest now operation dataWithBuilder privateKey
                (string_or publicKey (wk_accountPublicKey keys)) None with
        | Err e => Err (Thrown e)
        | Ok signedRequest =>
            Ok (operation_message signedRequest (truthy_string agentWallet))
        end
  end.

(** The rest of [sendSignedOperation], after the [await]. *)
Definition send_operation (message : json) : @M U unit := send message.

End TransportOperations.

(** ** Notions used in the statements about reconnection *)

Section ReconnectNotions.

Context {U : Type}.

(** What every state of a client satisfies: the configuration is the one it
    was built with, the count of reconnect attempts is within its bound, no
    timer was set for more than a minute, and no channel is twice in the
    set. *)
Definition transport_invariant (config0 : option WebSocketConfig) (w : @World U) :
    Prop :=
  config (client w) = config (new_WebSocketClient config0)
  /\ (0 <= reconnectAttempts (client w)
      <= Z.max 0 (maxReconnectAttempts (config (client w))))%Z
  /\ Forall (fun t => (fst t <= 60000)%Z) (timers w)
  /\ NoDup (subscriptions (client w)).

End ReconnectNotions.

(** ** [signWithHardwareWallet] *)

(** [execAsync]: what the command printed, or the message of the error that
    the promise rejects with. *)
Inductive ExecResult : Type :=
| Printed (stdout stderr : string)
| Rejected (message : string).

(** [String.prototype.includes]. *)
Fixpoint includes (s sub : string) : bool :=
  String.prefix sub s
  || match s with
     | String _ r => includes r sub
     | EmptyString => false
     end.

Definition line_feed : ascii := "010"%char.

(** [s.split('\n')]. *)
Fixpoint split_lines (s : string) : list string :=
  match s with
  | EmptyString => [EmptyString]
  | String c r =>
      if Ascii.eqb c line_feed then EmptyString :: split_lines r
      else
        match split_lines r with
        | l :: ls => String c l :: ls
        | [] => [String c EmptyString]
        end
  end.

(** The command line: the path and the message, each between two double
    quotes. *)
Definition hardware_wallet_command (hardwareWalletPath message : string) : string :=
  ("solana sign-offchain-message -k "
   ++ String quote_char
        (hardwareWalletPath
         ++ String quote_char
              (" " ++ String quote_char (message ++ String quote_char EmptyString))))%string.

(** The function answers the signature or the message of the error that it
    throws. *)
Definition signWithHardwareWallet (exec : string -> ExecResult)
    (message hardwareWalletPath : string) : result string string :=
  let rethrown (error_message : string) : result string string :=
    Err ("Error signing with hardware wallet: " ++ error_message)%string in
  match exec (hardware_wallet_command hardwareWalletPath message) with
  | Rejected error_message => rethrown error_message
  | Printed stdout stderr =>
      if negb (String.eqb stderr EmptyString) && negb (includes stderr "Please approve")
      then rethrown ("Hardware wallet signing failed: " ++ stderr)%string
      else
        let outputLines := split_lines (trim stdout) in
        let signature := trim (last outputLines EmptyString) in
        if String.eqb signature EmptyString
        then rethrown "No signature returned from hardware wallet"
        else Ok signature
  end.

(** The command-line tool as the signing code sees it. *)
Definition exec_SolanaCli (exec : string -> ExecResult) : SolanaCli :=
  {| sign_offchain_message := fun path message =>
       match signWithHardwareWallet exec message path with
       | Ok signature => Some signature
       | Err _ => None
       end |}.

(** A string that does not begin with white space. *)
Definition no_leading_space (s : string) : Prop :=
  match s with
  | String c _ => is_js_space c = false
  | EmptyString => True
  end.

Definition single_line (s : string) : bool :=
  all_chars (fun c => negb (Ascii.eqb c line_feed)) s.

(** ** The rate limiter ([utils/rateLimiter.ts]) *)

Module RateLimiter.

Record t : Type := {
  requests : list Z;
  maxRequests : Z;
  windowMs : Z
}.

Definition new (maxRequests windowMs : option Z) : t :=
  {| requests := [];
     maxRequests := match maxRequests with Some m => m | None => 100%Z end;
     windowMs := match windowMs with Some w => w | None => 60000%Z end |}.

Definition set_requests (l : list Z) (self : t) : t :=
  {| requests := l; maxRequests := maxRequests self; windowMs := windowMs self |}.

(** The error of [checkLimit]; its message is
    [Rate limit exceeded. Wait <seconds>s], where the seconds are [NaN]
    ([None]) when no request is recorded. *)
Inductive limit_error : Type :=
| RateLimitExceeded (seconds : option Z).

(** [Math.ceil(x / 1000)] on an integer. *)
Definition ceil_seconds (x : Z) : Z := (- ((- x) / 1000))%Z.

(** [checkLimit]; [now] is the value of [Date.now()].  The loop that
    compacts the array keeps, in order, the entries that are not older than
    the cutoff. *)
Definition checkLimit (now : Z) (self : t) : t * result limit_error unit :=
  let cutoff := (now - windowMs self)%Z in
  let kept := filter (fun r => (cutoff <=? r)%Z) (requests self) in
  if (maxRequests self <=? Z.of_nat (List.length kept))%Z then
    (set_requests kept self,
     Err (RateLimitExceeded
            (match kept with
             | oldestRequest :: _ =>
                 Some (ceil_seconds (windowMs self - (now - oldestRequest)))
             | [] => None
             end)))
  else (set_requests (kept ++ [now]) self, Ok tt).

(** The loop of [getCurrentCount], from the last entry down, ended by the
    first entry that is older than the cutoff. *)
Fixpoint count_from_last (cutoff : Z) (newest_first : list Z) : Z :=
  match newest_first with
  | [] => 0
  | r :: older => if (cutoff <=? r)%Z then 1 + count_from_last cutoff older else 0
  end.

Definition getCurrentCount (now : Z) (self : t) : Z :=
  count_from_last (now - windowMs self) (List.rev (requests self)).

Definition reset (self : t) : t := set_requests [] self.

(** A run of calls of [checkLimit], one for each reading of the clock: the
    limiter after them, and the readings of the calls that were accepted. *)
Definition call (state : t * list Z) (now : Z) : t * list Z :=
  match checkLimit now (fst state) with
  | (self', Ok _) => (self', snd state ++ [now])
  | (self', Err _) => (self', snd state)
  end.

Definition calls (self : t) (clock : list Z) : t * list Z :=
  fold_left call clock (self, []).

Definition accepted (self : t) (clock : list Z) : list Z := snd (calls self clock).

(** The accepted calls whose reading lies in the window that starts at
    [start]. *)
Definition in_window (start width : Z) (readings : list Z) : list Z :=
  filter (fun r => (start <=? r)%Z && (r <=? start + width)%Z) readings.

End RateLimiter.

(* ================================================================== *)
(** * Part II.  Properties                                             *)
(* ================================================================== *)

(** ** The HTTP transport *)

Lemma after_response_429 c attempt r :
  status r = 429%Z ->
  exists ra, after_response c attempt r = Err (RateLimitError ra).
Proof.
  intros H. unfold after_response. rewrite H. simpl. eauto.
Qed.

Lemma after_response_not_ok c attempt r :
  status r <> 429%Z -> (300 <= status r)%Z ->
  after_response c attempt r = Err (APIError (status r)).
Proof.
  intros H1 H2. unfold after_response, response_ok.
  destruct (Z.eqb_spec (status r) 429); [contradiction|].
  destruct (Z.leb_spec (status r) 299); [lia|].
  now rewrite andb_false_r.
Qed.

Lemma isRetryable_5xx s :
  (500 <= s)%Z -> isRetryableError (APIError s) (Some s) = true.
Proof.
  intros H. unfold isRetryableError. simpl.
  destruct (Z.eqb_spec s 0); [lia|].
  destruct (Z.leb_spec 500 s); [reflexivity|lia].
Qed.

Lemma isRetryable_4xx s :
  (400 <= s < 500)%Z -> s <> 429%Z ->
  isRetryableError (APIError s) (Some s) = false.
Proof.
  intros H H'. unfold isRetryableError. simpl.
  destruct (Z.eqb_spec s 0); [lia|].
  destruct (Z.leb_spec 500 s); [lia|].
  simpl. now apply Z.eqb_neq.
Qed.

(** A retryable failure at an attempt that is not the last continues the
    loop; at the last attempt it is thrown as it is. *)
Lemma on_catch_retryable c attempt r e :
  retryable_status (status r) ->
  after_response c attempt r = Err e ->
  (attempt < retryAttempts c)%Z ->
  snd (on_catch c attempt e (Some (status r))) = None.
Proof.
  intros Hs He Hlt.
  assert (Hm : (attempt <? retryAttempts c)%Z = true) by now apply Z.ltb_lt.
  destruct (Z.eq_dec (status r) 429) as [E|E].
  - destruct (after_response_429 c attempt r E) as [ra Hra].
    rewrite Hra in He. inversion He; subst.
    unfold on_catch. now rewrite Hm.
  - destruct Hs as [Hs|Hs]; [contradiction|].
    rewrite after_response_not_ok in He by lia.
    inversion He; subst. unfold on_catch.
    now rewrite isRetryable_5xx, Hm by assumption.
Qed.

Lemma on_catch_last c attempt r e :
  retryable_status (status r) ->
  after_response c attempt r = Err e ->
  ~ (attempt < retryAttempts c)%Z ->
  on_catch c attempt e (Some (status r)) = ([], Some e).
Proof.
  intros Hs He Hlt.
  assert (Hm : (attempt <? retryAttempts c)%Z = false) by now apply Z.ltb_nlt.
  destruct (Z.eq_dec (status r) 429) as [E|E].
  - destruct (after_response_429 c attempt r E) as [ra Hra].
    rewrite Hra in He. inversion He; subst.
    unfold on_catch. now rewrite Hm.
  - destruct Hs as [Hs|Hs]; [contradiction|].
    rewrite after_response_not_ok in He by lia.
    inversion He; subst. unfold on_catch.
    now rewrite isRetryable_5xx, Hm by assumption.
Qed.

Lemma after_response_retryable c attempt r :
  retryable_status (status r) ->
  exists e, after_response c attempt r = Err e /\
            (status r = 429%Z -> exists ra, e = RateLimitError ra) /\
            (status r <> 429%Z -> e = APIError (status r)).
Proof.
  intros Hs. destruct (Z.eq_dec (status r) 429) as [E|E].
  - destruct (after_response_429 c attempt r E) as [ra Hra].
    exists (RateLimitError ra). repeat split; eauto. contradiction.
  - destruct Hs as [Hs|Hs]; [contradiction|].
    exists (APIError (status r)). repeat split; auto.
    + apply after_response_not_ok; [assumption|lia].
    + contradiction.
Qed.

Lemma count_fetches_app t1 t2 :
  count_fetches (t1 ++ t2) = (count_fetches t1 + count_fetches t2)%nat.
Proof.
  induction t1 as [|[ms|req] t1 IH]; simpl; auto.
Qed.

Lemma count_fetches_sleeps c attempt e ls :
  count_fetches (fst (on_catch c attempt e ls)) = O.
Proof.
  unfold on_catch.
  destruct e; simpl;
    repeat match goal with
           | |- context [if ?b then _ else _] => destruct b; simpl
           | |- context [match ?x with _ => _ end] => destruct x; simpl
           end; reflexivity.
Qed.

Lemma count_fetches_pre c req attempt :
  count_fetches
    (if (0 <? attempt)%Z then [Sleep (backoff c (attempt - 1)); Fetch req]
     else [Fetch req]) = 1%nat.
Proof. destruct (0 <? attempt)%Z; reflexivity. Qed.

(** The loop on a server that answers every attempt with 429 or 5xx. *)
Lemma request_loop_persistent c req fetch :
  forall fuel attempt lastError lastStatus,
    (0 < fuel)%nat ->
    (attempt + Z.of_nat fuel = retryAttempts c + 1)%Z ->
    (forall k, (attempt <= k <= retryAttempts c)%Z ->
               exists r, fetch k = Responds r /\ retryable_status (status r)) ->
    count_fetches (fst (request_loop c req fetch fuel attempt lastError lastStatus)) = fuel
    /\ exists r e,
         fetch (retryAttempts c) = Responds r /\
         after_response c (retryAttempts c) r = Err e /\
         snd (request_loop c req fetch fuel attempt lastError lastStatus) = Err e.
Proof.
  induction fuel as [|fuel IH]; intros attempt lastError lastStatus Hpos Hsum Hall;
    [lia|].
  destruct (Hall attempt ltac:(lia)) as [r [Hf Hs]].
  destruct (after_response_retryable c attempt r Hs) as [e [He _]].
  cbn [request_loop]. rewrite Hf, He.
  destruct fuel as [|fuel'].
  - (* the last attempt *)
    assert (attempt = retryAttempts c) by lia. subst attempt.
    rewrite (on_catch_last c _ r e Hs He) by lia.
    cbn [fst snd]. rewrite app_nil_r, count_fetches_pre.
    split; [reflexivity|]. exists r, e. auto.
  - pose proof (on_catch_retryable c attempt r e Hs He ltac:(lia)) as Hc.
    pose proof (count_fetches_sleeps c attempt e (Some (status r))) as Hn.
    destruct (on_catch c attempt e (Some (status r))) as [sleeps o].
    cbn [fst snd] in Hc, Hn. subst o.
    specialize (IH (attempt + 1)%Z (Some e) (Some (status r)) ltac:(lia) ltac:(lia)).
    destruct IH as [IH1 [r' [e' [IHa [IHb IHc]]]]].
    { intros k Hk. apply Hall. lia. }
    destruct (request_loop c req fetch (S fuel') (attempt + 1) (Some e) (Some (status r)))
      as [trace res].
    cbn [fst snd] in *. split.
    + rewrite !count_fetches_app, count_fetches_pre, Hn, IH1. reflexivity.
    + exists r', e'. auto.
Qed.

(** C6 (first half): with [N] retries configured, a request that meets a
    429 or a 5xx at every attempt makes exactly [N + 1] calls of [fetch] and
    throws the error of the last response: [RateLimitError] for a 429,
    [APIError] with the status otherwise.  (Second half): a 4xx other than 429
    at the first attempt is thrown as [APIError] with that status after that
    single call, no sleep and no second call.  The default is 3 retries, 4
    calls. *)
Theorem C6_bounded_classified_retry :
  forall (c : BaseClient) (endpoint : string) (fetch : Z -> FetchResult),
    (0 <= retryAttempts c)%Z ->
    ((forall k, (0 <= k <= retryAttempts c)%Z ->
                exists r, fetch k = Responds r /\ retryable_status (status r)) ->
     count_fetches (fst (get c endpoint fetch)) = Z.to_nat (retryAttempts c + 1)
     /\ exists r e,
          fetch (retryAttempts c) = Responds r /\
          snd (get c endpoint fetch) = Err e /\
          (status r = 429%Z -> exists ra, e = RateLimitError ra) /\
          (status r <> 429%Z -> e = APIError (status r)))
    /\ (forall r, fetch 0%Z = Responds r ->
                  (400 <= status r < 500)%Z -> status r <> 429%Z ->
                  count_fetches (fst (get c endpoint fetch)) = 1%nat /\
                  sleeps_of (fst (get c endpoint fetch)) = [] /\
                  snd (get c endpoint fetch) = Err (APIError (status r)))
    /\ Z.to_nat (retryAttempts (new_BaseClient None None None) + 1) = 4%nat.
Proof.
  intros c endpoint fetch HN. split; [|split].
  - intros Hall. unfold get, run_request.
    set (req := {| method := "GET"; url := _; headers := _; req_body := _ |}).
    destruct (request_loop_persistent c req fetch
                (Z.to_nat (retryAttempts c + 1)) 0%Z None None)
      as [H1 [r [e [Ha [Hb Hc]]]]]; [lia|lia|assumption|].
    split; [exact H1|]. exists r, e. repeat split; auto.
    + intros E. destruct (after_response_429 c (retryAttempts c) r E) as [ra Hra].
      rewrite Hra in Hb. inversion Hb. eauto.
    + intros E. destruct (Hall (retryAttempts c) ltac:(lia)) as [r' [Hr' Hs]].
      rewrite Ha in Hr'. inversion Hr'; subst r'.
      destruct Hs as [Hs|Hs]; [contradiction|].
      rewrite after_response_not_ok in Hb by lia. now inversion Hb.
  - intros r Hf Hs Hne. unfold get, run_request.
    set (req := {| method := "GET"; url := _; headers := _; req_body := _ |}).
    replace (Z.to_nat (retryAttempts c + 1)) with (S (Z.to_nat (retryAttempts c)))
      by lia.
    cbn [request_loop]. rewrite Hf.
    rewrite after_response_not_ok by lia.
    unfold on_catch. rewrite isRetryable_4xx by assumption.
    cbn. auto.
  - reflexivity.
Qed.

(** C6, on a server that always answers 503: the default client calls it
    four times and throws [APIError 503]. *)
Lemma C6_bounded_classified_retry_witness :
  let c := new_BaseClient None None None in
  let fetch := fun _ : Z =>
    Responds {| status := 503; retryAfterHeader := None; body := None |} in
  count_fetches (fst (get c "/info" fetch)) = 4%nat.
Proof.
  intros c fetch.
  refine (proj1 (proj1 (C6_bounded_classified_retry c "/info" fetch _) _)).
  - vm_compute. discriminate.
  - intros k _. eexists. split; [reflexivity|]. right. simpl. lia.
Defined.

Lemma sleeps_of_app t1 t2 : sleeps_of (t1 ++ t2) = sleeps_of t1 ++ sleeps_of t2.
Proof.
  induction t1 as [|[ms|req] t1 IH]; simpl; auto. now rewrite IH.
Qed.

(** On a server that answers 5xx at every attempt, the sleep before retry
    [k] is [retryDelay * 2^k] and there is no other sleep. *)
Lemma request_loop_5xx_sleeps c req fetch :
  forall fuel attempt lastError lastStatus,
    (0 <= attempt)%Z ->
    (attempt + Z.of_nat fuel = retryAttempts c + 1)%Z ->
    (forall k, (attempt <= k <= retryAttempts c)%Z ->
               exists r, fetch k = Responds r /\ (500 <= status r)%Z) ->
    sleeps_of (fst (request_loop c req fetch fuel attempt lastError lastStatus)) =
    (if (0 <? attempt)%Z then
       match fuel with
       | O => []
       | S _ => backoff c (attempt - 1) :: backoff_sleeps c attempt (fuel - 1)
       end
     else backoff_sleeps c attempt (fuel - 1)).
Proof.
  induction fuel as [|fuel IH]; intros attempt lastError lastStatus H0 Hsum Hall.
  - simpl. destruct (0 <? attempt)%Z; reflexivity.
  - destruct (Hall attempt ltac:(lia)) as [r [Hf Hs]].
    assert (Hr : retryable_status (status r)) by (right; exact Hs).
    assert (He : after_response c attempt r = Err (APIError (status r)))
      by (apply after_response_not_ok; lia).
    cbn [request_loop]. rewrite Hf, He.
    destruct fuel as [|fuel'].
    + rewrite (on_catch_last c attempt r _ Hr He) by lia.
      cbn [fst]. rewrite app_nil_r. destruct (0 <? attempt)%Z; reflexivity.
    + assert (Hc : on_catch c attempt (APIError (status r)) (Some (status r)) = ([], None)).
      { unfold on_catch. rewrite isRetryable_5xx by assumption.
        replace (attempt <? retryAttempts c)%Z with true; [reflexivity|].
        symmetry. apply Z.ltb_lt. lia. }
      rewrite Hc.
      specialize (IH (attempt + 1)%Z (Some (APIError (status r))) (Some (status r))
                     ltac:(lia) ltac:(lia)).
      assert (IH' := IH ltac:(intros k Hk; apply Hall; lia)). clear IH.
      destruct (request_loop c req fetch (S fuel') (attempt + 1)
                  (Some (APIError (status r))) (Some (status r))) as [trace res].
      cbn [fst] in *. rewrite sleeps_of_app. rewrite app_nil_l, IH'.
      replace (0 <? attempt + 1)%Z with true by (symmetry; apply Z.ltb_lt; lia).
      replace (attempt + 1 - 1)%Z with attempt by lia.
      replace (S (S fuel') - 1)%nat with (S fuel') by lia.
      replace (S fuel' - 1)%nat with fuel' by lia.
      cbn [backoff_sleeps].
      destruct (0 <? attempt)%Z; cbn [sleeps_of List.app]; reflexivity.
Qed.

Lemma backoff_doubles c k :
  (0 <= k)%Z -> backoff c (k + 1) = (2 * backoff c k)%Z.
Proof.
  intros H. unfold backoff. rewrite Z.pow_add_r by lia. lia.
Qed.

(** The sound half of C7: after failures that are not 429 the sleeps are
    [retryDelay * 2^0], [retryDelay * 2^1], ..., one before each retry. *)
Lemma get_5xx_backoff c endpoint fetch :
  (0 <= retryAttempts c)%Z ->
  (forall k, (0 <= k <= retryAttempts c)%Z ->
             exists r, fetch k = Responds r /\ (500 <= status r)%Z) ->
  sleeps_of (fst (get c endpoint fetch)) =
  backoff_sleeps c 0 (Z.to_nat (retryAttempts c)).
Proof.
  intros HN Hall. unfold get, run_request.
  rewrite request_loop_5xx_sleeps; [|lia|lia|assumption].
  cbn. f_equal. lia.
Qed.

(** C7: a client with one retry and a base delay of 1000 ms receives a 429
    whose [Retry-After] is 2 seconds, then a 200.  Before the only retry the
    code sleeps twice, 2000 ms in the [catch] block and then the 1000 ms of
    the backoff at the head of the next iteration; without the header it
    sleeps the backoff twice. *)
Theorem C7_rate_limit_retry_sleeps_twice :
  let c := {| baseUrl := "https://api.pacifica.fi/api/v1"; timeout := 30000;
              retryAttempts := 1; retryDelay := 1000 |} in
  let ok := Responds {| status := 200; retryAfterHeader := None; body := Some JNull |} in
  let limited h := Responds {| status := 429; retryAfterHeader := h; body := None |} in
  delays_before
    (fst (get c "/info" (fun k => if (k =? 0)%Z then limited (Some "2") else ok))) []
  = [[]; [2000; 1000]]%Z
  /\ delays_before
       (fst (get c "/info" (fun k => if (k =? 0)%Z then limited None else ok))) []
     = [[]; [1000; 1000]]%Z.
Proof. split; vm_compute; reflexivity. Qed.

(** ** The streaming transport: dispatch to handlers *)

Section Dispatch.

Context {U : Type}.
Variable run : HandlerId -> json -> U -> U * option exn.

Lemma same_transport_refl (w : @World U) : same_transport w w.
Proof. repeat split. Qed.

Lemma same_transport_trans (w1 w2 w3 : @World U) :
  same_transport w1 w2 -> same_transport w2 w3 -> same_transport w1 w3.
Proof.
  intros [A [B [C D]]] [A' [B' [C' D']]]. repeat split; congruence.
Qed.

(** One handler inside its [try]: it is called, and nothing is thrown. *)
Lemma guarded_call event handler data (w : @World U) :
  let r := try_catch (call_handler run event handler data)
             (fun error => logger_error event error) w in
  snd r = Ok tt /\
  calls (fst r) = calls w ++ [(handler, event, data)] /\
  same_transport w (fst r).
Proof.
  unfold try_catch, call_handler, logger_error, update.
  destruct (run handler data (user w)) as [u' [e|]]; cbn;
    repeat split; reflexivity.
Qed.

Lemma forEach_guarded event data :
  forall handlers (w : @World U),
    let r := forEach handlers
               (fun handler =>
                  try_catch (call_handler run event handler data)
                    (fun error => logger_error event error)) w in
    snd r = Ok tt /\
    calls (fst r) = calls w ++ map (fun h => (h, event, data)) handlers /\
    same_transport w (fst r).
Proof.
  induction handlers as [|h hs IH]; intros w.
  - cbn. rewrite app_nil_r. repeat split; reflexivity.
  - cbn [forEach]. unfold bind.
    pose proof (guarded_call event h data w) as G. cbn zeta in G.
    destruct (try_catch (call_handler run event h data)
                (fun error => logger_error event error) w) as [w1 r1].
    cbn [fst snd] in G. destruct G as [G1 [G2 G3]]. subst r1.
    specialize (IH w1). cbn zeta in IH.
    destruct (forEach hs _ w1) as [w2 r2]. cbn [fst snd] in *.
    destruct IH as [I1 [I2 I3]]. split; [exact I1|]. split.
    + rewrite I2, G2, <- app_assoc. reflexivity.
    + eapply same_transport_trans; eassumption.
Qed.

(** [emit] calls every handler of the event once, in registration order,
    with the data it was given, and returns, whatever the handlers throw. *)
Lemma emit_spec event data (w : @World U) :
  snd (emit run event data w) = Ok tt /\
  calls (fst (emit run event data w)) =
    calls w ++ map (fun h => (h, event, data)) (registered event w) /\
  same_transport w (fst (emit run event data w)).
Proof.
  unfold emit, registered.
  destruct (handlers_get event (eventHandlers (client w))) as [hs|].
  - apply forEach_guarded.
  - cbn. rewrite app_nil_r. repeat split; reflexivity.
Qed.

Lemma registered_same (w w' : @World U) event :
  same_transport w w' -> registered event w' = registered event w.
Proof. intros [H _]. unfold registered. now rewrite H. Qed.

Lemma calls_for_app_emit ev event data (w : @World U) :
  calls_for ev (fst (emit run event data w)) =
  calls_for ev w ++
  (if event_eq_dec event ev then map (fun h => (h, event, data)) (registered event w)
   else []).
Proof.
  destruct (emit_spec event data w) as [_ [H _]].
  unfold calls_for. rewrite H, filter_app. f_equal. clear H.
  generalize (registered event w). intros hs.
  destruct (event_eq_dec event ev) as [E|E];
    induction hs as [|h hs IH]; cbn; try reflexivity;
    destruct (event_eq_dec event ev); try contradiction;
    [now rewrite IH|exact IH].
Qed.

(** [handleMessage] calls the handlers of ['message'] and then at most the
    handlers of one other event; it throws only on [null]. *)
Lemma handleMessage_spec message (w : @World U) :
  calls_for E_message (fst (handleMessage run message w)) =
    calls_for E_message w
    ++ map (fun h => (h, E_message, message)) (registered E_message w)
  /\ same_transport w (fst (handleMessage run message w)).
Proof.
  unfold handleMessage, bind.
  pose proof (emit_spec E_message message w) as [E1 [_ E3]].
  pose proof (calls_for_app_emit E_message E_message message w) as E2.
  destruct (emit run E_message message w) as [w1 r1]. cbn [fst snd] in *.
  subst r1. destruct (event_eq_dec E_message E_message); [|congruence].
  assert (K : forall ev d, ev <> E_message ->
            calls_for E_message (fst (emit run ev d w1)) =
              calls_for E_message w
              ++ map (fun h => (h, E_message, message)) (registered E_message w)
            /\ same_transport w (fst (emit run ev d w1))).
  { intros ev d Hne. rewrite calls_for_app_emit.
    destruct (event_eq_dec ev E_message); [contradiction|].
    rewrite app_nil_r. split; [exact E2|].
    eapply same_transport_trans; [exact E3|]. apply emit_spec. }
  destruct message; cbn [fst throw ret];
    repeat match goal with
           | |- context [if ?b then _ else _] => destruct b
           end;
    try (apply K; discriminate);
    split; assumption.
Qed.

(** The listener of the socket's ['message'] event never throws. *)
Lemma on_message_returns parsed (w : @World U) :
  snd (on_message run parsed w) = Ok tt.
Proof.
  unfold on_message, try_catch.
  destruct parsed as [message|].
  - destruct (handleMessage run message w) as [w1 [[]|e]] eqn:H.
    + reflexivity.
    + apply emit_spec.
  - cbn. apply emit_spec.
Qed.

Lemma on_message_spec message (w : @World U) :
  calls_for E_message (fst (on_message run (Some message) w)) =
    calls_for E_message w
    ++ map (fun h => (h, E_message, message)) (registered E_message w)
  /\ same_transport w (fst (on_message run (Some message) w)).
Proof.
  unfold on_message, try_catch.
  pose proof (handleMessage_spec message w) as [H1 H2].
  destruct (handleMessage run message w) as [w1 [a|e]]; cbn [fst] in *.
  - split; assumption.
  - rewrite calls_for_app_emit.
    destruct (event_eq_dec E_error E_message); [discriminate|].
    rewrite app_nil_r. split; [exact H1|].
    eapply same_transport_trans; [exact H2|]. apply emit_spec.
Qed.

Lemma deliver_frames_spec :
  forall frames (w : @World U),
    calls_for E_message (deliver_frames run frames w) =
      calls_for E_message w
      ++ flat_map (fun message =>
                     map (fun h => (h, E_message, message)) (registered E_message w))
           frames
    /\ same_transport w (deliver_frames run frames w).
Proof.
  induction frames as [|m frames IH]; intros w.
  - cbn. rewrite app_nil_r. split; [reflexivity|apply same_transport_refl].
  - cbn [deliver_frames fold_left flat_map].
    pose proof (on_message_spec m w) as [H1 H2].
    destruct (IH (fst (on_message run (Some m) w))) as [I1 I2].
    unfold deliver_frames in *. split.
    + rewrite I1, H1, <- app_assoc. f_equal. f_equal.
      apply flat_map_ext. intros a. now rewrite (registered_same _ _ _ H2).
    + eapply same_transport_trans; eassumption.
Qed.

(** C9: [emit] invokes every handler registered for the event, in order and
    with the same data, and returns normally, whichever of them throw; the
    message listener never throws either, and over any run of inbound frames
    every ['message'] handler is invoked once for every frame, so a throwing
    handler stops neither the other handlers nor the later frames. *)
Theorem C9_handler_isolation :
  forall (event : WebSocketEventType) (data : json) (w : @World U),
    (snd (emit run event data w) = Ok tt /\
     calls (fst (emit run event data w)) =
       calls w ++ map (fun h => (h, event, data)) (registered event w))
    /\ (forall parsed, snd (on_message run parsed w) = Ok tt)
    /\ (forall frames,
          calls_for E_message (deliver_frames run frames w) =
            calls_for E_message w
            ++ flat_map (fun message =>
                 map (fun h => (h, E_message, message)) (registered E_message w))
                 frames).
Proof.
  intros event data w. split; [|split].
  - destruct (emit_spec event data w) as [H1 [H2 _]]. split; assumption.
  - intros parsed. apply on_message_returns.
  - intros frames. apply deliver_frames_spec.
Qed.

End Dispatch.

(** ** The streaming transport: subscriptions *)

Section Subscriptions.

Context {U : Type}.
Variable run : HandlerId -> json -> U -> U * option exn.

Lemma set_subscriptions_same c : set_subscriptions (subscriptions c) c = c.
Proof. destruct c; reflexivity. Qed.

Lemma with_client_same (w : @World U) : with_client (fun c => c) w = w.
Proof. destruct w; reflexivity. Qed.

Lemma set_add_member c s : In c s -> set_add c s = s.
Proof.
  intros H. unfold set_add.
  replace (existsb (String.eqb c) s) with true; [reflexivity|].
  symmetry. apply existsb_exists. exists c. split; [assumption|apply String.eqb_refl].
Qed.



Lemma is_open_same (w w' : @World U) :
  same_transport w w' -> is_open w' = is_open w.
Proof.
  intros [A [B _]]. unfold is_open, readyState. now rewrite A, B.
Qed.

Lemma is_open_ws (w : @World U) :
  is_open w = true ->
  exists i, ws (client w) = Some i /\ nth_error (sockets w) i = Some OPEN.
Proof.
  unfold is_open, readyState. intros H.
  destruct (ws (client w)) as [i|]; [|discriminate].
  exists i. split; [reflexivity|].
  destruct (nth_error (sockets w) i) as [[]|]; try discriminate; reflexivity.
Qed.

(** [subscribe] on an open socket sends one frame on it and returns. *)
Lemma subscribe_open channel (w : @World U) i :
  channel <> EmptyString ->
  ws (client w) = Some i -> nth_error (sockets w) i = Some OPEN ->
  let w' := fst (subscribe run channel w) in
  snd (subscribe run channel w) = Ok tt /\
  wire w' = wire w ++ [(i, subscribe_message channel)] /\
  client w' = set_subscriptions (set_add channel (subscriptions (client w))) (client w) /\
  sockets w' = sockets w /\ timers w' = timers w.
Proof.
  intros Hne Hws Hst. unfold subscribe.
  destruct (String.eqb_spec channel EmptyString); [contradiction|].
  assert (Ho : is_open w = true) by (unfold is_open, readyState; now rewrite Hws, Hst).
  rewrite Ho. cbn [negb]. unfold bind, send. rewrite Ho, Hws. unfold update.
  match goal with |- context [emit run ?e ?d ?x] =>
    pose proof (emit_spec run e d x) as [E1 [_ [E2 [E3 [E4 E5]]]]];
    destruct (emit run e d x) as [w2 r2] end.
  cbn [fst snd] in *. subst r2. rewrite E2, E3, E4, E5. cbn. auto.
Qed.

Lemma subscribe_closed channel (w : @World U) :
  channel <> EmptyString -> is_open w = false ->
  subscribe run channel w =
  (with_client (fun c => set_subscriptions (set_add channel (subscriptions c)) c) w,
   Ok tt).
Proof.
  intros Hne Ho. unfold subscribe.
  destruct (String.eqb_spec channel EmptyString); [contradiction|].
  now rewrite Ho.
Qed.

(** Whatever the state, [subscribe] leaves the socket store and the timers
    alone and changes the set as [Set.add] does, or not at all when it
    throws on the empty channel. *)
Lemma subscribe_client channel (w : @World U) :
  client (fst (subscribe run channel w)) =
    set_subscriptions
      (if String.eqb channel EmptyString then subscriptions (client w)
       else set_add channel (subscriptions (client w))) (client w)
  /\ sockets (fst (subscribe run channel w)) = sockets w
  /\ timers (fst (subscribe run channel w)) = timers w.
Proof.
  destruct (String.eqb_spec channel EmptyString) as [E|E].
  - unfold subscribe. subst. cbn. now rewrite set_subscriptions_same.
  - destruct (is_open w) eqn:Ho.
    + destruct (is_open_ws w Ho) as [i [Hws Hst]].
      destruct (subscribe_open channel w i E Hws Hst) as [_ [_ [A [B C]]]]. auto.
    + rewrite subscribe_closed by assumption. cbn. auto.
Qed.

(** Replaying the members of the set changes neither the set nor the
    sockets. *)
Lemma forEach_subscribe_client :
  forall l (w : @World U),
    (forall c, In c l -> In c (subscriptions (client w))) ->
    client (fst (forEach l (fun channel => subscribe run channel) w)) = client w
    /\ sockets (fst (forEach l (fun channel => subscribe run channel) w)) = sockets w
    /\ timers (fst (forEach l (fun channel => subscribe run channel) w)) = timers w.
Proof.
  induction l as [|c l IH]; intros w Hin; [cbn; auto|].
  cbn [forEach]. unfold bind.
  pose proof (subscribe_client c w) as [A [B C]].
  assert (A' : client (fst (subscribe run c w)) = client w).
  { rewrite A. destruct (String.eqb c EmptyString).
    - apply set_subscriptions_same.
    - rewrite set_add_member by (apply Hin; now left).
      apply set_subscriptions_same. }
  destruct (subscribe run c w) as [w1 [[]|e]]; cbn [fst snd] in *.
  - destruct (IH w1) as [I1 [I2 I3]].
    + intros x Hx. rewrite A'. apply Hin. now right.
    + repeat split; congruence.
  - auto.
Qed.

Lemma forEach_subscribe_open :
  forall l (w : @World U) i,
    ws (client w) = Some i -> nth_error (sockets w) i = Some OPEN ->
    Forall (fun c => c <> EmptyString) l ->
    (forall c, In c l -> In c (subscriptions (client w))) ->
    snd (forEach l (fun channel => subscribe run channel) w) = Ok tt /\
    wire (fst (forEach l (fun channel => subscribe run channel) w)) =
      wire w ++ map (fun c => (i, subscribe_message c)) l.
Proof.
  induction l as [|c l IH]; intros w i Hws Hst Hne Hin.
  - cbn. now rewrite app_nil_r.
  - cbn [forEach]. unfold bind.
    inversion Hne as [|? ? Hc Hl]; subst.
    pose proof (subscribe_open c w i Hc Hws Hst) as S. cbn zeta in S.
    destruct (subscribe run c w) as [w1 r1]. cbn [fst snd] in S.
    destruct S as [S1 [S2 [S3 [S4 S5]]]]. subst r1.
    assert (Hcl : client w1 = client w).
    { rewrite S3, set_add_member by (apply Hin; now left).
      apply set_subscriptions_same. }
    destruct (IH w1 i) as [I1 I2]; try assumption.
    + now rewrite Hcl.
    + now rewrite S4.
    + intros x Hx. rewrite Hcl. apply Hin. now right.
    + split; [exact I1|]. rewrite I2, S2, <- app_assoc. reflexivity.
Qed.

Lemma emit_client event data (w : @World U) :
  client (fst (emit run event data w)) = client w.
Proof. apply emit_spec. Qed.

Lemma handleReconnect_subscriptions (w : @World U) :
  subscriptions (client (fst (handleReconnect run w))) = subscriptions (client w).
Proof.
  unfold handleReconnect.
  destruct (negb (reconnect (config (client w)))); [reflexivity|].
  destruct (maxReconnectAttempts (config (client w)) <=? reconnectAttempts (client w))%Z.
  - now rewrite emit_client.
  - unfold bind, update.
    match goal with |- context [emit run ?e ?d ?x] =>
      pose proof (emit_client e d x) as E; destruct (emit run e d x) as [w2 [[]|e2]] end;
    cbn [fst snd] in *; cbn; rewrite E; reflexivity.
Qed.

Lemma on_message_client parsed (w : @World U) :
  client (fst (on_message run parsed w)) = client w.
Proof.
  destruct parsed as [m|].
  - apply on_message_spec.
  - unfold on_message, try_catch, throw. apply emit_client.
Qed.

(** What each action does to the subscription set. *)
Lemma perform_subscriptions a (w : @World U) :
  subscriptions (client (fst (perform run a w))) =
  subscriptions_after a (subscriptions (client w)).
Proof.
  destruct a; cbn [perform subscriptions_after].
  - unfold connect. destruct (is_open w); [reflexivity|].
    destruct (isConnecting (client w)); reflexivity.
  - unfold disconnect, update. cbn. reflexivity.
  - pose proof (subscribe_client channel w) as [A _]. rewrite A.
    destruct (String.eqb channel EmptyString); reflexivity.
  - unfold unsubscribe. destruct (is_open w) eqn:Ho; cbn [negb]; [|reflexivity].
    destruct (is_open_ws w Ho) as [i [Hws _]].
    unfold bind, send, update. rewrite Ho, Hws. reflexivity.
  - reflexivity.
  - reflexivity.
  - unfold bind, update, on_open. cbn [fst snd].
    unfold bind, update.
    match goal with |- context [emit run ?e ?d ?x] =>
      pose proof (emit_client e d x) as E; destruct (emit run e d x) as [w2 [[]|e2]] end;
    cbn [fst snd] in *.
    + destruct (forEach_subscribe_client (subscriptions (client w2)) w2) as [A _];
        [auto|]. rewrite A, E. reflexivity.
    + rewrite E. reflexivity.
  - unfold bind. now rewrite on_message_client.
  - unfold bind, update, on_error. cbn [fst snd]. unfold bind, update.
    now rewrite emit_client.
  - unfold bind, update, on_close. cbn [fst snd]. unfold bind, update.
    match goal with |- context [emit run ?e ?d ?x] =>
      pose proof (emit_client e d x) as E; destruct (emit run e d x) as [w2 [[]|e2]] end;
    cbn [fst snd] in *.
    + rewrite handleReconnect_subscriptions, E. reflexivity.
    + rewrite E. reflexivity.
  - unfold bind, update. cbn [fst snd]. unfold connect.
    match goal with |- context [is_open ?x] => destruct (is_open x) end;
      [reflexivity|].
    cbn. destruct (isConnecting (client w)); reflexivity.
Qed.



Lemma nth_error_set_socket i r l x :
  nth_error l i = Some x -> nth_error (set_socket i r l) i = Some r.
Proof.
  intros H. unfold set_socket. rewrite H.
  assert (Hlen : (i < List.length l)%nat) by (apply nth_error_Some; congruence).
  rewrite nth_error_app2; rewrite firstn_length_le by lia; [|lia].
  now rewrite Nat.sub_diag.
Qed.



Lemma run_checked_reachable config u l :
  forall (w w' : @World U),
    reachable run config u w -> run_checked run l w = Some w' ->
    reachable run config u w'.
Proof.
  induction l as [|a l IH]; intros w w' Hr H; cbn in H.
  - inversion H; subst; assumption.
  - destruct (enabled a w) eqn:En; [|discriminate].
    eapply IH; [|exact H]. eapply reachable_step; [exact Hr|].
    split; [exact En|reflexivity].
Qed.

Lemma sent_on_app i (w : @World U) more :
  sent_on i
    {| client := client w; sockets := sockets w; wire := wire w ++ more;
       timers := timers w; calls := calls w; logged := logged w; user := user w |} =
  sent_on i w ++ map snd (filter (fun f => Nat.eqb (fst f) i) more).
Proof. unfold sent_on. cbn. now rewrite filter_app, map_app. Qed.

Lemma sent_on_wire i (w w' : @World U) :
  wire w' = wire w -> sent_on i w' = sent_on i w.
Proof. unfold sent_on. now intros ->. Qed.


(** The frame of [subscribe], field by field. *)
Lemma subscribe_message_fields channel :
  subscribe_message channel
  = JObj [("type", JStr "subscribe"); ("channel", JStr channel)].
Proof. reflexivity. Qed.




End Subscriptions.


(** ** Key resolution *)

Lemma check32_Some b b' :
  check32 b = Some b' <-> b' = b /\ List.length b = 32%nat.
Proof.
  unfold check32. destruct (Nat.eqb_spec (List.length b) 32); split.
  - intros H. inversion H; subst. auto.
  - intros [-> _]. reflexivity.
  - discriminate.
  - intros [_ H]. contradiction.
Qed.

Lemma try_hex_Some cleanKey b :
  try_hex cleanKey = Some b ->
  (String.length cleanKey = 128%nat
   \/ (startsWith cleanKey "0x" = true /\ String.length cleanKey = 130%nat))
  /\ b = hex_decode (if startsWith cleanKey "0x" then drop 2 cleanKey else cleanKey)
  /\ List.length b = 32%nat.
Proof.
  unfold try_hex.
  destruct (Nat.eqb_spec (String.length cleanKey) 128) as [E|E]; cbn [orb].
  - destruct (Nat.eqb_spec (List.length (hex_decode
        (if startsWith cleanKey "0x" then drop 2 cleanKey else cleanKey))) 32);
      [|discriminate].
    intros H. inversion H. auto.
  - destruct (startsWith cleanKey "0x") eqn:P; cbn [andb]; [|discriminate].
    destruct (Nat.eqb_spec (String.length cleanKey) 130) as [E'|E']; [|discriminate].
    destruct (Nat.eqb_spec (List.length (hex_decode (drop 2 cleanKey))) 32);
      [|discriminate].
    intros H. inversion H. auto.
Qed.

(** The base-58 attempt yields the leading 32 bytes of every decode that has
    at least 32 bytes. *)
Lemma try_base58_Some cleanKey b :
  try_base58 cleanKey = Some b <->
  base58Regex_test cleanKey = true /\
  exists decoded,
    bs58_decode cleanKey = Some decoded /\
    (32 <= List.length decoded)%nat /\ b = firstn 32 decoded.
Proof.
  unfold try_base58. destruct (base58Regex_test cleanKey).
  2:{ split; [discriminate|]. intros [H _]. discriminate. }
  destruct (bs58_decode cleanKey) as [decoded|].
  2:{ split; [discriminate|]. intros [_ [d [H _]]]. discriminate. }
  assert (F : (32 <= List.length decoded)%nat ->
              check32 (firstn 32 decoded) = Some (firstn 32 decoded)).
  { intros H. apply check32_Some. split; [reflexivity|].
    now apply firstn_length_le. }
  destruct (Nat.eqb_spec (List.length decoded) 64) as [E64|E64].
  { rewrite F by lia. split.
    - intros H. inversion H. split; [reflexivity|]. exists decoded.
      repeat split; auto. lia.
    - intros [_ [d [Hd [_ ->]]]]. inversion Hd. reflexivity. }
  destruct (Nat.eqb_spec (List.length decoded) 32) as [E32|E32].
  { assert (A : firstn 32 decoded = decoded) by (rewrite <- E32; apply firstn_all).
    split.
    - intros H. apply check32_Some in H. destruct H as [-> _].
      split; [reflexivity|]. exists decoded. repeat split; [lia|now rewrite A].
    - intros [_ [d [Hd [_ ->]]]]. inversion Hd; subst d.
      rewrite A. apply check32_Some. auto. }
  destruct (Nat.ltb_spec 32 (List.length decoded)) as [L|L].
  { rewrite F by lia. split.
    - intros H. inversion H. split; [reflexivity|]. exists decoded.
      repeat split; auto. lia.
    - intros [_ [d [Hd [_ ->]]]]. inversion Hd. reflexivity. }
  split; [discriminate|]. intros [_ [d [Hd [Hl _]]]]. inversion Hd; subst. lia.
Qed.

Lemma try_base64_Some cleanKey b :
  try_base64 cleanKey = Some b <->
  b = base64_decode cleanKey /\ List.length (base64_decode cleanKey) = 32%nat.
Proof. unfold try_base64. apply check32_Some. Qed.

(** C3, as the code has it.  The trimmed string is tried as hexadecimal,
    then as base 58, then as base 64.  (1) When the hexadecimal attempt
    yields a secret, that secret gives the keypair, whatever the other
    readings of the string are; it is the hexadecimal decode of the text and
    has 32 bytes.  (2) Otherwise, when the string is in the base-58 alphabet
    and its base-58 decode has 32 bytes or more, the leading 32 bytes of
    that decode give the keypair, whatever its base-64 reading is.
    (3) Otherwise the base-64 decode gives the keypair when it has exactly
    32 bytes, and the call fails with the invalid-format error when it has
    not.  (4) A resolved secret always has 32 bytes, and the public key is
    the one of that secret. *)
Theorem C3_key_resolution_order :
  forall (E : Ed25519) (s : string),
    let cleanKey := trim s in
    (forall b,
        try_hex cleanKey = Some b ->
        generateKeypair (KeyString s) = Ok (keypair_of b)
        /\ b = hex_decode
                 (if startsWith cleanKey "0x" then drop 2 cleanKey else cleanKey)
        /\ List.length b = 32%nat)
    /\ (try_hex cleanKey = None ->
        forall decoded,
          base58Regex_test cleanKey = true ->
          bs58_decode cleanKey = Some decoded ->
          (32 <= List.length decoded)%nat ->
          generateKeypair (KeyString s) = Ok (keypair_of (firstn 32 decoded)))
    /\ (try_hex cleanKey = None ->
        (forall decoded,
            base58Regex_test cleanKey = true ->
            bs58_decode cleanKey = Some decoded ->
            (List.length decoded < 32)%nat) ->
        (List.length (base64_decode cleanKey) = 32%nat ->
         generateKeypair (KeyString s) = Ok (keypair_of (base64_decode cleanKey)))
        /\ (List.length (base64_decode cleanKey) <> 32%nat ->
            generateKeypair (KeyString s) = Err InvalidKeyFormat))
    /\ (forall kp, generateKeypair (KeyString s) = Ok kp ->
          List.length (privateKey kp) = 32%nat /\
          publicKey kp = getPublicKey (privateKey kp)).
Proof.
  intros E s cleanKey. unfold generateKeypair. fold cleanKey.
  split; [|split; [|split]].
  - intros b Hb. rewrite Hb. split; [reflexivity|].
    now apply try_hex_Some in Hb.
  - intros Hh decoded Hr Hd Hl. rewrite Hh.
    assert (H58 : try_base58 cleanKey = Some (firstn 32 decoded)).
    { apply try_base58_Some. split; [exact Hr|]. exists decoded. auto. }
    now rewrite H58.
  - intros Hh Hshort. rewrite Hh.
    assert (H58 : try_base58 cleanKey = None).
    { destruct (try_base58 cleanKey) as [b|] eqn:T; [|reflexivity].
      apply try_base58_Some in T. destruct T as [Hr [decoded [Hd [Hl _]]]].
      specialize (Hshort decoded Hr Hd). lia. }
    rewrite H58. unfold try_base64, check32. split.
    + intros H64. rewrite H64. reflexivity.
    + intros H64.
      destruct (Nat.eqb_spec (List.length (base64_decode cleanKey)) 32);
        [contradiction|reflexivity].
  - intros kp.
    destruct (try_hex cleanKey) as [b|] eqn:H1.
    { intros H. inversion H. cbn. split; [|reflexivity].
      now apply try_hex_Some in H1. }
    destruct (try_base58 cleanKey) as [b|] eqn:H2.
    { intros H. inversion H. cbn. split; [|reflexivity].
      apply try_base58_Some in H2. destruct H2 as [_ [d [_ [Hl ->]]]].
      now apply firstn_length_le. }
    destruct (try_base64 cleanKey) as [b|] eqn:H3; [|discriminate].
    intros H. inversion H. cbn. split; [|reflexivity].
    apply try_base64_Some in H3. destruct H3 as [-> H3]. exact H3.
Qed.

(** C3 on a string that reads in two encodings: forty-three ['1'] decode in
    base 58 to 43 zero bytes and in base 64 to 32 bytes that are not zero.
    The base-58 reading comes first, and its leading 32 bytes are the
    secret. *)
Lemma C3_key_resolution_order_witness :
  @generateKeypair toy_Ed25519 (KeyString (repeat_string "1" 43))
  = Ok (@keypair_of toy_Ed25519 (repeat x00 32))
  /\ List.length (base64_decode (repeat_string "1" 43)) = 32%nat
  /\ base64_decode (repeat_string "1" 43) <> repeat x00 32.
Proof.
  split; [|split].
  - refine (proj1 (proj2 (C3_key_resolution_order toy_Ed25519 (repeat_string "1" 43)))
              _ (repeat x00 43) _ _ _).
    + vm_compute. reflexivity.
    + vm_compute. reflexivity.
    + vm_compute. reflexivity.
    + cbn. lia.
  - vm_compute. reflexivity.
  - vm_compute. discriminate.
Defined.

(** C3 as stated fails: thirty-three ['1'] decode in base 58 to 33 zero
    bytes, which is neither 32 nor 64 bytes, and no other reading of the
    string gives 32 bytes, yet the key is resolved, from the leading 32
    bytes of that decode. *)
Lemma C3_base58_decode_of_33_bytes_accepted :
  let s := repeat_string "1" 33 in
  bs58_decode (trim s) = Some (repeat x00 33)
  /\ try_hex (trim s) = None
  /\ try_base64 (trim s) = None
  /\ @generateKeypair toy_Ed25519 (KeyString s)
     = Ok {| publicKey := repeat x00 32; privateKey := repeat x00 32 |}.
Proof. vm_compute. repeat split; reflexivity. Qed.

(** C4: the 64-character hexadecimal form of a secret is not resolved.  For
    the secret of 32 zero bytes, the key of the repository's own test, the
    hexadecimal text is rejected with the invalid-format error, while its
    base-64 text resolves to the secret; for the secret of 32 bytes [0x11]
    the hexadecimal text is read as base 58 and resolves to 32 zero bytes. *)
Theorem C4_hex64_key_not_resolved :
  forall E : Ed25519,
    generateKeypair (KeyString (repeat_string "0" 64)) = Err InvalidKeyFormat
    /\ generateKeypair (KeyString "AAAAAAAAAAAAAAAAAAAAAAAAAAAAAAAAAAAAAAAAAAA=")
       = Ok (keypair_of (repeat x00 32))
    /\ generateKeypair (KeyString (repeat_string "1" 64))
       = Ok (keypair_of (repeat x00 32))
    /\ hex_decode (repeat_string "1" 64) = repeat x11 32.
Proof.
  intros E. unfold generateKeypair. repeat split; vm_compute; reflexivity.
Qed.

(** ** Signing and verifying *)

Lemma string_length_app s1 s2 :
  String.length (s1 ++ s2) = (String.length s1 + String.length s2)%nat.
Proof. induction s1 as [|c s1 IH]; cbn; auto. Qed.

Lemma string_of_list_ascii_length l :
  String.length (string_of_list_ascii l) = List.length l.
Proof. induction l as [|c l IH]; cbn; auto. Qed.

Lemma repeat_string_length c n : String.length (repeat_string c n) = n.
Proof. induction n as [|n IH]; cbn; auto. Qed.

Lemma to_digits_length base :
  forall fuel n acc,
    (List.length (to_digits base fuel n acc) <= fuel + List.length acc)%nat.
Proof.
  induction fuel as [|fuel IH]; intros n acc; cbn; [lia|].
  destruct (n =? 0)%N; [lia|].
  specialize (IH (n / base)%N ((n mod base)%N :: acc)). cbn in IH. lia.
Qed.

Lemma leading_zero_bytes_le bs : (leading_zero_bytes bs <= List.length bs)%nat.
Proof.
  induction bs as [|b bs IH]; cbn; [lia|]. destruct (Byte.eqb b x00); lia.
Qed.

(** The base-58 text of [n] bytes has at most [n * 138 / 100 + 1]
    characters: 89 for a signature of 64 bytes. *)
Lemma bs58_encode_length bs :
  (String.length (bs58_encode bs) <= List.length bs * 138 / 100 + 1)%nat.
Proof.
  unfold bs58_encode.
  rewrite string_length_app, repeat_string_length, string_of_list_ascii_length,
    length_map.
  pose proof (leading_zero_bytes_le bs) as Hz.
  set (z := leading_zero_bytes bs) in *.
  pose proof (to_digits_length 58
                (List.length (skipn z bs) * 138 / 100 + 1)
                (be_value (skipn z bs)) []) as Hd.
  cbn [List.length] in Hd. rewrite length_skipn in *.
  set (n := List.length bs) in *.
  assert (K : ((n - z) * 138 / 100 + z <= n * 138 / 100)%nat).
  { replace (n * 138)%nat with ((n - z) * 138 + z * 138)%nat by lia.
    transitivity (((n - z) * 138 + z * 100) / 100)%nat.
    - rewrite Nat.div_add by lia. lia.
    - apply Nat.Div0.div_le_mono. lia. }
  lia.
Qed.

Lemma hex_decode_length :
  forall n s, (String.length s <= n)%nat ->
              (2 * List.length (hex_decode s) <= String.length s)%nat.
Proof.
  induction n as [|n IH]; intros s Hs.
  - destruct s; cbn in *; lia.
  - destruct s as [|a [|b r]]; cbn [hex_decode]; cbn [String.length List.length]; try lia.
    destruct (unhex a); [|cbn; lia]. destruct (unhex b); [|cbn; lia].
    cbn [List.length]. specialize (IH r). cbn in Hs.
    assert (String.length r <= n)%nat by lia. specialize (IH H). lia.
Qed.

(** A signature printed by [signMessage] and read back by [verifySignature]
    has fewer than 64 bytes. *)
Lemma signature_read_back_short bs :
  List.length bs = 64%nat ->
  (List.length (hex_decode (bs58_encode bs)) < 64)%nat.
Proof.
  intros H. pose proof (bs58_encode_length bs) as L. rewrite H in L.
  pose proof (hex_decode_length _ (bs58_encode bs) (Nat.le_refl _)) as D.
  change (64 * 138 / 100 + 1)%nat with 89%nat in L. lia.
Qed.

(** C5: whenever the primitives give signatures of 64 bytes and accept no
    signature of another length, verifying the signature that [signMessage]
    returned for a message answers [false], whatever the message, the key
    and the public key given: the signature is written in base 58 and read
    back as hexadecimal. *)
Theorem C5_sign_then_verify_is_false :
  forall (E : Ed25519),
    (forall message sk, List.length (sign message sk) = 64%nat) ->
    (forall sig message pk,
        List.length sig <> 64%nat -> verify sig message pk <> Some true) ->
    forall (message : string) (privateKey : list byte) (publicKeyHex : string),
      verifySignature message (signMessage message privateKey) publicKeyHex = false.
Proof.
  intros E Hlen Hrej message sk pk. unfold verifySignature, signMessage.
  pose proof (signature_read_back_short _ (Hlen (utf8_encode message) sk)) as Hs.
  match goal with |- match verify ?s ?m ?p with _ => _ end = _ =>
    specialize (Hrej s m p); destruct (verify s m p) as [[|]|] end;
    try reflexivity.
  exfalso. apply Hrej; [lia|reflexivity].
Qed.

(** C5 on the message and the key of the repository's test
    ['should sign and verify a message'], with the stand-in primitives. *)
Lemma C5_sign_then_verify_is_false_witness :
  @verifySignature toy_Ed25519 "test message"
    (@signMessage toy_Ed25519 "test message" (repeat x00 32))
    (publicKeyToHex (repeat x00 32)) = false.
Proof.
  apply (C5_sign_then_verify_is_false toy_Ed25519).
  - intros message sk.
    change (List.length (toy_sign message sk) = 64%nat). unfold toy_sign.
    rewrite length_firstn, !length_app, repeat_length. lia.
  - intros sig message pk H.
    change ((if (List.length sig =? 64)%nat
             then Some (bytes_eqb sig (toy_sign message pk)) else None) <> Some true).
    destruct (Nat.eqb_spec (List.length sig) 64); [contradiction|discriminate].
Defined.

(** ** JSON texts *)

Lemma string_app_assoc (a b c : string) : ((a ++ b) ++ c = a ++ (b ++ c))%string.
Proof. induction a as [|x a IH]; cbn; [reflexivity|now rewrite IH]. Qed.

Lemma string_app_nil_r (a : string) : (a ++ "")%string = a.
Proof. induction a as [|x a IH]; cbn; [reflexivity|now rewrite IH]. Qed.

(** Induction on JSON values through their arrays and objects. *)
Lemma json_induction (P : json -> Prop) :
  P JNull ->
  (forall b, P (JBool b)) ->
  (forall z, P (JNum z)) ->
  (forall s, P (JStr s)) ->
  (forall items, Forall P items -> P (JArr items)) ->
  (forall ps, Forall (fun kv => P (snd kv)) ps -> P (JObj ps)) ->
  forall v, P v.
Proof.
  intros Hnull Hbool Hnum Hstr Harr Hobj.
  fix IH 1. intros [ | b | z | s | items | ps].
  - exact Hnull.
  - apply Hbool.
  - apply Hnum.
  - apply Hstr.
  - apply Harr. induction items as [|x xs IHxs]; constructor; [apply IH|exact IHxs].
  - apply Hobj. induction ps as [|[k x] xs IHxs]; constructor; [apply IH|exact IHxs].
Qed.

Lemma write_JArr items k :
  write (JArr items) k = write_seq write "[" "]" items k.
Proof.
  destruct items as [|x r]; [reflexivity|].
  cbn [write write_seq]. do 2 f_equal.
  induction r as [|y r IH]; [reflexivity|].
  cbn [write_rest]. rewrite <- IH. reflexivity.
Qed.

Lemma write_JObj ps k :
  write (JObj ps) k = write_seq (write_member write) "{" "}" ps k.
Proof.
  destruct ps as [|x r]; [reflexivity|].
  cbn [write write_seq]. unfold write_member at 1. do 4 f_equal.
  induction r as [|y r IH]; [reflexivity|].
  cbn [write_rest]. unfold write_member at 1. rewrite <- IH. reflexivity.
Qed.

Lemma escape_char_app c k1 k2 :
  escape_char c (k1 ++ k2)%string = (escape_char c k1 ++ k2)%string.
Proof.
  unfold escape_char.
  repeat match goal with |- context [if ?b then _ else _] => destruct b end;
    reflexivity.
Qed.

Lemma escape_string_app s k1 k2 :
  escape_string s (k1 ++ k2)%string = (escape_string s k1 ++ k2)%string.
Proof.
  induction s as [|c s IH]; cbn; [reflexivity|].
  now rewrite IH, escape_char_app.
Qed.

Lemma write_string_app s k1 k2 :
  write_string s (k1 ++ k2)%string = (write_string s k1 ++ k2)%string.
Proof.
  unfold write_string. cbn. f_equal.
  change (String quote_char (k1 ++ k2)%string) with (String quote_char k1 ++ k2)%string.
  apply escape_string_app.
Qed.

Lemma write_rest_app {A : Type} (f : A -> string -> string) close l k1 k2 :
  Forall (fun x => forall a b, f x (a ++ b)%string = (f x a ++ b)%string) l ->
  write_rest f close l (k1 ++ k2)%string = (write_rest f close l k1 ++ k2)%string.
Proof.
  induction 1 as [|x l Hx Hl IH]; cbn; [reflexivity|].
  now rewrite IH, Hx.
Qed.

Lemma write_seq_app {A : Type} (f : A -> string -> string) open close l k1 k2 :
  Forall (fun x => forall a b, f x (a ++ b)%string = (f x a ++ b)%string) l ->
  write_seq f open close l (k1 ++ k2)%string = (write_seq f open close l k1 ++ k2)%string.
Proof.
  intros H. destruct l as [|x l]; [reflexivity|].
  inversion H as [|? ? Hx Hl]; subst. cbn.
  now rewrite write_rest_app, Hx.
Qed.

(** The text of a value does not depend on what follows it. *)
Lemma write_app v :
  forall k1 k2, write v (k1 ++ k2)%string = (write v k1 ++ k2)%string.
Proof.
  induction v as [ | b | z | s | items IH | ps IH] using json_induction;
    intros k1 k2.
  - reflexivity.
  - destruct b; reflexivity.
  - unfold write, write_number. now rewrite string_app_assoc.
  - apply write_string_app.
  - rewrite !write_JArr. now apply write_seq_app.
  - rewrite !write_JObj. apply write_seq_app.
    eapply Forall_impl; [|exact IH]. intros [key x] Hx a b. unfold write_member.
    cbn [fst snd] in *.
    change (String ":" (write x (a ++ b)%string)) with (":" ++ write x (a ++ b)%string)%string.
    rewrite Hx.
    change (":" ++ (write x a ++ b))%string with ((":" ++ write x a) ++ b)%string.
    apply write_string_app.
Qed.

Lemma write_stringify v k : write v k = (JSON_stringify v ++ k)%string.
Proof. unfold JSON_stringify. now rewrite <- write_app. Qed.

(** ** Objects *)

Lemma obj_get_app k a b :
  obj_get k (a ++ b) =
  match obj_get k a with Some v => Some v | None => obj_get k b end.
Proof.
  induction a as [|[k' v'] a IH]; cbn; [reflexivity|].
  destruct (String.eqb k k'); [reflexivity|exact IH].
Qed.

Lemma obj_get_None k o : obj_get k o = None <-> ~ In k (map fst o).
Proof.
  induction o as [|[k' v'] o IH]; cbn; [tauto|].
  destruct (String.eqb_spec k k') as [->|N].
  - split; [discriminate|]. intros H. exfalso. apply H. now left.
  - rewrite IH. split; [intros H [E|I]; [congruence|contradiction] | tauto].
Qed.

Lemma obj_get_In k v o : obj_get k o = Some v -> In (k, v) o.
Proof.
  induction o as [|[k' v'] o IH]; cbn; [discriminate|].
  destruct (String.eqb_spec k k') as [->|N].
  - intros H. inversion H. now left.
  - intros H. right. now apply IH.
Qed.

Lemma obj_get_replace k k' v o :
  obj_get k (obj_replace k' v o) =
  if String.eqb k k'
  then match obj_get k' o with Some _ => Some v | None => None end
  else obj_get k o.
Proof.
  induction o as [|[k2 v2] o IH]; cbn.
  - destruct (String.eqb k k'); reflexivity.
  - destruct (String.eqb_spec k' k2) as [->|N]; cbn.
    + destruct (String.eqb k k2); reflexivity.
    + rewrite IH. destruct (String.eqb_spec k k') as [->|N'].
      * destruct (String.eqb_spec k' k2); [contradiction|reflexivity].
      * reflexivity.
Qed.

Lemma obj_get_insert_index k n k' v o :
  obj_get k' o = None ->
  obj_get k (obj_insert_index n k' v o) =
  if String.eqb k k' then Some v else obj_get k o.
Proof.
  induction o as [|[k2 v2] o IH]; cbn; [reflexivity|].
  destruct (String.eqb_spec k' k2) as [->|N]; [discriminate|]. intros H.
  destruct (array_index k2) as [n'|].
  - destruct (n <? n')%N; cbn.
    + destruct (String.eqb k k'); reflexivity.
    + rewrite IH by assumption.
      destruct (String.eqb_spec k k') as [->|N'].
      * destruct (String.eqb_spec k' k2); [contradiction|reflexivity].
      * reflexivity.
  - cbn. destruct (String.eqb k k'); reflexivity.
Qed.

(** Reading a property after an assignment. *)
Lemma obj_get_set k k' v o :
  obj_get k (obj_set k' v o) = if String.eqb k k' then Some v else obj_get k o.
Proof.
  unfold obj_set. destruct (obj_get k' o) as [old|] eqn:G.
  - rewrite obj_get_replace, G. reflexivity.
  - destruct (array_index k') as [n|].
    + now apply obj_get_insert_index.
    + rewrite obj_get_app. cbn.
      destruct (String.eqb_spec k k') as [->|N]; [now rewrite G|].
      destruct (obj_get k o); reflexivity.
Qed.

(** Reading a property of [{ ...o, ...src }]: the properties of [src] win,
    the later ones first. *)
Lemma obj_get_spread k src :
  forall o,
    obj_get k (obj_spread o src) =
    match obj_get k (List.rev src) with Some v => Some v | None => obj_get k o end.
Proof.
  unfold obj_spread. induction src as [|[k1 v1] src IH]; intros o; cbn;
    [reflexivity|].
  rewrite IH, obj_get_app, obj_get_set. cbn.
  destruct (obj_get k (List.rev src)); [reflexivity|].
  destruct (String.eqb k k1); reflexivity.
Qed.

Lemma obj_get_rev_None k o : obj_get k (List.rev o) = None <-> obj_get k o = None.
Proof.
  rewrite !obj_get_None, map_rev. split; intros H I; apply H.
  - now apply -> in_rev.
  - now apply in_rev.
Qed.

(** ** Signed requests *)

Lemma sortJsonKeys_JObj ps :
  sortJsonKeys (JObj ps) =
  JObj (fold_left
          (fun sorted key =>
             obj_assign key
               (match obj_get key (map (fun kv => (fst kv, sortJsonKeys (snd kv))) ps)
                with Some v => v | None => JNull end)
               sorted)
          (sort_keys (Object_keys ps)) []).
Proof. reflexivity. Qed.

(** The message that is signed, in canonical order: the payload is the value
    of [data]. *)
Lemma sorted_message operation now expiryWindow data :
  sortJsonKeys
    (messagePayload operation
       {| h_timestamp := now; h_expiry_window := expiryWindow |} data) =
  JObj ([("data", sortJsonKeys (JObj data))]
        ++ expiry_entry expiryWindow
        ++ [("timestamp", JNum now); ("type", JStr operation)]).
Proof.
  unfold messagePayload. rewrite sortJsonKeys_JObj.
  destruct expiryWindow as [e|]; reflexivity.
Qed.

Lemma write_quoted s k : write_string s k = (quoted s ++ k)%string.
Proof.
  unfold quoted. rewrite <- write_string_app. reflexivity.
Qed.

(** The text that is signed. *)
Lemma signed_text operation now expiryWindow data :
  createCompactJson
    (messagePayload operation
       {| h_timestamp := now; h_expiry_window := expiryWindow |} data) =
  ("{" ++ quoted "data" ++ ":" ++ createCompactJson (JObj data)
   ++ match expiryWindow with
      | Some e => "," ++ quoted "expiry_window" ++ ":" ++ JSON_stringify (JNum e)
      | None => ""
      end
   ++ "," ++ quoted "timestamp" ++ ":" ++ JSON_stringify (JNum now)
   ++ "," ++ quoted "type" ++ ":" ++ JSON_stringify (JStr operation) ++ "}")%string.
Proof.
  unfold createCompactJson at 1. rewrite sorted_message.
  unfold JSON_stringify at 1. rewrite write_JObj.
  destruct expiryWindow as [e|]; cbn [expiry_entry List.app write_seq write_rest];
    unfold write_member; cbn [fst snd];
    repeat first [rewrite write_quoted | rewrite (write_stringify (sortJsonKeys _))
                 | rewrite (write_stringify (JNum _))
                 | rewrite (write_stringify (JStr _)) ];
    unfold createCompactJson; cbn [append];
    rewrite ?string_app_assoc; reflexivity.
Qed.

Lemma buildSignedRequest_spec `{Ed25519} now operation data key
    accountPublicKey expiryWindow r :
  buildSignedRequest now operation data key accountPublicKey expiryWindow = Ok r ->
  exists keypair,
    generateKeypair key = Ok keypair /\
    signature r =
      signMessage
        (createCompactJson
           (messagePayload operation
              {| h_timestamp := now; h_expiry_window := expiryWindow |} data))
        (privateKey keypair) /\
    timestamp r = now /\ expiry_window r = expiryWindow.
Proof.
  unfold buildSignedRequest.
  destruct (generateKeypair key) as [[pk sk]|e]; [|discriminate].
  intros H0. inversion H0. exists {| publicKey := pk; privateKey := sk |}.
  cbn. repeat split; reflexivity.
Qed.

(** The body that [makeSignedRequest] posts: the four fields of the
    envelope, then the fields of the payload spread over them; its signature
    is the signature of the canonical text of the nested message. *)
Lemma signed_request_body_spec `{Ed25519} `{SolanaCli} self now operation data
    options requestBody :
  signed_request_body self now operation data options = Ok requestBody ->
  exists account sig,
    requestBody =
      obj_spread (obj_literal (envelope account sig now (defaultExpiryWindow self)))
        data /\
    signed_by self options
      (createCompactJson
         (messagePayload operation
            {| h_timestamp := now;
               h_expiry_window := Some (defaultExpiryWindow self) |} data))
      sig.
Proof.
  unfold signed_request_body, signed_by.
  destruct (match truthy_string (this_accountPublicKey self) with
            | Some a => Ok a
            | None =>
                match generateKeypair (this_privateKey self) with
                | Ok keypair => Ok (publicKeyToHex (publicKey keypair))
                | Err e => Err e
                end
            end) as [accountPublicKey|e]; [|discriminate].
  assert (K : match buildSignedRequest now operation data (this_privateKey self)
                      (Some accountPublicKey) (Some (defaultExpiryWindow self)) with
              | Ok signedRequest =>
                  Ok (obj_spread
                        (obj_literal
                           ([("account", JStr (account signedRequest));
                             ("signature", JStr (signature signedRequest));
                             ("timestamp", JNum (timestamp signedRequest))]
                            ++ expiry_entry (expiry_window signedRequest)))
                        data)
              | Err e => Err e
              end = Ok requestBody ->
              exists account sig,
                requestBody =
                  obj_spread
                    (obj_literal (envelope account sig now (defaultExpiryWindow self)))
                    data /\
                ((exists path,
                     truthy_string (config_field options hardware_wallet_path)
                       = Some path /\
                     sign_offchain_message path
                       (createCompactJson
                          (messagePayload operation
                             {| h_timestamp := now;
                                h_expiry_window := Some (defaultExpiryWindow self) |}
                             data)) = Some sig)
                 \/ (exists keypair,
                       generateKeypair (this_privateKey self) = Ok keypair /\
                       sig =
                         signMessage
                           (createCompactJson
                              (messagePayload operation
                                 {| h_timestamp := now;
                                    h_expiry_window := Some (defaultExpiryWindow self) |}
                                 data))
                           (privateKey keypair)))).
  { destruct (buildSignedRequest now operation data (this_privateKey self)
                (Some accountPublicKey) (Some (defaultExpiryWindow self)))
      as [r|e] eqn:B; [|discriminate].
    destruct (buildSignedRequest_spec _ _ _ _ _ _ _ B)
      as [keypair [G [Hsig [Hts Hew]]]].
    intros H1. injection H1 as <-. rewrite Hts, Hew.
    exists (account r), (signature r). split; [reflexivity|].
    right. exists keypair. split; [exact G|exact Hsig]. }
  destruct (truthy_string (config_field options hardware_wallet_path)) as [path|];
    [|exact K].
  destruct (truthy_string (Some accountPublicKey)) as [a|]; [|exact K].
  unfold buildSignedRequestWithHardwareWallet, createSignatureHeader.
  destruct (sign_offchain_message path _) as [sig|] eqn:Hs; [|discriminate].
  intros H1. injection H1 as <-.
  exists (if startsWith accountPublicKey "0x"
          then drop 2 accountPublicKey else accountPublicKey), sig.
  split; [reflexivity|]. left. exists path. split; [reflexivity|exact Hs].
Qed.

Lemma request_loop_requests c req fetch :
  forall fuel attempt lastError lastStatus r,
    In (Fetch r) (fst (request_loop c req fetch fuel attempt lastError lastStatus)) ->
    r = req.
Proof.
  induction fuel as [|fuel IH]; intros attempt lastError lastStatus r; cbn [request_loop].
  - intros [].
  - assert (Hpre : In (Fetch r)
                     (if (0 <? attempt)%Z
                      then [Sleep (backoff c (attempt - 1)); Fetch req]
                      else [Fetch req]) -> r = req).
    { destruct (0 <? attempt)%Z; cbn; intros [E|[E|[]]] || intros [E|[]];
        congruence. }
    assert (Hcatch : forall e ls,
              In (Fetch r)
                (fst (match on_catch c attempt e ls with
                      | (sleeps, Some thrown) =>
                          ((if (0 <? attempt)%Z
                            then [Sleep (backoff c (attempt - 1)); Fetch req]
                            else [Fetch req]) ++ sleeps, Err thrown)
                      | (sleeps, None) =>
                          let (trace, res) :=
                            request_loop c req fetch fuel (attempt + 1) (Some e) ls in
                          ((if (0 <? attempt)%Z
                            then [Sleep (backoff c (attempt - 1)); Fetch req]
                            else [Fetch req]) ++ sleeps ++ trace, res)
                      end)) -> r = req).
    { intros e ls.
      assert (Hs : ~ In (Fetch r) (fst (on_catch c attempt e ls))).
      { unfold on_catch.
        destruct e; cbn;
          repeat match goal with
                 | |- context [if ?b then _ else _] => destruct b; cbn
                 | |- context [match ?x with _ => _ end] => destruct x; cbn
                 end; intuition discriminate. }
      destruct (on_catch c attempt e ls) as [sleeps [thrown|]]; cbn [fst] in *.
      - rewrite in_app_iff. intros [I|I]; [auto|contradiction].
      - specialize (IH (attempt + 1)%Z (Some e) ls r).
        destruct (request_loop c req fetch fuel (attempt + 1) (Some e) ls)
          as [trace res].
        cbn [fst] in *. rewrite !in_app_iff. intros [I|[I|I]]; auto. contradiction. }
    destruct (fetch attempt) as [resp|e]; [|apply Hcatch].
    destruct (after_response c attempt resp) as [d|e]; [exact Hpre|apply Hcatch].
Qed.

(** With a retry count that is not negative, the first thing that a request
    does is its call of [fetch]. *)
Lemma run_request_head c req fetch :
  (0 <= retryAttempts c)%Z ->
  exists rest, fst (run_request c req fetch) = Fetch req :: rest.
Proof.
  intros H. unfold run_request.
  replace (Z.to_nat (retryAttempts c + 1)) with (S (Z.to_nat (retryAttempts c)))
    by lia.
  cbn [request_loop]. change (0 <? 0)%Z with false. cbn iota.
  destruct (fetch 0%Z) as [r|e].
  - destruct (after_response c 0 r) as [d|e]; [eexists; reflexivity|].
    destruct (on_catch c 0 e (Some (status r))) as [sleeps [thrown|]];
      [eexists; reflexivity|].
    destruct (request_loop c req fetch _ _ _ _) as [trace res].
    eexists. reflexivity.
  - destruct (on_catch c 0 e None) as [sleeps [thrown|]]; [eexists; reflexivity|].
    destruct (request_loop c req fetch _ _ _ _) as [trace res].
    eexists. reflexivity.
Qed.

(** What [makeSignedRequest] does with the body it has built: every call of
    [fetch] is the [POST] of the plain text of that body to the endpoint,
    and there is such a call when the retry count is not negative. *)
Lemma makeSignedRequest_posts `{Ed25519} `{SolanaCli} self now fetch endpoint
    operation data options requestBody :
  signed_request_body self now operation data options = Ok requestBody ->
  (forall req,
      In (Fetch req)
         (fst (makeSignedRequest self now fetch endpoint operation data options)) ->
      method req = "POST" /\ url req = (baseUrl (base self) ++ endpoint)%string
      /\ req_body req = Some (JSON_stringify (JObj requestBody)))
  /\ ((0 <= retryAttempts (base self))%Z ->
      exists req rest,
        fst (makeSignedRequest self now fetch endpoint operation data options)
        = Fetch req :: rest
        /\ method req = "POST" /\ url req = (baseUrl (base self) ++ endpoint)%string
        /\ req_body req = Some (JSON_stringify (JObj requestBody))).
Proof.
  intros Hb. unfold makeSignedRequest. rewrite Hb. unfold post. split.
  - intros req Hin. unfold run_request in Hin.
    apply request_loop_requests in Hin. subst req. repeat split.
  - intros Hr.
    match goal with |- context [run_request ?c ?r ?f] =>
      destruct (run_request_head c r f Hr) as [rest Hrest]; exists r, rest end.
    split; [exact Hrest|]. repeat split.
Qed.

(** A field of the body: the payload's value when the payload has the field,
    the value of the envelope otherwise. *)
Lemma body_field account sig now window data k :
  obj_get k
    (obj_spread
       (obj_literal
          [("account", JStr account); ("signature", JStr sig);
           ("timestamp", JNum now); ("expiry_window", JNum window)]) data)
  = match obj_get k (List.rev data) with
    | Some v => Some v
    | None =>
        obj_get k
          [("account", JStr account); ("signature", JStr sig);
           ("timestamp", JNum now); ("expiry_window", JNum window)]
    end.
Proof.
  rewrite obj_get_spread.
  destruct (obj_get k (List.rev data)); [reflexivity|].
  unfold obj_literal. rewrite obj_get_spread.
  cbn [List.rev List.app obj_get].
  repeat match goal with |- context [String.eqb k ?s] =>
           destruct (String.eqb_spec k s); [subst; reflexivity|] end.
  reflexivity.
Qed.

(** C1, as the code has it.  For a request that [makeSignedRequest] builds:
    (1) the text that is signed is the canonical text of the message that
    holds the payload under [data], next to [expiry_window], [timestamp] and
    [type]; (2) the body is the object [{account, signature, timestamp,
    expiry_window}] with the payload's fields spread over it at the top
    level, where [signature] is the signature of that text by the client's
    key or hardware wallet: every field of the payload is a field of the
    body, with the payload's value, and the fields that the payload does not
    have are those of the envelope, so that the signature of the body is the
    computed one when the payload has no field of that name; (3) every call
    of [fetch] posts the plain [JSON.stringify] of that body, and with a
    retry count that is not negative there is such a call; (4)
    [buildSignedRequest] signs the same nested message, with or without an
    expiry window. *)
Theorem C1_signed_nested_transmitted_flat :
  forall (E : Ed25519) (S : SolanaCli) (self : SignClient) (now : Z)
         (fetch : Z -> FetchResult) (endpoint operation : string) (data : props)
         (options : option RequestOptions) (requestBody : props),
    signed_request_body self now operation data options = Ok requestBody ->
    let window := defaultExpiryWindow self in
    let text :=
      createCompactJson
        (messagePayload operation
           {| h_timestamp := now; h_expiry_window := Some window |} data) in
    let trace :=
      fst (makeSignedRequest self now fetch endpoint operation data options) in
    text =
      ("{" ++ quoted "data" ++ ":" ++ createCompactJson (JObj data)
       ++ "," ++ quoted "expiry_window" ++ ":" ++ JSON_stringify (JNum window)
       ++ "," ++ quoted "timestamp" ++ ":" ++ JSON_stringify (JNum now)
       ++ "," ++ quoted "type" ++ ":" ++ JSON_stringify (JStr operation) ++ "}")%string
    /\ (exists account sig,
          signed_by self options text sig
          /\ requestBody =
             obj_spread
               (obj_literal
                  [("account", JStr account); ("signature", JStr sig);
                   ("timestamp", JNum now); ("expiry_window", JNum window)]) data
          /\ (obj_get "signature" data = None ->
              obj_get "signature" requestBody = Some (JStr sig))
          /\ (forall k v,
                 obj_get k (List.rev data) = Some v ->
                 obj_get k requestBody = Some v)
          /\ (forall k,
                 obj_get k data = None ->
                 obj_get k requestBody =
                 obj_get k
                   [("account", JStr account); ("signature", JStr sig);
                    ("timestamp", JNum now); ("expiry_window", JNum window)]))
    /\ (forall req,
          In (Fetch req) trace ->
          method req = "POST" /\ url req = (baseUrl (base self) ++ endpoint)%string
          /\ req_body req = Some (JSON_stringify (JObj requestBody)))
    /\ ((0 <= retryAttempts (base self))%Z ->
        exists req rest,
          trace = Fetch req :: rest
          /\ method req = "POST" /\ url req = (baseUrl (base self) ++ endpoint)%string
          /\ req_body req = Some (JSON_stringify (JObj requestBody)))
    /\ (forall key accountPublicKey expiryWindow r,
          buildSignedRequest now operation data key accountPublicKey expiryWindow
            = Ok r ->
          exists keypair,
            generateKeypair key = Ok keypair /\
            signature r =
              signMessage
                ("{" ++ quoted "data" ++ ":" ++ createCompactJson (JObj data)
                 ++ match expiryWindow with
                    | Some e =>
                        "," ++ quoted "expiry_window" ++ ":" ++ JSON_stringify (JNum e)
                    | None => ""
                    end
                 ++ "," ++ quoted "timestamp" ++ ":" ++ JSON_stringify (JNum now)
                 ++ "," ++ quoted "type" ++ ":" ++ JSON_stringify (JStr operation)
                 ++ "}")%string
                (privateKey keypair)).
Proof.
  intros E S self now fetch endpoint operation data options requestBody Hb window
    text trace.
  destruct (makeSignedRequest_posts self now fetch endpoint operation data options
              requestBody Hb) as [Hall Hfirst].
  split; [|split; [|split; [|split]]].
  - subst text. rewrite signed_text. reflexivity.
  - destruct (signed_request_body_spec _ _ _ _ _ _ Hb) as [account [sig [Hbody Hsig]]].
    exists account, sig. split; [exact Hsig|]. split; [exact Hbody|].
    unfold envelope in Hbody. fold window in Hbody.
    split; [|split].
    + intros Hk. rewrite Hbody, body_field.
      apply obj_get_rev_None in Hk. now rewrite Hk.
    + intros k v Hk. rewrite Hbody, body_field. now rewrite Hk.
    + intros k Hk. rewrite Hbody, body_field.
      apply obj_get_rev_None in Hk. now rewrite Hk.
  - exact Hall.
  - exact Hfirst.
  - intros key accountPublicKey expiryWindow r Hr.
    destruct (buildSignedRequest_spec _ _ _ _ _ _ _ Hr) as [keypair [G [Hsig _]]].
    exists keypair. split; [exact G|]. now rewrite <- signed_text.
Qed.

(** C1 on a cancel request of a client whose key is 32 zero bytes, with the
    stand-in primitives and a server that answers: the body is built, its
    signature is the signature of the nested text, its [symbol] is that of
    the payload, and the first event is the [POST] of the plain text of the
    body. *)
Lemma C1_signed_nested_transmitted_flat_witness :
  let self := new_SignClient None (KeyBytes (repeat x00 32)) None in
  let data := [("symbol", JStr "BTC"); ("order_id", JNum 42)] in
  let fetch := fun _ : Z =>
    Responds {| status := 200; retryAfterHeader := None; body := Some (JObj []) |} in
  exists requestBody,
    @signed_request_body toy_Ed25519 toy_SolanaCli self 1700000000000
      "cancel_order" data None = Ok requestBody
    /\ obj_get "signature" requestBody
       = Some (JStr (@signMessage toy_Ed25519
                       (createCompactJson
                          (messagePayload "cancel_order"
                             {| h_timestamp := 1700000000000;
                                h_expiry_window := Some 5000%Z |} data))
                       (repeat x00 32)))
    /\ obj_get "symbol" requestBody = Some (JStr "BTC")
    /\ exists req rest,
         fst (@makeSignedRequest toy_Ed25519 toy_SolanaCli self 1700000000000 fetch
                "/orders/cancel" "cancel_order" data None)
         = Fetch req :: rest
         /\ method req = "POST"
         /\ url req = "https://api.pacifica.fi/api/v1/orders/cancel"
         /\ req_body req = Some (JSON_stringify (JObj requestBody)).
Proof.
  intros self data fetch.
  destruct (@signed_request_body toy_Ed25519 toy_SolanaCli self
              1700000000000 "cancel_order" data None) as [body|e] eqn:Hb.
  - exists body. split; [reflexivity|].
    destruct (C1_signed_nested_transmitted_flat toy_Ed25519 toy_SolanaCli self
                1700000000000 fetch "/orders/cancel" "cancel_order" data None body Hb)
      as [_ [[account [sig [Hsig [_ [Hs [Hp _]]]]]] [_ [Hfirst _]]]].
    split; [|split].
    + rewrite (Hs eq_refl). destruct Hsig as [[path [Hpath _]]|[kp [Hk ->]]].
      * vm_compute in Hpath. discriminate Hpath.
      * vm_compute in Hk. inversion Hk. reflexivity.
    + apply Hp. reflexivity.
    + destruct Hfirst as [req [rest [H1 [H2 [H3 H4]]]]]; [vm_compute; discriminate|].
      exists req, rest. repeat split; assumption.
  - vm_compute in Hb. discriminate Hb.
Defined.

(** C1 as stated fails: a payload that has a field named [signature] takes
    the place of the computed signature in the body that is posted, so the
    signature in the request is not the signature of the nested text. *)
Lemma C1_payload_field_replaces_signature :
  let self := new_SignClient None (KeyBytes (repeat x00 32)) None in
  let data := [("order_id", JNum 42); ("signature", JStr "forged")] in
  let text :=
    createCompactJson
      (messagePayload "cancel_order"
         {| h_timestamp := 1700000000000; h_expiry_window := Some 5000%Z |} data) in
  let fetch := fun _ : Z =>
    Responds {| status := 200; retryAfterHeader := None; body := Some (JObj []) |} in
  exists requestBody,
    @signed_request_body toy_Ed25519 toy_SolanaCli self 1700000000000
      "cancel_order" data None = Ok requestBody
    /\ obj_get "signature" requestBody = Some (JStr "forged")
    /\ (forall sig,
          @signed_by toy_Ed25519 toy_SolanaCli self None text sig ->
          obj_get "signature" requestBody <> Some (JStr sig))
    /\ map (fun ev => match ev with Fetch req => req_body req | Sleep _ => None end)
         (fst (@makeSignedRequest toy_Ed25519 toy_SolanaCli self 1700000000000 fetch
                 "/orders/cancel" "cancel_order" data None))
       = [Some (JSON_stringify (JObj requestBody))].
Proof.
  intros self data text fetch. eexists. split; [vm_compute; reflexivity|].
  split; [vm_compute; reflexivity|]. split.
  - intros sig [[path [Hpath _]]|[kp [Hk ->]]].
    + vm_compute in Hpath. discriminate Hpath.
    + vm_compute in Hk. inversion Hk; subst kp. vm_compute. discriminate.
  - vm_compute. reflexivity.
Qed.

Lemma message_fields operation now window data :
  let message :=
    messagePayload operation
      {| h_timestamp := now; h_expiry_window := Some window |} data in
  message_field "type" message = Some (JStr operation) /\
  message_field "timestamp" message = Some (JNum now) /\
  message_field "expiry_window" message = Some (JNum window) /\
  message_field "data" message = Some (JObj data).
Proof. repeat split; reflexivity. Qed.

(** C10, as the code has it.  The expiry window of a client is the
    configured one, or 5000.  For every request that [makeSignedRequest]
    builds: (1) the body is the envelope with the payload spread over it,
    and the signature of the envelope is the signature of the canonical
    text of the message, a text that holds that expiry window under
    [expiry_window] and the clock value under [timestamp]; (2) the body
    always has a field [expiry_window] and a field [timestamp], and when
    the payload has no field of the name, the value in the body is the one
    of the signed text; (3) every call of [fetch] posts that body, and with
    a retry count that is not negative there is such a call. *)
Theorem C10_body_repeats_signed_header :
  forall (E : Ed25519) (S : SolanaCli) (env_BUILDER_CODE : option string)
         (key : PrivateKey) (config : option SignClientConfig) (now : Z)
         (fetch : Z -> FetchResult) (endpoint operation : string) (data : props)
         (options : option RequestOptions) (requestBody : props),
    let self := new_SignClient env_BUILDER_CODE key config in
    let window := defaultExpiryWindow self in
    let text :=
      createCompactJson
        (messagePayload operation
           {| h_timestamp := now; h_expiry_window := Some window |} data) in
    let trace :=
      fst (makeSignedRequest self now fetch endpoint operation data options) in
    signed_request_body self now operation data options = Ok requestBody ->
    window = match config_field config sc_expiryWindow with
             | Some w => w
             | None => 5000%Z
             end
    /\ (exists account sig,
          signed_by self options text sig
          /\ text =
             ("{" ++ quoted "data" ++ ":" ++ createCompactJson (JObj data)
              ++ "," ++ quoted "expiry_window" ++ ":" ++ JSON_stringify (JNum window)
              ++ "," ++ quoted "timestamp" ++ ":" ++ JSON_stringify (JNum now)
              ++ "," ++ quoted "type" ++ ":" ++ JSON_stringify (JStr operation)
              ++ "}")%string
          /\ requestBody =
             obj_spread
               (obj_literal
                  [("account", JStr account); ("signature", JStr sig);
                   ("timestamp", JNum now); ("expiry_window", JNum window)]) data
          /\ (obj_get "signature" data = None ->
              obj_get "signature" requestBody = Some (JStr sig)))
    /\ (exists v, obj_get "expiry_window" requestBody = Some v)
    /\ (exists v, obj_get "timestamp" requestBody = Some v)
    /\ (obj_get "expiry_window" data = None ->
        obj_get "expiry_window" requestBody = Some (JNum window))
    /\ (obj_get "timestamp" data = None ->
        obj_get "timestamp" requestBody = Some (JNum now))
    /\ (forall req,
          In (Fetch req) trace ->
          req_body req = Some (JSON_stringify (JObj requestBody)))
    /\ ((0 <= retryAttempts (base self))%Z ->
        exists req rest,
          trace = Fetch req :: rest
          /\ req_body req = Some (JSON_stringify (JObj requestBody))).
Proof.
  intros E S env key config now fetch endpoint operation data options requestBody
    self window text trace Hb.
  destruct (signed_request_body_spec _ _ _ _ _ _ Hb) as [account [sig [Hbody Hsig]]].
  unfold envelope in Hbody. fold window in Hbody.
  destruct (makeSignedRequest_posts self now fetch endpoint operation data options
              requestBody Hb) as [Hall Hfirst].
  assert (G : forall k, obj_get k data = None ->
                obj_get k requestBody =
                obj_get k
                  [("account", JStr account); ("signature", JStr sig);
                   ("timestamp", JNum now); ("expiry_window", JNum window)]).
  { intros k Hk. rewrite Hbody, body_field.
    apply obj_get_rev_None in Hk. now rewrite Hk. }
  split; [reflexivity|]. split; [|split; [|split; [|split; [|split; [|split]]]]].
  - exists account, sig. split; [exact Hsig|]. split.
    + subst text. rewrite signed_text. reflexivity.
    + split; [exact Hbody|]. intros Hk. now rewrite (G _ Hk).
  - rewrite Hbody, body_field.
    destruct (obj_get "expiry_window" (List.rev data)); eexists; reflexivity.
  - rewrite Hbody, body_field.
    destruct (obj_get "timestamp" (List.rev data)); eexists; reflexivity.
  - intros Hk. now rewrite (G _ Hk).
  - intros Hk. now rewrite (G _ Hk).
  - intros req Hin. now apply Hall.
  - intros Hr. destruct (Hfirst Hr) as [req [rest [H1 [_ [_ H4]]]]].
    exists req, rest. split; assumption.
Qed.

(** C10 on a cancel request of the default client, with the stand-in
    primitives and a server that answers: the body carries the expiry window
    5000 and the clock value, and it is what the first call posts. *)
Lemma C10_body_repeats_signed_header_witness :
  let fetch := fun _ : Z =>
    Responds {| status := 200; retryAfterHeader := None; body := Some (JObj []) |} in
  exists requestBody,
    @signed_request_body toy_Ed25519 toy_SolanaCli
      (new_SignClient None (KeyBytes (repeat x00 32)) None)
      1700000000000 "cancel_order" [("order_id", JNum 42)] None = Ok requestBody
    /\ obj_get "expiry_window" requestBody = Some (JNum 5000)
    /\ obj_get "timestamp" requestBody = Some (JNum 1700000000000)
    /\ exists req rest,
         fst (@makeSignedRequest toy_Ed25519 toy_SolanaCli
                (new_SignClient None (KeyBytes (repeat x00 32)) None)
                1700000000000 fetch "/orders/cancel" "cancel_order"
                [("order_id", JNum 42)] None)
         = Fetch req :: rest
         /\ req_body req = Some (JSON_stringify (JObj requestBody)).
Proof.
  intros fetch.
  destruct (@signed_request_body toy_Ed25519 toy_SolanaCli
              (new_SignClient None (KeyBytes (repeat x00 32)) None)
              1700000000000 "cancel_order" [("order_id", JNum 42)] None)
    as [body|e] eqn:Hb.
  - exists body. split; [reflexivity|].
    destruct (C10_body_repeats_signed_header toy_Ed25519 toy_SolanaCli None
                (KeyBytes (repeat x00 32)) None 1700000000000 fetch "/orders/cancel"
                "cancel_order" [("order_id", JNum 42)] None body Hb)
      as [_ [_ [_ [_ [He [Ht [_ Hfirst]]]]]]].
    split; [exact (He eq_refl)|]. split; [exact (Ht eq_refl)|].
    apply Hfirst. vm_compute. discriminate.
  - vm_compute in Hb. discriminate Hb.
Defined.

(** C10 as stated fails: a payload that has fields named [timestamp] and
    [expiry_window] overrides the two fields of the body, while the signed
    message keeps the clock value and the client's expiry window. *)
Lemma C10_payload_overrides_header_fields :
  let self := new_SignClient None (KeyBytes (repeat x00 32)) None in
  let data := [("timestamp", JNum 1); ("expiry_window", JNum 2)] in
  let message :=
    messagePayload "cancel_order"
      {| h_timestamp := 1700000000000; h_expiry_window := Some 5000%Z |} data in
  exists body,
    @signed_request_body toy_Ed25519 toy_SolanaCli self 1700000000000
      "cancel_order" data None = Ok body
    /\ obj_get "timestamp" body = Some (JNum 1)
    /\ obj_get "expiry_window" body = Some (JNum 2)
    /\ message_field "timestamp" message = Some (JNum 1700000000000)
    /\ message_field "expiry_window" message = Some (JNum 5000)
    /\ obj_get "signature" body
       = Some (JStr (@signMessage toy_Ed25519 (createCompactJson message)
                       (repeat x00 32))).
Proof.
  intros self data message. eexists. split; [vm_compute; reflexivity|].
  repeat split; vm_compute; reflexivity.
Qed.

(** ** Sorting keys *)

Lemma str_le_refl a : str_le a a.
Proof.
  destruct (String.leb_total a a); assumption.
Qed.

Lemma str_le_trans a : forall b c, str_le a b -> str_le b c -> str_le a c.
Proof.
  unfold str_le, String.leb.
  induction a as [|x a IH]; intros [|y b] [|z c]; cbn [String.compare];
    try discriminate; try reflexivity.
  unfold Ascii.compare.
  destruct (N.compare_spec (N_of_ascii x) (N_of_ascii y)) as [E1|L1|G1];
    try discriminate;
    destruct (N.compare_spec (N_of_ascii y) (N_of_ascii z)) as [E2|L2|G2];
    try discriminate;
    destruct (N.compare_spec (N_of_ascii x) (N_of_ascii z)) as [E3|L3|G3];
    try reflexivity; try lia.
  apply IH.
Qed.

Lemma str_le_antisym a b : str_le a b -> str_le b a -> a = b.
Proof. apply String.leb_antisym. Qed.

Lemma str_le_total a b : str_le a b \/ str_le b a.
Proof. apply String.leb_total. Qed.

Lemma str_le_neq_lt a b : str_le a b -> a <> b -> str_lt a b.
Proof.
  unfold str_le, str_lt, String.leb, String.ltb.
  destruct (String.compare a b) eqn:C; try discriminate; try reflexivity.
  intros _ N. apply String.compare_eq_iff in C. contradiction.
Qed.

Lemma insert_sorted_perm k l : Permutation (insert_sorted k l) (k :: l).
Proof.
  induction l as [|h t IH]; cbn; [reflexivity|].
  destruct (String.leb k h); [reflexivity|].
  rewrite IH. apply perm_swap.
Qed.

Lemma sort_keys_perm l : Permutation (sort_keys l) l.
Proof.
  induction l as [|k l IH]; cbn; [reflexivity|].
  rewrite insert_sorted_perm. now constructor.
Qed.

Lemma insert_sorted_sorted k l :
  StronglySorted str_le l -> StronglySorted str_le (insert_sorted k l).
Proof.
  induction 1 as [|h t Ht IH Hh]; cbn; [repeat constructor|].
  destruct (String.leb k h) eqn:E.
  - constructor; [now constructor|]. constructor; [exact E|].
    eapply Forall_impl; [|exact Hh]. intros x Hx. eapply str_le_trans; eassumption.
  - constructor; [exact IH|].
    assert (Hk : str_le h k).
    { destruct (str_le_total h k) as [L|L]; [exact L|].
      unfold str_le in L. congruence. }
    rewrite (Forall_forall (str_le h)). intros x Hx.
    apply (Permutation_in _ (insert_sorted_perm k t)) in Hx.
    destruct Hx as [<-|Hx]; [exact Hk|].
    now apply (proj1 (Forall_forall _ _) Hh).
Qed.

Lemma sort_keys_sorted l : StronglySorted str_le (sort_keys l).
Proof.
  induction l as [|k l IH]; cbn; [constructor|]. now apply insert_sorted_sorted.
Qed.

(** Two sorted lists with the same elements are equal. *)
Lemma sorted_unique {A : Type} (R : A -> A -> Prop) :
  (forall a b, R a b -> R b a -> a = b) ->
  (forall a, R a a) ->
  forall l1 l2,
    StronglySorted R l1 -> StronglySorted R l2 -> Permutation l1 l2 -> l1 = l2.
Proof.
  intros Hanti Hrefl. induction l1 as [|a l1 IH]; intros l2 S1 S2 P.
  - apply Permutation_nil in P. now subst.
  - destruct l2 as [|b l2]; [apply Permutation_sym, Permutation_nil in P; discriminate|].
    inversion S1 as [|? ? S1' F1]; subst. inversion S2 as [|? ? S2' F2]; subst.
    assert (E : a = b).
    { assert (Ia : In a (b :: l2)) by (eapply Permutation_in; [exact P|now left]).
      assert (Ib : In b (a :: l1))
        by (eapply Permutation_in; [apply Permutation_sym; exact P|now left]).
      apply Hanti.
      - destruct Ib as [<-|Ib]; [apply Hrefl|].
        now apply (proj1 (Forall_forall _ _) F1).
      - destruct Ia as [<-|Ia]; [apply Hrefl|].
        now apply (proj1 (Forall_forall _ _) F2). }
    subst b. f_equal. apply IH; try assumption.
    eapply Permutation_cons_inv; exact P.
Qed.

(** The sorted keys depend on the set of keys only, not on their order. *)
Lemma sort_keys_permutation l1 l2 :
  Permutation l1 l2 -> sort_keys l1 = sort_keys l2.
Proof.
  intros P. apply (sorted_unique str_le str_le_antisym str_le_refl).
  - apply sort_keys_sorted.
  - apply sort_keys_sorted.
  - rewrite !sort_keys_perm. exact P.
Qed.

Lemma sorted_strict l :
  NoDup l -> StronglySorted str_le l -> StronglySorted str_lt l.
Proof.
  intros N S. induction S as [|h t St IH Hh]; [constructor|].
  inversion N as [|? ? Hn Nt]; subst. constructor; [now apply IH|].
  rewrite Forall_forall in *. intros x Hx. apply str_le_neq_lt; [now apply Hh|].
  intros ->. contradiction.
Qed.

(** Distinct keys come out of the sort in strictly ascending order. *)
Lemma sort_keys_strict l : NoDup l -> StronglySorted str_lt (sort_keys l).
Proof.
  intros N. apply sorted_strict; [|apply sort_keys_sorted].
  eapply Permutation_NoDup; [apply Permutation_sym, sort_keys_perm|exact N].
Qed.

(** ** Enumeration order *)

Lemma insert_index_key_perm n k l : Permutation (insert_index_key n k l) (k :: l).
Proof.
  induction l as [|h t IH]; cbn; [reflexivity|].
  destruct (array_index h) as [n'|]; [|reflexivity].
  destruct (n <? n')%N; [reflexivity|].
  rewrite IH. apply perm_swap.
Qed.

Lemma key_insert_perm k l : Permutation (key_insert k l) (k :: l).
Proof.
  unfold key_insert. destruct (array_index k) as [n|].
  - apply insert_index_key_perm.
  - apply Permutation_sym, Permutation_cons_append.
Qed.

Lemma enumeration_fold_perm ks :
  forall acc,
    Permutation (fold_left (fun acc k => key_insert k acc) ks acc) (acc ++ ks).
Proof.
  induction ks as [|k ks IH]; intros acc; cbn.
  - now rewrite app_nil_r.
  - rewrite IH, key_insert_perm. cbn. apply Permutation_middle.
Qed.

Lemma enumeration_order_perm ks : Permutation (enumeration_order ks) ks.
Proof. apply (enumeration_fold_perm ks []). Qed.

Lemma assignable_In k ks : In k (assignable ks) <-> In k ks /\ k <> "__proto__".
Proof.
  unfold assignable. rewrite filter_In.
  destruct (String.eqb_spec k "__proto__") as [E|E]; cbn; intuition congruence.
Qed.

Lemma assignable_all ks : ~ In "__proto__" ks -> assignable ks = ks.
Proof.
  intros H. apply forallb_filter_id, forallb_forall. intros k I.
  destruct (String.eqb_spec k "__proto__") as [->|_]; [contradiction|reflexivity].
Qed.

Lemma assignable_sorted {R : string -> string -> Prop} l :
  StronglySorted R l -> StronglySorted R (assignable l).
Proof.
  induction 1 as [|h t Ht IH Hh]; cbn; [constructor|].
  destruct (negb (String.eqb h "__proto__")); [|exact IH].
  constructor; [exact IH|].
  rewrite Forall_forall in *. intros x Hx. apply Hh.
  now apply assignable_In in Hx.
Qed.

Lemma canonical_keys_In k ks :
  In k (canonical_keys ks) <-> In k ks /\ k <> "__proto__".
Proof.
  unfold canonical_keys. rewrite <- (assignable_In k ks). split; intros I.
  - apply (Permutation_in _ (enumeration_order_perm _)) in I.
    apply assignable_In in I. apply assignable_In. split; [|tauto].
    apply (Permutation_in _ (sort_keys_perm _)). tauto.
  - apply (Permutation_in _ (Permutation_sym (enumeration_order_perm _))).
    apply assignable_In in I. apply assignable_In. split; [|tauto].
    apply (Permutation_in _ (Permutation_sym (sort_keys_perm _))). tauto.
Qed.

Lemma canonical_keys_NoDup ks : NoDup ks -> NoDup (canonical_keys ks).
Proof.
  intros N. unfold canonical_keys.
  eapply Permutation_NoDup; [apply Permutation_sym, enumeration_order_perm|].
  apply NoDup_filter.
  eapply Permutation_NoDup; [apply Permutation_sym, sort_keys_perm|exact N].
Qed.

Lemma canonical_keys_perm ks :
  ~ In "__proto__" ks -> Permutation (canonical_keys ks) ks.
Proof.
  intros H. unfold canonical_keys. rewrite enumeration_order_perm, assignable_all.
  - apply sort_keys_perm.
  - intros I. apply H. exact (Permutation_in _ (sort_keys_perm _) I).
Qed.

Lemma canonical_keys_permutation l1 l2 :
  Permutation l1 l2 -> canonical_keys l1 = canonical_keys l2.
Proof.
  intros P. unfold canonical_keys. now rewrite (sort_keys_permutation l1 l2 P).
Qed.

(** A new property takes, among the properties, the place that its key
    takes among the keys. *)
Lemma obj_set_new (g : string -> json) k acc :
  ~ In k acc ->
  obj_set k (g k) (map (fun x => (x, g x)) acc) =
  map (fun x => (x, g x)) (key_insert k acc).
Proof.
  intros Hn. unfold obj_set, key_insert.
  assert (G : obj_get k (map (fun x => (x, g x)) acc) = None).
  { apply obj_get_None. rewrite map_map. cbn. now rewrite map_id. }
  rewrite G. destruct (array_index k) as [n|].
  - clear G Hn. induction acc as [|h t IH]; cbn; [reflexivity|].
    destruct (array_index h) as [n'|]; [|reflexivity].
    destruct (n <? n')%N; [reflexivity|]. now rewrite IH.
  - now rewrite map_app.
Qed.

Lemma build_fold (g : string -> json) ks :
  forall acc,
    NoDup (acc ++ ks) ->
    fold_left (fun sorted key => obj_set key (g key) sorted) ks
      (map (fun x => (x, g x)) acc) =
    map (fun x => (x, g x)) (fold_left (fun a k => key_insert k a) ks acc).
Proof.
  induction ks as [|k ks IH]; intros acc N; cbn; [reflexivity|].
  rewrite obj_set_new.
  - apply IH. eapply Permutation_NoDup; [|exact N].
    rewrite key_insert_perm. cbn. apply Permutation_sym, Permutation_middle.
  - intros I. apply NoDup_remove_2 in N. apply N. apply in_or_app. now left.
Qed.

(** The object built from distinct keys in a given order. *)
Lemma build_object (g : string -> json) ks :
  NoDup ks ->
  fold_left (fun sorted key => obj_set key (g key) sorted) ks [] =
  map (fun x => (x, g x)) (enumeration_order ks).
Proof. intros N. apply (build_fold g ks []). exact N. Qed.

Lemma index_le_trans a b c : index_le a b -> index_le b c -> index_le a c.
Proof.
  unfold index_le.
  destruct (array_index a), (array_index b), (array_index c); try tauto. lia.
Qed.

Lemma insert_index_key_app n k I S :
  Forall is_index I -> Forall (fun x => array_index x = None) S ->
  insert_index_key n k (I ++ S) = insert_index_key n k I ++ S.
Proof.
  intros HI HS. induction HI as [|h t Hh Ht IH]; cbn.
  - destruct HS as [|s S' Hs HS']; [reflexivity|]. cbn. now rewrite Hs.
  - destruct (array_index h) as [n'|]; [|reflexivity].
    destruct (n <? n')%N; [reflexivity|]. cbn. now rewrite IH.
Qed.

Lemma insert_index_key_sorted n k I :
  array_index k = Some n ->
  Forall is_index I -> StronglySorted index_le I ->
  Forall is_index (insert_index_key n k I) /\
  StronglySorted index_le (insert_index_key n k I).
Proof.
  intros Hk HI HS.
  assert (Ik : is_index k) by (unfold is_index; congruence).
  induction HS as [|h t Ht IH Hh]; cbn.
  - split; repeat constructor. exact Ik.
  - inversion HI as [|? ? Ih It]; subst. specialize (IH It). destruct IH as [IH1 IH2].
    destruct (array_index h) as [n'|] eqn:Eh; [|exfalso; now apply Ih].
    destruct (N.ltb_spec n n') as [L|L].
    + split; [constructor; assumption|].
      constructor; [now constructor|].
      assert (Hkh : index_le k h) by (unfold index_le; rewrite Hk, Eh; lia).
      constructor; [exact Hkh|].
      eapply Forall_impl; [|exact Hh]. intros x Hx. eapply index_le_trans; eassumption.
    + split; [constructor; assumption|].
      constructor; [exact IH2|].
      rewrite Forall_forall. intros x Hx.
      apply (Permutation_in _ (insert_index_key_perm n k t)) in Hx.
      destruct Hx as [<-|Hx].
      * unfold index_le. rewrite Hk, Eh. lia.
      * now apply (proj1 (Forall_forall _ _) Hh).
Qed.

Lemma enumerated_nil : enumerated [].
Proof. exists [], []. repeat split; constructor. Qed.

Lemma enumerated_insert k l : enumerated l -> enumerated (key_insert k l).
Proof.
  intros [I [S [-> [HI [HS HN]]]]]. unfold key_insert.
  destruct (array_index k) as [n|] eqn:Hk.
  - rewrite insert_index_key_app by assumption.
    destruct (insert_index_key_sorted n k I Hk HI HS) as [A B].
    exists (insert_index_key n k I), S. auto.
  - exists I, (S ++ [k]). rewrite app_assoc. repeat split; auto.
    apply Forall_app. split; [exact HN|]. now constructor.
Qed.

Lemma enumerated_fold ks :
  forall acc, enumerated acc ->
              enumerated (fold_left (fun a k => key_insert k a) ks acc).
Proof.
  induction ks as [|k ks IH]; intros acc H; cbn; [exact H|].
  apply IH. now apply enumerated_insert.
Qed.

Lemma enumeration_order_enumerated ks : enumerated (enumeration_order ks).
Proof. apply enumerated_fold, enumerated_nil. Qed.

Lemma insert_index_key_last n k P :
  Forall (fun p => exists m, array_index p = Some m /\ (m <= n)%N) P ->
  insert_index_key n k P = P ++ [k].
Proof.
  induction 1 as [|h t [m [Hm Hle]] Ht IH]; cbn; [reflexivity|].
  rewrite Hm. destruct (N.ltb_spec n m); [lia|]. now rewrite IH.
Qed.

Lemma enumerate_indices I :
  forall P,
    Forall is_index (P ++ I) -> StronglySorted index_le (P ++ I) ->
    fold_left (fun a k => key_insert k a) I P = P ++ I.
Proof.
  induction I as [|i I IH]; intros P HI HS; cbn; [now rewrite app_nil_r|].
  assert (Hi : is_index i).
  { rewrite Forall_forall in HI. apply HI, in_or_app. right. now left. }
  unfold is_index in Hi. destruct (array_index i) as [n|] eqn:Ei; [|congruence].
  assert (E : key_insert i P = P ++ [i]).
  { unfold key_insert. rewrite Ei. apply insert_index_key_last.
    rewrite Forall_forall. intros p Hp.
    assert (L : index_le p i).
    { clear - HS Hp. induction P as [|q P IHP]; [contradiction|].
      cbn in HS. inversion HS as [|? ? HS' F]; subst.
      destruct Hp as [->|Hp]; [|now apply IHP].
      rewrite Forall_forall in F. apply F, in_or_app. right. now left. }
    unfold index_le in L. rewrite Ei in L.
    destruct (array_index p) as [m|]; [|contradiction]. eauto. }
  rewrite E, IH; rewrite <- app_assoc; cbn; try assumption. reflexivity.
Qed.

Lemma enumerate_others S :
  forall acc,
    Forall (fun k => array_index k = None) S ->
    fold_left (fun a k => key_insert k a) S acc = acc ++ S.
Proof.
  induction S as [|s S IH]; intros acc H; cbn; [now rewrite app_nil_r|].
  inversion H as [|? ? Hs HS]; subst.
  unfold key_insert at 2. rewrite Hs, IH by assumption.
  now rewrite <- app_assoc.
Qed.

(** Keys that are in enumeration order already keep their order. *)
Lemma enumerated_fixed ks : enumerated ks -> enumeration_order ks = ks.
Proof.
  intros [I [S [-> [HI [HS HN]]]]]. unfold enumeration_order.
  rewrite fold_left_app, (enumerate_indices I []) by assumption.
  now apply enumerate_others.
Qed.

Lemma canonical_keys_enumerated ks : enumerated (canonical_keys ks).
Proof. apply enumeration_order_enumerated. Qed.

Lemma canonical_keys_idempotent ks :
  canonical_keys (canonical_keys ks) = canonical_keys ks.
Proof.
  unfold canonical_keys at 1.
  assert (E : sort_keys (canonical_keys ks) = assignable (sort_keys ks)).
  { apply (sorted_unique str_le str_le_antisym str_le_refl).
    - apply sort_keys_sorted.
    - apply assignable_sorted, sort_keys_sorted.
    - rewrite sort_keys_perm. apply enumeration_order_perm. }
  rewrite E. unfold canonical_keys. f_equal.
  apply assignable_all. intros I. apply assignable_In in I. tauto.
Qed.

(** Without array indices the canonical order is the sorted order. *)
Lemma canonical_keys_no_index ks :
  Forall (fun k => array_index k = None) ks ->
  canonical_keys ks = assignable (sort_keys ks).
Proof.
  intros H. unfold canonical_keys, enumeration_order.
  rewrite enumerate_others; [reflexivity|].
  rewrite Forall_forall in *. intros x Hx. apply H.
  apply assignable_In in Hx.
  eapply Permutation_in; [apply sort_keys_perm|tauto].
Qed.

(** An object whose properties are in enumeration order is the object that
    receives them one by one. *)
Lemma obj_literal_enumerated ps :
  NoDup (map fst ps) -> enumerated (map fst ps) -> obj_literal ps = ps.
Proof.
  intros N E. unfold obj_literal, obj_spread.
  set (g := fun k => match obj_get k ps with Some v => v | None => JNull end).
  assert (G : forall kv, In kv ps -> snd kv = g (fst kv)).
  { clear E. subst g. induction ps as [|[k v] ps IH]; intros kv Hin; [contradiction|].
    cbn in N. inversion N as [|? ? Hn N']; subst. cbn [obj_get].
    destruct Hin as [<-|Hin].
    - cbn. now rewrite String.eqb_refl.
    - destruct (String.eqb_spec (fst kv) k) as [Ek|Ek].
      + exfalso. apply Hn. rewrite <- Ek. now apply in_map.
      + now apply IH. }
  assert (F : forall l acc,
            (forall kv, In kv l -> snd kv = g (fst kv)) ->
            fold_left (fun a kv => obj_set (fst kv) (snd kv) a) l acc =
            fold_left (fun sorted key => obj_set key (g key) sorted) (map fst l) acc).
  { induction l as [|kv l IH]; intros acc H; cbn; [reflexivity|].
    rewrite (H kv) by now left. apply IH. intros x Hx. apply H. now right. }
  rewrite (F ps [] G), build_object, enumerated_fixed by assumption.
  rewrite map_map. rewrite <- (map_id ps) at 2. apply map_ext_in.
  intros [k v] Hin. cbn. f_equal. symmetry. apply (G (k, v) Hin).
Qed.

(** ** Canonical form *)

Lemma obj_get_map_values (f : json -> json) k ps :
  obj_get k (map (fun kv => (fst kv, f (snd kv))) ps) = option_map f (obj_get k ps).
Proof.
  induction ps as [|[k' v'] ps IH]; cbn; [reflexivity|].
  destruct (String.eqb k k'); [reflexivity|exact IH].
Qed.

Lemma obj_get_tabulate_in (g : string -> json) k l :
  In k l -> obj_get k (map (fun x => (x, g x)) l) = Some (g k).
Proof.
  induction l as [|h t IH]; cbn; [contradiction|].
  destruct (String.eqb_spec k h) as [->|N]; [reflexivity|].
  intros [E|I]; [congruence|now apply IH].
Qed.

Lemma obj_get_tabulate_out (g : string -> json) k l :
  ~ In k l -> obj_get k (map (fun x => (x, g x)) l) = None.
Proof.
  intros H. apply obj_get_None. rewrite map_map. cbn. now rewrite map_id.
Qed.

Lemma map_fst_tabulate (g : string -> json) l :
  map fst (map (fun x => (x, g x)) l) = l.
Proof. rewrite map_map. cbn. apply map_id. Qed.

(** The canonical form of an object: its keys in canonical order, each with
    the canonical form of its value. *)
Lemma assign_keys (g : string -> json) ks :
  forall acc,
    fold_left (fun sorted key => obj_assign key (g key) sorted) ks acc =
    fold_left (fun sorted key => obj_set key (g key) sorted) (assignable ks) acc.
Proof.
  induction ks as [|k ks IH]; intros acc; [reflexivity|].
  cbn [fold_left assignable filter]. unfold obj_assign at 2.
  destruct (String.eqb k "__proto__"); cbn [negb fold_left]; apply IH.
Qed.

Lemma sortJsonKeys_object ps :
  NoDup (map fst ps) ->
  sortJsonKeys (JObj ps) =
  JObj (map (fun k => (k, sorted_value ps k)) (canonical_keys (map fst ps))).
Proof.
  intros N. rewrite sortJsonKeys_JObj. f_equal. unfold Object_keys.
  rewrite assign_keys, build_object.
  - apply map_ext. intros k. unfold sorted_value.
    rewrite obj_get_map_values. destruct (obj_get k ps); reflexivity.
  - apply NoDup_filter.
    eapply Permutation_NoDup; [apply Permutation_sym, sort_keys_perm|exact N].
Qed.

Lemma same_json_keys p1 p2 :
  NoDup (map fst p1) -> NoDup (map fst p2) ->
  (forall k, option_rel same_json (obj_get k p1) (obj_get k p2)) ->
  Permutation (map fst p1) (map fst p2).
Proof.
  intros N1 N2 H. apply NoDup_Permutation; try assumption.
  intros k. specialize (H k).
  destruct (obj_get k p1) as [a|] eqn:G1; destruct (obj_get k p2) as [b|] eqn:G2;
    inversion H; subst.
  - split; intros _.
    + apply obj_get_In in G2. now apply (in_map fst) in G2.
    + apply obj_get_In in G1. now apply (in_map fst) in G1.
  - apply obj_get_None in G1. apply obj_get_None in G2. tauto.
Qed.

(** Order independence: values that differ only in the order of the
    properties of their objects have the same canonical form. *)
Lemma sortJsonKeys_same v1 :
  forall v2, same_json v1 v2 -> sortJsonKeys v1 = sortJsonKeys v2.
Proof.
  induction v1 as [ | b | z | s | items IH | ps IH] using json_induction;
    intros v2 H; inversion H; subst; try reflexivity.
  - cbn [sortJsonKeys]. f_equal.
    match goal with H : Forall2 _ _ _ |- _ => induction H as [|a b l1 l2 Hab Hl IHl] end;
      [reflexivity|].
    inversion IH as [|? ? Ha Hl']; subst. cbn. f_equal; [now apply Ha|].
    apply IHl; [exact Hl'|]. constructor. exact Hl.
  - match goal with H1 : NoDup (map fst ps), H2 : NoDup (map fst ?q),
                    H3 : forall k, option_rel _ _ _ |- _ =>
      rename q into p2; rename H1 into N1; rename H2 into N2; rename H3 into L end.
    rewrite !sortJsonKeys_object by assumption. f_equal.
    rewrite (canonical_keys_permutation _ _ (same_json_keys ps p2 N1 N2 L)).
    apply map_ext. intros k. f_equal. unfold sorted_value.
    specialize (L k).
    destruct (obj_get k ps) as [a|] eqn:G1; destruct (obj_get k p2) as [b|] eqn:G2;
      inversion L; subst; [|reflexivity].
    apply obj_get_In in G1. rewrite Forall_forall in IH.
    apply (IH (k, a) G1). assumption.
Qed.

(** Every property but [__proto__] is in the canonical form, with the
    canonical form of its value. *)
Lemma sorted_object_get ps k :
  k <> "__proto__" ->
  obj_get k (map (fun x => (x, sorted_value ps x)) (canonical_keys (map fst ps))) =
  option_map sortJsonKeys (obj_get k ps).
Proof.
  intros P.
  destruct (in_dec string_dec k (canonical_keys (map fst ps))) as [I|I].
  - rewrite obj_get_tabulate_in by assumption. unfold sorted_value.
    apply canonical_keys_In in I.
    destruct (obj_get k ps) eqn:G; [reflexivity|].
    apply obj_get_None in G. tauto.
  - rewrite obj_get_tabulate_out by assumption.
    destruct (obj_get k ps) eqn:G; [|reflexivity].
    exfalso. apply I. apply canonical_keys_In. split; [|exact P].
    apply obj_get_In in G. now apply (in_map fst) in G.
Qed.

Lemma sorted_object_NoDup ps :
  NoDup (map fst ps) ->
  NoDup (map fst (map (fun x => (x, sorted_value ps x)) (canonical_keys (map fst ps)))).
Proof.
  intros N. rewrite map_fst_tabulate. now apply canonical_keys_NoDup.
Qed.

(** Canonicalizing twice is canonicalizing once. *)
Lemma sortJsonKeys_idempotent v :
  distinct_keys v -> sortJsonKeys (sortJsonKeys v) = sortJsonKeys v.
Proof.
  induction v as [ | b | z | s | items IH | ps IH] using json_induction;
    intros D; inversion D as [ | | | | ? F | ? N F]; subst; try reflexivity.
  - cbn [sortJsonKeys]. f_equal. rewrite map_map. apply map_ext_in.
    intros x Hx. rewrite Forall_forall in IH, F. auto.
  - rewrite (sortJsonKeys_object ps) by assumption.
    rewrite sortJsonKeys_object by now apply sorted_object_NoDup.
    rewrite map_fst_tabulate, canonical_keys_idempotent. f_equal.
    apply map_ext_in. intros k Hk. f_equal.
    unfold sorted_value at 1. rewrite obj_get_tabulate_in by assumption.
    unfold sorted_value.
    destruct (obj_get k ps) as [a|] eqn:G; [|reflexivity].
    apply obj_get_In in G. rewrite Forall_forall in IH, F.
    apply (IH (k, a) G). apply (F (k, a) G).
Qed.

(** The canonical form lists the properties of every object in enumeration
    order. *)
Lemma sortJsonKeys_js_value v : distinct_keys v -> js_value (sortJsonKeys v).
Proof.
  induction v as [ | b | z | s | items IH | ps IH] using json_induction;
    intros D; inversion D as [ | | | | ? F | ? N F]; subst.
  - constructor.
  - constructor.
  - constructor.
  - constructor.
  - cbn [sortJsonKeys]. constructor.
    rewrite Forall_forall in *. intros x Hx. apply in_map_iff in Hx.
    destruct Hx as [y [<- Hy]]. auto.
  - rewrite sortJsonKeys_object by assumption. constructor.
    + now apply sorted_object_NoDup.
    + rewrite map_fst_tabulate. apply canonical_keys_enumerated.
    + rewrite Forall_forall in *. intros kv Hkv. apply in_map_iff in Hkv.
      destruct Hkv as [k [<- Hk]]. cbn. unfold sorted_value.
      destruct (obj_get k ps) as [a|] eqn:G; [|constructor].
      apply obj_get_In in G. apply (IH (k, a) G). apply (F (k, a) G).
Qed.

(** ** Parsing a text back *)

Lemma parse_chars_escape_char c rest :
  parse_chars (escape_char c rest) = cons_char c (parse_chars rest).
Proof.
  destruct c as [b0 b1 b2 b3 b4 b5 b6 b7];
    destruct b0, b1, b2, b3, b4, b5, b6, b7; reflexivity.
Qed.

Lemma parse_chars_string s k :
  parse_chars (escape_string s (String quote_char k)) = Some (s, k).
Proof.
  induction s as [|c s IH]; [reflexivity|].
  cbn [escape_string]. rewrite parse_chars_escape_char, IH. reflexivity.
Qed.

Lemma delimited_no_digit k :
  delimited k ->
  match k with
  | EmptyString => True
  | String c _ => digit_of_char c = None
  end /\ starts_fraction k = false.
Proof.
  destruct k as [|c r]; cbn; [auto|].
  intros [-> | [-> | ->]]; split; reflexivity.
Qed.

Lemma take_digits_uint d :
  forall k,
    match k with
    | EmptyString => True
    | String c _ => digit_of_char c = None
    end ->
    take_digits (NilEmpty.string_of_uint d ++ k) = (d, k).
Proof.
  induction d; intros k Hk; cbn [NilEmpty.string_of_uint append];
    try (cbn [take_digits]; rewrite (IHd k Hk); reflexivity).
  destruct k as [|c r]; [reflexivity|]. cbn [take_digits]. now rewrite Hk.
Qed.

Lemma uint_beq_refl d : uint_beq d d = true.
Proof. induction d; cbn; auto. Qed.

Lemma parse_unsigned_uint d k :
  unorm d = d -> delimited k ->
  parse_unsigned (NilEmpty.string_of_uint d ++ k) = Some (Z.of_uint d, k).
Proof.
  intros Hn Hk. destruct (delimited_no_digit k Hk) as [H1 H2].
  unfold parse_unsigned. rewrite take_digits_uint by assumption.
  rewrite Hn, uint_beq_refl, H2. reflexivity.
Qed.

Lemma pos_to_uint_norm p : unorm (Pos.to_uint p) = Pos.to_uint p.
Proof.
  rewrite <- (DecimalPos.Unsigned.to_of (Pos.to_uint p)).
  now rewrite DecimalPos.Unsigned.of_to.
Qed.

Lemma pos_to_uint_text p :
  NilZero.string_of_uint (Pos.to_uint p) = NilEmpty.string_of_uint (Pos.to_uint p).
Proof.
  pose proof (DecimalPos.Unsigned.to_uint_nonnil p) as H.
  destruct (Pos.to_uint p); [contradiction| | | | | | | | | | ]; reflexivity.
Qed.

Lemma uint_text_head d k :
  d <> Nil ->
  exists c r, (NilEmpty.string_of_uint d ++ k)%string = String c r /\
              number_head c = true /\ Ascii.eqb c "-" = false.
Proof.
  intros H. destruct d; [contradiction| | | | | | | | | | ];
    cbn [NilEmpty.string_of_uint append]; eexists; eexists;
    (split; [reflexivity|split; reflexivity]).
Qed.

(** The text of a number is read back as the number. *)
Lemma parse_number_write z k :
  delimited k -> parse_number (write_number z k) = Some (JNum z, k).
Proof.
  intros Hk. unfold write_number, parse_number.
  destruct z as [|p|p]; cbn [Z.to_int NilZero.string_of_int].
  - change (NilZero.string_of_uint zero ++ k)%string
      with (NilEmpty.string_of_uint (D0 Nil) ++ k)%string.
    cbn [NilEmpty.string_of_uint append starts_with]. cbn [Ascii.eqb Bool.eqb].
    change (String "0" k) with (NilEmpty.string_of_uint (D0 Nil) ++ k)%string.
    rewrite parse_unsigned_uint by (assumption || reflexivity). reflexivity.
  - rewrite pos_to_uint_text.
    destruct (uint_text_head (Pos.to_uint p) k (DecimalPos.Unsigned.to_uint_nonnil p))
      as [c [r [E [_ Hc]]]].
    assert (S : starts_with "-" (NilEmpty.string_of_uint (Pos.to_uint p) ++ k) = false)
      by (rewrite E; exact Hc).
    rewrite S, parse_unsigned_uint by (assumption || apply pos_to_uint_norm).
    unfold Z.of_uint. rewrite DecimalPos.Unsigned.of_to. reflexivity.
  - rewrite pos_to_uint_text. cbn [append starts_with drop].
    cbn [Ascii.eqb Bool.eqb].
    rewrite parse_unsigned_uint by (assumption || apply pos_to_uint_norm).
    unfold Z.of_uint. rewrite DecimalPos.Unsigned.of_to. reflexivity.
Qed.

Lemma write_number_head z k :
  exists c r, write_number z k = String c r /\ number_head c = true.
Proof.
  unfold write_number. destruct z as [|p|p]; cbn [Z.to_int NilZero.string_of_int].
  - eexists; eexists. split; reflexivity.
  - rewrite pos_to_uint_text.
    destruct (uint_text_head (Pos.to_uint p) k (DecimalPos.Unsigned.to_uint_nonnil p))
      as [c [r [E [Hc _]]]]. eauto.
  - eexists; eexists. split; reflexivity.
Qed.

Lemma parse_value_number f c r :
  number_head c = true -> parse_value (S f) (String c r) = parse_number (String c r).
Proof.
  destruct c as [b0 b1 b2 b3 b4 b5 b6 b7];
    destruct b0, b1, b2, b3, b4, b5, b6, b7; intros H; try discriminate H;
    reflexivity.
Qed.

Lemma parse_value_string f r :
  parse_value (S f) (String quote_char r) =
  match parse_chars r with
  | Some (str, rest) => Some (JStr str, rest)
  | None => None
  end.
Proof. reflexivity. Qed.

Lemma parse_value_array f r :
  parse_value (S f) (String "[" r) =
  if starts_with "]" r then Some (JArr [], drop 1 r)
  else match parse_items f r with
       | Some (items, rest) => Some (JArr items, rest)
       | None => None
       end.
Proof. reflexivity. Qed.

Lemma parse_value_object f r :
  parse_value (S f) (String "{" r) =
  if starts_with "}" r then Some (JObj [], drop 1 r)
  else match parse_members f r with
       | Some (entries, rest) => Some (JObj (obj_literal entries), rest)
       | None => None
       end.
Proof. reflexivity. Qed.

Lemma parse_items_step f s :
  parse_items (S f) s =
  match parse_value f s with
  | Some (v, String c rest) =>
      if Ascii.eqb c "," then
        match parse_items f rest with
        | Some (vs, rest') => Some (v :: vs, rest')
        | None => None
        end
      else if Ascii.eqb c "]" then Some ([v], rest)
      else None
  | _ => None
  end.
Proof. reflexivity. Qed.

Lemma parse_members_step f r :
  parse_members (S f) (String quote_char r) =
  match parse_chars r with
  | Some (key, String colon r1) =>
      if Ascii.eqb colon ":" then
        match parse_value f r1 with
        | Some (v, String c rest) =>
            if Ascii.eqb c "," then
              match parse_members f rest with
              | Some (es, rest') => Some ((key, v) :: es, rest')
              | None => None
              end
            else if Ascii.eqb c "}" then Some ([(key, v)], rest)
            else None
        | _ => None
        end
      else None
  | _ => None
  end.
Proof. reflexivity. Qed.

Lemma write_head v k :
  exists c r, write v k = String c r /\ value_head c = true.
Proof.
  destruct v as [ | [|] | z | s | items | ps];
    try (eexists; eexists; split; reflexivity).
  destruct (write_number_head z k) as [c [r [E H]]]. exists c, r. split; [exact E|].
  unfold value_head, number_head in *.
  destruct (code c =? 110)%N, (code c =? 116)%N, (code c =? 102)%N,
    (code c =? 34)%N, (code c =? 91)%N, (code c =? 123)%N; cbn; auto.
Qed.

Lemma value_head_not_close c :
  value_head c = true -> Ascii.eqb c "]" = false /\ Ascii.eqb c "}" = false.
Proof.
  destruct c as [b0 b1 b2 b3 b4 b5 b6 b7];
    destruct b0, b1, b2, b3, b4, b5, b6, b7; intros H; try discriminate H;
    split; reflexivity.
Qed.

Lemma write_rest_delimited {A : Type} (f : A -> string -> string) l k :
  delimited (write_rest f "]" l k) /\ delimited (write_rest f "}" l k).
Proof. destruct l; cbn; auto. Qed.

Lemma parse_items_write :
  forall r x f k,
    Forall reads_back (x :: r) -> Forall js_value (x :: r) ->
    (fold_right (fun y n => S (json_size y + n)) O (x :: r) <= f)%nat ->
    delimited k ->
    parse_items f (write x (write_rest write "]" r k)) = Some (x :: r, k).
Proof.
  induction r as [|y r IH]; intros x f k HR HJ Hf Hk;
    (destruct f as [|f]; [cbn in Hf; lia|]);
    inversion HR as [|? ? Rx Rr]; inversion HJ as [|? ? Jx Jr]; subst;
    rewrite parse_items_step; cbn [fold_right] in Hf.
  - cbn [write_rest]. rewrite (Rx Jx f (String "]" k)); [reflexivity|lia|].
    cbn. auto.
  - cbn [write_rest].
    rewrite (Rx Jx f (String "," (write y (write_rest write "]" r k))));
      [|lia|cbn; auto].
    cbn [Ascii.eqb Bool.eqb]. rewrite (IH y f k); [reflexivity|assumption|assumption| |assumption].
    cbn [fold_right]. lia.
Qed.

Lemma parse_members_write :
  forall r x f k,
    Forall (fun kv => reads_back (snd kv)) (x :: r) ->
    Forall (fun kv => js_value (snd kv)) (x :: r) ->
    (fold_right (fun kv n => S (json_size (snd kv) + n)) O (x :: r) <= f)%nat ->
    delimited k ->
    parse_members f (write_member write x (write_rest (write_member write) "}" r k))
    = Some (x :: r, k).
Proof.
  induction r as [|y r IH]; intros [key v] f k HR HJ Hf Hk;
    (destruct f as [|f]; [cbn in Hf; lia|]);
    inversion HR as [|? ? Rx Rr]; inversion HJ as [|? ? Jx Jr]; subst;
    cbn [fst snd] in *; unfold write_member at 1; cbn [fst snd];
    unfold write_string; rewrite parse_members_step, parse_chars_string;
    cbn [Ascii.eqb Bool.eqb]; cbn [fold_right snd] in Hf.
  - cbn [write_rest]. rewrite (Rx Jx f (String "}" k)); [reflexivity|lia|].
    cbn. auto.
  - cbn [write_rest].
    rewrite (Rx Jx f (String "," (write_member write y
                                     (write_rest (write_member write) "}" r k))));
      [|lia|cbn; auto].
    cbn [Ascii.eqb Bool.eqb]. rewrite (IH y f k); [reflexivity|assumption|assumption| |assumption].
    cbn [fold_right]. lia.
Qed.

(** Every value whose objects are in enumeration order is read back from its
    text. *)
Lemma parse_write v : reads_back v.
Proof.
  induction v as [ | b | z | s | items IH | ps IH] using json_induction;
    intros J fuel k Hf Hk; (destruct fuel as [|f]; [cbn in Hf; lia|]).
  - destruct k; reflexivity.
  - destruct b, k; reflexivity.
  - change (write (JNum z) k) with (write_number z k).
    destruct (write_number_head z k) as [c [r [E H]]].
    rewrite E, parse_value_number by exact H. rewrite <- E.
    now apply parse_number_write.
  - change (write (JStr s) k)
      with (String quote_char (escape_string s (String quote_char k))).
    rewrite parse_value_string, parse_chars_string. reflexivity.
  - rewrite write_JArr. inversion J as [ | | | | ? JF | ]; subst.
    destruct items as [|x r]; cbn [write_seq]; rewrite parse_value_array.
    + reflexivity.
    + destruct (write_head x (write_rest write "]" r k)) as [c [r' [E Hc]]].
      destruct (value_head_not_close c Hc) as [N1 _].
      replace (starts_with "]" (write x (write_rest write "]" r k))) with false
        by (rewrite E; cbn; now rewrite N1).
      rewrite parse_items_write; [reflexivity|assumption|assumption| |assumption].
      cbn [json_size] in Hf. lia.
  - rewrite write_JObj. inversion J as [ | | | | | ? JN JE JF]; subst.
    destruct ps as [|x r]; cbn [write_seq]; rewrite parse_value_object.
    + reflexivity.
    + replace (starts_with "}"
                 (write_member write x (write_rest (write_member write) "}" r k)))
        with false by reflexivity.
      rewrite parse_members_write; [|assumption|assumption| |assumption].
      * now rewrite obj_literal_enumerated.
      * cbn [json_size] in Hf. lia.
Qed.

Lemma write_string_length s k :
  (2 + String.length k <= String.length (write_string s k))%nat.
Proof.
  unfold write_string. cbn [String.length].
  assert (H : forall t, (String.length t <= String.length (escape_string s t))%nat).
  { induction s as [|c s IH]; intros t; cbn [escape_string]; [lia|].
    specialize (IH t). unfold escape_char.
    repeat match goal with |- context [if ?b then _ else _] => destruct b end;
      cbn [String.length]; lia. }
  specialize (H (String quote_char k)). cbn [String.length] in H. lia.
Qed.

Lemma write_number_length z k :
  (1 + String.length k <= String.length (write_number z k))%nat.
Proof.
  unfold write_number. rewrite string_length_app.
  assert (H : (1 <= String.length (NilZero.string_of_int (Z.to_int z)))%nat).
  { destruct z as [|p|p]; cbn [Z.to_int NilZero.string_of_int].
    - cbn. lia.
    - rewrite pos_to_uint_text.
      pose proof (DecimalPos.Unsigned.to_uint_nonnil p) as N.
      destruct (Pos.to_uint p); [contradiction| | | | | | | | | | ]; cbn; lia.
    - cbn [String.length]. lia. }
  lia.
Qed.

(** The text of a value is at least as long as its size. *)
Lemma json_size_length v :
  forall k, (json_size v + String.length k <= String.length (write v k))%nat.
Proof.
  induction v as [ | b | z | s | items IH | ps IH] using json_induction; intros k.
  - cbn. lia.
  - destruct b; cbn; lia.
  - pose proof (write_number_length z k). cbn [json_size write]. lia.
  - pose proof (write_string_length s k). cbn [json_size write]. lia.
  - rewrite write_JArr. cbn [json_size].
    assert (R : forall l, Forall (fun v => forall k,
                  (json_size v + String.length k <= String.length (write v k))%nat) l ->
                (fold_right (fun x n => S (json_size x + n)) O l + 1 + String.length k
                 <= String.length (write_rest write "]" l k))%nat).
    { induction 1 as [|x l Hx Hl IHl]; cbn [fold_right write_rest String.length]; [lia|].
      specialize (Hx (write_rest write "]" l k)). lia. }
    destruct items as [|x r]; cbn [write_seq fold_right String.length]; [lia|].
    inversion IH as [|? ? Hx Hr]; subst.
    specialize (R r Hr). specialize (Hx (write_rest write "]" r k)). lia.
  - rewrite write_JObj. cbn [json_size].
    assert (M : forall (x : string * json) t,
              (forall k, (json_size (snd x) + String.length k
                          <= String.length (write (snd x) k))%nat) ->
              (json_size (snd x) + String.length t
               <= String.length (write_member write x t))%nat).
    { intros x t Hx. unfold write_member.
      pose proof (write_string_length (fst x) (String ":" (write (snd x) t))) as L.
      cbn [String.length] in L. specialize (Hx t). lia. }
    assert (R : forall l, Forall (fun kv => forall k,
                  (json_size (snd kv) + String.length k
                   <= String.length (write (snd kv) k))%nat) l ->
                (fold_right (fun kv n => S (json_size (snd kv) + n)) O l + 1
                 + String.length k
                 <= String.length (write_rest (write_member write) "}" l k))%nat).
    { induction 1 as [|x l Hx Hl IHl]; cbn [fold_right write_rest String.length]; [lia|].
      pose proof (M x (write_rest (write_member write) "}" l k) Hx). lia. }
    destruct ps as [|x r]; cbn [write_seq fold_right String.length]; [lia|].
    inversion IH as [|? ? Hx Hr]; subst.
    specialize (R r Hr).
    pose proof (M x (write_rest (write_member write) "}" r k) Hx). lia.
Qed.

(** [JSON.parse] undoes [JSON.stringify] on the values of a program. *)
Lemma JSON_parse_stringify v : js_value v -> JSON_parse (JSON_stringify v) = Some v.
Proof.
  intros J. unfold JSON_parse, JSON_stringify.
  rewrite (parse_write v J); [reflexivity| |exact I].
  pose proof (json_size_length v EmptyString). cbn [String.length] in *. lia.
Qed.

(** ** White space *)

Lemma escape_char_no_whitespace c k :
  Ascii.eqb c " " = false -> no_whitespace k = true ->
  no_whitespace (escape_char c k) = true.
Proof.
  destruct c as [b0 b1 b2 b3 b4 b5 b6 b7];
    destruct b0, b1, b2, b3, b4, b5, b6, b7; intros Hc Hk;
    try discriminate Hc; cbn; exact Hk.
Qed.

Lemma escape_string_no_whitespace s k :
  no_space s = true -> no_whitespace k = true ->
  no_whitespace (escape_string s k) = true.
Proof.
  induction s as [|c s IH]; cbn [no_space escape_string]; intros Hs Hk; [exact Hk|].
  apply andb_true_iff in Hs. destruct Hs as [Hc Hs].
  apply escape_char_no_whitespace; [|now apply IH].
  now apply negb_true_iff.
Qed.

Lemma write_string_no_whitespace s k :
  no_space s = true -> no_whitespace k = true ->
  no_whitespace (write_string s k) = true.
Proof.
  intros Hs Hk. unfold write_string.
  change (no_whitespace (escape_string s (String quote_char k)) = true).
  apply escape_string_no_whitespace; [exact Hs|exact Hk].
Qed.

Lemma uint_text_no_whitespace d k :
  no_whitespace (NilEmpty.string_of_uint d ++ k) = no_whitespace k.
Proof. induction d; cbn [NilEmpty.string_of_uint append]; auto. Qed.

Lemma write_number_no_whitespace z k :
  no_whitespace k = true -> no_whitespace (write_number z k) = true.
Proof.
  intros Hk. unfold write_number.
  destruct z as [|p|p]; cbn [Z.to_int NilZero.string_of_int].
  - exact Hk.
  - now rewrite pos_to_uint_text, uint_text_no_whitespace.
  - rewrite pos_to_uint_text. cbn [append].
    change (no_whitespace (NilEmpty.string_of_uint (Pos.to_uint p) ++ k) = true).
    now rewrite uint_text_no_whitespace.
Qed.

(** The encoding adds no white space: the text of a value whose strings
    have no space has no white space at all. *)
Lemma write_no_whitespace v :
  strings_no_space v = true ->
  forall k, no_whitespace k = true -> no_whitespace (write v k) = true.
Proof.
  induction v as [ | b | z | s | items IH | ps IH] using json_induction;
    intros Hv k Hk.
  - exact Hk.
  - destruct b; exact Hk.
  - now apply write_number_no_whitespace.
  - now apply write_string_no_whitespace.
  - rewrite write_JArr. cbn [strings_no_space] in Hv.
    assert (R : forall l,
              Forall (fun v => strings_no_space v = true ->
                        forall k, no_whitespace k = true ->
                                  no_whitespace (write v k) = true) l ->
              forallb strings_no_space l = true ->
              no_whitespace (write_rest write "]" l k) = true).
    { induction 1 as [|x l Hx Hl IHl]; cbn [forallb write_rest]; intros F;
        [exact Hk|].
      apply andb_true_iff in F. destruct F as [Fx Fl].
      change (no_whitespace (write x (write_rest write "]" l k)) = true).
      apply Hx; [exact Fx|now apply IHl]. }
    destruct items as [|x r]; cbn [write_seq]; [exact Hk|].
    inversion IH as [|? ? Hx Hr]; subst. cbn [forallb] in Hv.
    apply andb_true_iff in Hv. destruct Hv as [Fx Fr].
    change (no_whitespace (write x (write_rest write "]" r k)) = true).
    apply Hx; [exact Fx|now apply R].
  - rewrite write_JObj. cbn [strings_no_space] in Hv.
    assert (M : forall (x : string * json) t,
              (strings_no_space (snd x) = true ->
               forall k, no_whitespace k = true ->
                         no_whitespace (write (snd x) k) = true) ->
              no_space (fst x) && strings_no_space (snd x) = true ->
              no_whitespace t = true ->
              no_whitespace (write_member write x t) = true).
    { intros x t Hx F Ht. apply andb_true_iff in F. destruct F as [F1 F2].
      unfold write_member. apply write_string_no_whitespace; [exact F1|].
      change (no_whitespace (write (snd x) t) = true). now apply Hx. }
    assert (R : forall l,
              Forall (fun kv => strings_no_space (snd kv) = true ->
                        forall k, no_whitespace k = true ->
                                  no_whitespace (write (snd kv) k) = true) l ->
              forallb (fun kv => no_space (fst kv) && strings_no_space (snd kv)) l
                = true ->
              no_whitespace (write_rest (write_member write) "}" l k) = true).
    { induction 1 as [|x l Hx Hl IHl]; cbn [forallb write_rest]; intros F;
        [exact Hk|].
      apply andb_true_iff in F. destruct F as [Fx Fl].
      change (no_whitespace
                (write_member write x (write_rest (write_member write) "}" l k)) = true).
      apply M; [exact Hx|exact Fx|now apply IHl]. }
    destruct ps as [|x r]; cbn [write_seq]; [exact Hk|].
    inversion IH as [|? ? Hx Hr]; subst. cbn [forallb] in Hv.
    apply andb_true_iff in Hv. destruct Hv as [Fx Fr].
    change (no_whitespace
              (write_member write x (write_rest (write_member write) "}" r k)) = true).
    apply M; [exact Hx|exact Fx|now apply R].
Qed.

Lemma strings_no_space_sorted v :
  distinct_keys v -> strings_no_space v = true ->
  strings_no_space (sortJsonKeys v) = true.
Proof.
  induction v as [ | b | z | s | items IH | ps IH] using json_induction;
    intros D Hv; inversion D as [ | | | | ? F | ? N F]; subst; try exact Hv.
  - cbn [sortJsonKeys strings_no_space] in *.
    rewrite forallb_forall in *. intros x Hx. apply in_map_iff in Hx.
    destruct Hx as [y [<- Hy]]. rewrite Forall_forall in IH, F.
    apply IH; auto.
  - rewrite sortJsonKeys_object by assumption.
    cbn [strings_no_space] in *. rewrite forallb_forall in *.
    intros kv Hkv. apply in_map_iff in Hkv. destruct Hkv as [k [<- Hk]].
    cbn [fst snd].
    apply canonical_keys_In in Hk. destruct Hk as [Hk _].
    apply in_map_iff in Hk. destruct Hk as [[k' a] [Ek Hin]]. cbn in Ek. subst k'.
    pose proof (Hv _ Hin) as Hka. cbn [fst snd] in Hka.
    apply andb_true_iff in Hka. destruct Hka as [H1 H2].
    apply andb_true_iff. split; [exact H1|].
    unfold sorted_value.
    destruct (obj_get k ps) as [a'|] eqn:G; [|reflexivity].
    apply obj_get_In in G. rewrite Forall_forall in IH, F.
    apply (IH (k, a') G); [apply (F (k, a') G)|].
    pose proof (Hv _ G) as Hka'. cbn [fst snd] in Hka'.
    now apply andb_true_iff in Hka'.
Qed.

(** ** Canonical JSON *)

(** C2, as the code has it, for every value whose objects have distinct
    keys.  (1) Idempotent: the canonical text parses to the canonical form,
    and canonicalizing that again gives the same text.  (2) Order
    independent: a value that differs only in the order of properties has
    the same text.  (3) The text of an object that has no key [__proto__]
    lists the same keys, unaltered; every key but [__proto__] has the
    canonical form of its value; and when no key is an array index the keys
    are in strictly ascending order of code units.  (4) An array keeps its
    elements in order.  (5) The encoding adds no white space: when no key or
    string of the value has a space, the text has no white space.  (6) The
    two examples. *)
Theorem C2_canonical_json :
  forall v : json,
    distinct_keys v ->
    (JSON_parse (createCompactJson v) = Some (sortJsonKeys v) /\
     createCompactJson (sortJsonKeys v) = createCompactJson v)
    /\ (forall v', same_json v v' -> createCompactJson v' = createCompactJson v)
    /\ (forall ps,
          v = JObj ps ->
          exists sorted,
            sortJsonKeys v = JObj sorted /\
            createCompactJson v = write_seq (write_member write) "{" "}" sorted "" /\
            (~ In "__proto__" (map fst ps) ->
             Permutation (map fst sorted) (map fst ps)) /\
            (forall k, k <> "__proto__" ->
                       obj_get k sorted = option_map sortJsonKeys (obj_get k ps)) /\
            (Forall (fun k => array_index k = None) (map fst ps) ->
             StronglySorted str_lt (map fst sorted)))
    /\ (forall items,
          v = JArr items ->
          sortJsonKeys v = JArr (map sortJsonKeys items) /\
          createCompactJson v = write_seq write "[" "]" (map sortJsonKeys items) "")
    /\ (strings_no_space v = true -> no_whitespace (createCompactJson v) = true)
    /\ createCompactJson (JObj [("z", JNum 1); ("a", JNum 2); ("m", JNum 3)])
       = ("{" ++ quoted "a" ++ ":2," ++ quoted "m" ++ ":3," ++ quoted "z" ++ ":1}")%string
    /\ createCompactJson (JObj [("a", JNum 1); ("b", JNum 2)])
       = ("{" ++ quoted "a" ++ ":1," ++ quoted "b" ++ ":2}")%string.
Proof.
  intros v D. repeat match goal with |- _ /\ _ => split end.
  - unfold createCompactJson. apply JSON_parse_stringify.
    now apply sortJsonKeys_js_value.
  - unfold createCompactJson. now rewrite sortJsonKeys_idempotent.
  - intros v' H. unfold createCompactJson. now rewrite (sortJsonKeys_same v v' H).
  - intros ps ->. inversion D as [ | | | | | ? N F]; subst.
    exists (map (fun k => (k, sorted_value ps k)) (canonical_keys (map fst ps))).
    split; [now apply sortJsonKeys_object|]. split; [|split; [|split]].
    + unfold createCompactJson, JSON_stringify.
      rewrite sortJsonKeys_object by assumption. apply write_JObj.
    + intros P. rewrite map_fst_tabulate. now apply canonical_keys_perm.
    + intros k. apply sorted_object_get.
    + intros H. rewrite map_fst_tabulate, canonical_keys_no_index by assumption.
      now apply assignable_sorted, sort_keys_strict.
  - intros items ->. split; [reflexivity|].
    unfold createCompactJson, JSON_stringify. cbn [sortJsonKeys]. apply write_JArr.
  - intros H. unfold createCompactJson, JSON_stringify.
    apply write_no_whitespace; [now apply strings_no_space_sorted|reflexivity].
  - vm_compute. reflexivity.
  - vm_compute. reflexivity.
Qed.

(** C2 on the object of the repository's test, [{ z: 1, a: 2, m: 3 }]: its
    keys are distinct, and its canonical text parses to its canonical
    form. *)
Lemma C2_canonical_json_witness :
  JSON_parse (createCompactJson (JObj [("z", JNum 1); ("a", JNum 2); ("m", JNum 3)]))
  = Some (sortJsonKeys (JObj [("z", JNum 1); ("a", JNum 2); ("m", JNum 3)])).
Proof.
  refine (proj1 (proj1 (C2_canonical_json
            (JObj [("z", JNum 1); ("a", JNum 2); ("m", JNum 3)]) _))).
  constructor.
  - cbn. repeat constructor; cbn; intuition discriminate.
  - repeat constructor.
Defined.

(** C2 as stated fails on [{ "10": "a b", "9": 1 }]: the canonical text
    lists the key ["9"] before the key ["10"], which is not the ascending
    order of strings, and it contains a space.  It fails also on the value
    of [JSON.parse('{"__proto__":1,"a":2}')]: the canonical text has lost
    the key [__proto__]. *)
Lemma C2_keys_and_spaces :
  let v := JObj (obj_literal [("10", JStr "a b"); ("9", JNum 1)]) in
  let t := ("{" ++ quoted "__proto__" ++ ":1," ++ quoted "a" ++ ":2}")%string in
  (sort_keys (Object_keys (obj_literal [("10", JStr "a b"); ("9", JNum 1)]))
     = ["10"; "9"]
   /\ sortJsonKeys v = JObj [("9", JNum 1); ("10", JStr "a b")]
   /\ createCompactJson v
      = ("{" ++ quoted "9" ++ ":1," ++ quoted "10" ++ ":" ++ quoted "a b" ++ "}")%string
   /\ String.ltb "9" "10" = false
   /\ String.ltb "10" "9" = true
   /\ no_whitespace (createCompactJson v) = false)
  /\ (JSON_parse t = Some (JObj [("__proto__", JNum 1); ("a", JNum 2)])
      /\ createCompactJson (JObj [("__proto__", JNum 1); ("a", JNum 2)])
         = ("{" ++ quoted "a" ++ ":2}")%string).
Proof. vm_compute. repeat split; reflexivity. Qed.

(** The body that is posted is not in canonical form: for a cancel request
    of the default client the text that [post] sends differs from the
    canonical text of the same body. *)
Lemma posted_body_is_not_canonical :
  exists body,
    @signed_request_body toy_Ed25519 toy_SolanaCli
      (new_SignClient None (KeyBytes (repeat x00 32)) None)
      1700000000000 "cancel_order" [("symbol", JStr "BTC")] None = Ok body
    /\ Object_keys body = ["account"; "signature"; "timestamp"; "expiry_window"; "symbol"]
    /\ JSON_stringify (JObj body) <> createCompactJson (JObj body).
Proof.
  eexists. split; [vm_compute; reflexivity|]. split; [reflexivity|].
  vm_compute. discriminate.
Qed.

(* ================================================================== *)
(** * Part III.  Further properties of the code                        *)
(* ================================================================== *)

(** ** The retry loop, whatever the server does *)

Lemma get_run c endpoint fetch :
  get c endpoint fetch = run_request c (get_request c endpoint) fetch.
Proof. reflexivity. Qed.

Lemma post_run c endpoint body headers fetch :
  post c endpoint body headers fetch =
  run_request c (post_request c endpoint body headers) fetch.
Proof. reflexivity. Qed.

(** One iteration of the loop. *)
Lemma request_loop_step c req fetch fuel attempt lastError lastStatus :
  request_loop c req fetch (S fuel) attempt lastError lastStatus =
  let pre :=
    if (0 <? attempt)%Z then [Sleep (backoff c (attempt - 1)); Fetch req]
    else [Fetch req] in
  match attempt_outcome c fetch attempt lastStatus with
  | Ok data => (pre, Ok data)
  | Err (e, ls) =>
      match on_catch c attempt e ls with
      | (sleeps, Some thrown) => (pre ++ sleeps, Err thrown)
      | (sleeps, None) =>
          (pre ++ sleeps
             ++ fst (request_loop c req fetch fuel (attempt + 1) (Some e) ls),
           snd (request_loop c req fetch fuel (attempt + 1) (Some e) ls))
      end
  end.
Proof.
  cbn [request_loop]. unfold attempt_outcome.
  destruct (fetch attempt) as [r|e].
  - destruct (after_response c attempt r) as [d|e]; [reflexivity|].
    destruct (on_catch c attempt e (Some (status r))) as [sleeps [thrown|]];
      [reflexivity|].
    destruct (request_loop c req fetch fuel (attempt + 1) (Some e) (Some (status r)));
      reflexivity.
  - destruct (on_catch c attempt e lastStatus) as [sleeps [thrown|]]; [reflexivity|].
    destruct (request_loop c req fetch fuel (attempt + 1) (Some e) lastStatus);
      reflexivity.
Qed.

Lemma request_loop_bound c req fetch :
  forall fuel attempt lastError lastStatus,
    (count_fetches (fst (request_loop c req fetch fuel attempt lastError lastStatus))
     <= fuel)%nat.
Proof.
  induction fuel as [|fuel IH]; intros attempt lastError lastStatus; [cbn; lia|].
  rewrite request_loop_step. cbn zeta.
  destruct (attempt_outcome c fetch attempt lastStatus) as [d|[e ls]].
  - cbn [fst]. rewrite count_fetches_pre. lia.
  - pose proof (count_fetches_sleeps c attempt e ls) as Hs.
    destruct (on_catch c attempt e ls) as [sleeps [thrown|]]; cbn [fst] in *.
    + rewrite count_fetches_app, count_fetches_pre, Hs. lia.
    + rewrite !count_fetches_app, count_fetches_pre, Hs.
      specialize (IH (attempt + 1)%Z (Some e) ls). lia.
Qed.

Lemma request_loop_first c req fetch :
  forall fuel attempt lastError lastStatus,
    (0 < fuel)%nat ->
    (1 <= count_fetches
            (fst (request_loop c req fetch fuel attempt lastError lastStatus)))%nat.
Proof.
  intros [|fuel] attempt lastError lastStatus H; [lia|].
  rewrite request_loop_step. cbn zeta.
  destruct (attempt_outcome c fetch attempt lastStatus) as [d|[e ls]].
  - cbn [fst]. rewrite count_fetches_pre. lia.
  - destruct (on_catch c attempt e ls) as [sleeps [thrown|]]; cbn [fst];
      rewrite !count_fetches_app, count_fetches_pre; lia.
Qed.

(** X1.  Whatever the server answers and however the calls of [fetch] fail,
    [get] and [post] call [fetch] at most [retryAttempts + 1] times, and at
    least once when [retryAttempts] is not negative. *)
Theorem X1_requests_bounded :
  forall (c : BaseClient) (endpoint : string) (body : json) (headers : props)
         (fetch : Z -> FetchResult),
    (count_fetches (fst (get c endpoint fetch)) <= Z.to_nat (retryAttempts c + 1))%nat
    /\ (count_fetches (fst (post c endpoint body headers fetch))
        <= Z.to_nat (retryAttempts c + 1))%nat
    /\ ((0 <= retryAttempts c)%Z ->
        (1 <= count_fetches (fst (get c endpoint fetch)))%nat /\
        (1 <= count_fetches (fst (post c endpoint body headers fetch)))%nat).
Proof.
  intros c endpoint body headers fetch. rewrite get_run, post_run. unfold run_request.
  split; [apply request_loop_bound|]. split; [apply request_loop_bound|].
  intros H. split; apply request_loop_first; lia.
Qed.

Lemma after_response_Ok c attempt r data :
  after_response c attempt r = Ok data <->
  status r <> 429%Z /\ response_ok r = true /\ body r = Some data.
Proof.
  unfold after_response.
  destruct (Z.eqb_spec (status r) 429) as [E|E].
  - split; [discriminate|]. intros [H _]. contradiction.
  - destruct (response_ok r); cbn [negb].
    + destruct (body r) as [d|]; split.
      * intros H. inversion H. auto.
      * intros [_ [_ H]]. inversion H. reflexivity.
      * discriminate.
      * intros [_ [_ H]]. discriminate.
    + split; [discriminate|]. intros [_ [H _]]. discriminate.
Qed.

Lemma attempt_outcome_Ok c fetch attempt lastStatus data :
  attempt_outcome c fetch attempt lastStatus = Ok data <->
  exists r, fetch attempt = Responds r /\ after_response c attempt r = Ok data.
Proof.
  unfold attempt_outcome. destruct (fetch attempt) as [r|e].
  - destruct (after_response c attempt r) as [d|e] eqn:A; split.
    + intros H. inversion H; subst. eauto.
    + intros [r' [H1 H2]]. inversion H1; subst r'. congruence.
    + discriminate.
    + intros [r' [H1 H2]]. inversion H1; subst r'. congruence.
  - split; [discriminate|]. intros [r [H _]]. discriminate.
Qed.

(** A call that returns has returned the body of the response to its last
    call of [fetch]; no earlier attempt had such a response. *)
Lemma request_loop_success c req fetch :
  forall fuel attempt lastError lastStatus data,
    snd (request_loop c req fetch fuel attempt lastError lastStatus) = Ok data ->
    exists k r,
      (attempt <= k < attempt + Z.of_nat fuel)%Z /\
      fetch k = Responds r /\ after_response c k r = Ok data /\
      count_fetches (fst (request_loop c req fetch fuel attempt lastError lastStatus))
        = Z.to_nat (k - attempt + 1) /\
      (forall j, (attempt <= j < k)%Z ->
                 forall r' d, fetch j = Responds r' -> after_response c j r' <> Ok d).
Proof.
  induction fuel as [|fuel IH]; intros attempt lastError lastStatus data;
    [discriminate|].
  rewrite request_loop_step. cbn zeta.
  destruct (attempt_outcome c fetch attempt lastStatus) as [d|[e ls]] eqn:O.
  - cbn [fst snd]. intros H. inversion H; subst d.
    apply attempt_outcome_Ok in O. destruct O as [r [Hf Ha]].
    exists attempt, r.
    split; [lia|]. split; [exact Hf|]. split; [exact Ha|]. split.
    + rewrite count_fetches_pre. lia.
    + intros j Hj. lia.
  - pose proof (count_fetches_sleeps c attempt e ls) as Hs.
    destruct (on_catch c attempt e ls) as [sleeps [thrown|]]; cbn [fst snd] in *;
      [discriminate|].
    intros H. destruct (IH _ _ _ _ H) as [k [r [Hk [Hf [Ha [Hc Hj]]]]]].
    exists k, r.
    split; [lia|]. split; [exact Hf|]. split; [exact Ha|]. split.
    + rewrite !count_fetches_app, count_fetches_pre, Hs, Hc. lia.
    + intros j Hjk r' d Hfj Haj.
      destruct (Z.eq_dec j attempt) as [->|Hne].
      * assert (A : attempt_outcome c fetch attempt lastStatus = Ok d)
          by (apply attempt_outcome_Ok; eauto).
        congruence.
      * apply (Hj j ltac:(lia) r' d Hfj Haj).
Qed.

(** X2.  When [get] or [post] returns, the value is the JSON body of the
    response to the last call of [fetch], a response with a 2xx status; no
    earlier attempt had received such a response, and no call follows it. *)
Theorem X2_success_is_last_response :
  forall (c : BaseClient) (endpoint : string) (body_sent : json) (headers : props)
         (fetch : Z -> FetchResult) (call : list HttpEvent * result exn json)
         (data : json),
    call = get c endpoint fetch \/ call = post c endpoint body_sent headers fetch ->
    snd call = Ok data ->
    exists k r,
      (0 <= k <= retryAttempts c)%Z /\
      fetch k = Responds r /\
      response_ok r = true /\ body r = Some data /\
      count_fetches (fst call) = Z.to_nat (k + 1) /\
      (forall j r', (0 <= j < k)%Z -> fetch j = Responds r' ->
                    status r' = 429%Z \/ response_ok r' = false \/ body r' = None).
Proof.
  intros c endpoint body_sent headers fetch call data Hcall H.
  assert (R : exists req, call = run_request c req fetch).
  { destruct Hcall as [->| ->]; eexists; reflexivity. }
  destruct R as [req ->]. unfold run_request in *.
  destruct (request_loop_success _ _ _ _ _ _ _ _ H) as [k [r [Hk [Hf [Ha [Hc Hj]]]]]].
  apply after_response_Ok in Ha. destruct Ha as [_ [Hok Hb]].
  exists k, r.
  split; [lia|]. split; [exact Hf|]. split; [exact Hok|]. split; [exact Hb|]. split.
  - rewrite Hc. f_equal. lia.
  - intros j r' Hjk Hfj.
    destruct (Z.eq_dec (status r') 429) as [E|E]; [now left|].
    destruct (response_ok r') eqn:Ok'; [|now right; left].
    destruct (body r') as [d|] eqn:B; [|now right; right].
    exfalso. apply (Hj j ltac:(lia) r' d Hfj). apply after_response_Ok. auto.
Qed.

(** X2 on a server that answers 503 and then 200 with the body [true]: the
    default client returns [true] after two calls. *)
Lemma X2_success_is_last_response_witness :
  let c := new_BaseClient None None None in
  let fetch := fun k : Z =>
    if (k =? 0)%Z
    then Responds {| status := 503; retryAfterHeader := None; body := None |}
    else Responds {| status := 200; retryAfterHeader := None;
                     body := Some (JBool true) |} in
  exists k r,
    fetch k = Responds r /\ body r = Some (JBool true) /\
    count_fetches (fst (get c "/info" fetch)) = Z.to_nat (k + 1).
Proof.
  intros c fetch.
  destruct (X2_success_is_last_response c "/info" JNull [] fetch
              (get c "/info" fetch) (JBool true))
    as [k [r [_ [Hf [_ [Hb [Hc _]]]]]]];
    [left; reflexivity|vm_compute; reflexivity|].
  exists k, r. auto.
Defined.

(** ** Failures that are not responses *)

Lemma attempts_trace_count c req :
  forall n k, count_fetches (attempts_trace c req k n) = n.
Proof.
  induction n as [|n IH]; intros k; cbn [attempts_trace]; [reflexivity|].
  rewrite count_fetches_app, count_fetches_pre, IH. reflexivity.
Qed.

Lemma attempts_trace_sleeps c req :
  forall n k,
    (0 <= k)%Z ->
    sleeps_of (attempts_trace c req k n) =
    (if (0 <? k)%Z then
       match n with
       | O => []
       | S _ => backoff c (k - 1) :: backoff_sleeps c k (n - 1)
       end
     else backoff_sleeps c k (n - 1)).
Proof.
  induction n as [|n IH]; intros k Hk; cbn [attempts_trace].
  - destruct (0 <? k)%Z; reflexivity.
  - rewrite sleeps_of_app, IH by lia.
    replace (0 <? k + 1)%Z with true by (symmetry; apply Z.ltb_lt; lia).
    replace (k + 1 - 1)%Z with k by lia.
    replace (S n - 1)%nat with n by lia.
    destruct n as [|n']; destruct (0 <? k)%Z; cbn [sleeps_of List.app backoff_sleeps];
      rewrite ?app_nil_r; try reflexivity;
      replace (S n' - 1)%nat with n' by lia; reflexivity.
Qed.

(** The loop when every call of [fetch] rejects with the same value and
    [lastStatus] stays what it is. *)
Lemma request_loop_rejecting c req fetch e ls final :
  forall fuel attempt lastError,
    (0 < fuel)%nat ->
    (attempt + Z.of_nat fuel = retryAttempts c + 1)%Z ->
    (forall k, (attempt <= k <= retryAttempts c)%Z -> fetch k = Rejects e) ->
    (forall k, (attempt <= k < retryAttempts c)%Z -> on_catch c k e ls = ([], None)) ->
    on_catch c (retryAttempts c) e ls = ([], Some final) ->
    request_loop c req fetch fuel attempt lastError ls =
    (attempts_trace c req attempt fuel, Err final).
Proof.
  induction fuel as [|fuel IH]; intros attempt lastError Hpos Hsum Hf Hc Hl; [lia|].
  rewrite request_loop_step. cbn zeta. unfold attempt_outcome.
  rewrite Hf by lia. cbn [attempts_trace].
  destruct fuel as [|fuel'].
  - replace attempt with (retryAttempts c) by lia. rewrite Hl. reflexivity.
  - rewrite Hc by lia.
    rewrite (IH (attempt + 1)%Z (Some e)); try lia; try assumption.
    + reflexivity.
    + intros k Hk. apply Hf. lia.
    + intros k Hk. apply Hc. lia.
Qed.

Lemma on_catch_abort c k ls :
  on_catch c k AbortError ls =
  if (k <? retryAttempts c)%Z then ([], None) else ([], Some TimeoutError).
Proof. reflexivity. Qed.

(** X3.  When the timeout aborts every attempt, [get] and [post] call
    [fetch] [retryAttempts + 1] times, sleep [retryDelay * 2^k] before retry
    [k + 1] and nothing else, and throw [TimeoutError]. *)
Theorem X3_timeouts_are_retried :
  forall (c : BaseClient) (endpoint : string) (body : json) (headers : props)
         (fetch : Z -> FetchResult),
    (0 <= retryAttempts c)%Z ->
    (forall k, (0 <= k <= retryAttempts c)%Z -> fetch k = Rejects AbortError) ->
    let n := Z.to_nat (retryAttempts c + 1) in
    get c endpoint fetch =
      (attempts_trace c (get_request c endpoint) 0 n, Err TimeoutError)
    /\ post c endpoint body headers fetch =
      (attempts_trace c (post_request c endpoint body headers) 0 n, Err TimeoutError)
    /\ count_fetches (fst (get c endpoint fetch)) = n
    /\ sleeps_of (fst (get c endpoint fetch)) =
       backoff_sleeps c 0 (Z.to_nat (retryAttempts c)).
Proof.
  intros c endpoint body headers fetch HN Hf n.
  assert (R : forall req,
             run_request c req fetch = (attempts_trace c req 0 n, Err TimeoutError)).
  { intros req. unfold run_request.
    apply (request_loop_rejecting c req fetch AbortError None TimeoutError).
    - subst n. lia.
    - subst n. lia.
    - exact Hf.
    - intros k Hk. rewrite on_catch_abort.
      replace (k <? retryAttempts c)%Z with true; [reflexivity|].
      symmetry. apply Z.ltb_lt. lia.
    - rewrite on_catch_abort. now rewrite Z.ltb_irrefl. }
  rewrite get_run, post_run, !R. cbn [fst].
  split; [reflexivity|]. split; [reflexivity|].
  split; [apply attempts_trace_count|].
  rewrite attempts_trace_sleeps by lia. cbn. f_equal. subst n. lia.
Qed.

(** X3 on the default client: four calls, then [TimeoutError]. *)
Lemma X3_timeouts_are_retried_witness :
  let c := new_BaseClient None None None in
  snd (get c "/info" (fun _ => Rejects AbortError)) = Err TimeoutError
  /\ sleeps_of (fst (get c "/info" (fun _ => Rejects AbortError)))
     = [1000; 2000; 4000]%Z.
Proof.
  intros c.
  destruct (X3_timeouts_are_retried c "/info" JNull [] (fun _ => Rejects AbortError))
    as [H1 [_ [_ H4]]].
  - vm_compute. discriminate.
  - reflexivity.
  - split; [now rewrite H1|rewrite H4; reflexivity].
Defined.

Lemma on_catch_network_no_status c k :
  on_catch c k FetchFailure None =
  if (k <? retryAttempts c)%Z then ([], None) else ([], Some NetworkError).
Proof. unfold on_catch. cbn. destruct (k <? retryAttempts c)%Z; reflexivity. Qed.

Lemma on_catch_network_stale c k s :
  (500 <= s)%Z ->
  on_catch c k FetchFailure (Some s) =
  if (k <? retryAttempts c)%Z then ([], None) else ([], Some (APIError s)).
Proof.
  intros H. unfold on_catch, isRetryableError. cbn.
  destruct (Z.eqb_spec s 0); [lia|]. cbn.
  destruct (Z.leb_spec 500 s); [|lia]. cbn.
  destruct (k <? retryAttempts c)%Z; reflexivity.
Qed.

(** X4.  When every call of [fetch] fails at the network level, [get] makes
    [retryAttempts + 1] calls and throws [NetworkError].  But when the first
    attempt was answered with a 5xx status and every later call fails at the
    network level, the error thrown in the end is [APIError] with the status
    of that first response: [lastStatus] is not reset between attempts. *)
Theorem X4_network_failure_after_response :
  forall (c : BaseClient) (endpoint : string) (fetch : Z -> FetchResult),
    (0 <= retryAttempts c)%Z ->
    let n := Z.to_nat (retryAttempts c + 1) in
    ((forall k, (0 <= k <= retryAttempts c)%Z -> fetch k = Rejects FetchFailure) ->
     get c endpoint fetch =
       (attempts_trace c (get_request c endpoint) 0 n, Err NetworkError))
    /\ (forall r,
          (0 < retryAttempts c)%Z ->
          fetch 0%Z = Responds r -> (500 <= status r)%Z ->
          (forall k, (1 <= k <= retryAttempts c)%Z -> fetch k = Rejects FetchFailure) ->
          get c endpoint fetch =
            (attempts_trace c (get_request c endpoint) 0 n, Err (APIError (status r)))).
Proof.
  intros c endpoint fetch HN n. rewrite get_run. unfold run_request. fold n. split.
  - intros Hf.
    apply (request_loop_rejecting c _ fetch FetchFailure None NetworkError).
    + subst n. lia.
    + subst n. lia.
    + exact Hf.
    + intros k Hk. rewrite on_catch_network_no_status.
      replace (k <? retryAttempts c)%Z with true; [reflexivity|].
      symmetry. apply Z.ltb_lt. lia.
    + rewrite on_catch_network_no_status. now rewrite Z.ltb_irrefl.
  - intros r Hpos Hf0 Hs Hf.
    assert (En : n = S (Z.to_nat (retryAttempts c))) by (subst n; lia).
    rewrite En. rewrite request_loop_step. cbn zeta. unfold attempt_outcome.
    rewrite Hf0, after_response_not_ok by lia.
    unfold on_catch at 1. rewrite isRetryable_5xx by assumption.
    replace (0 <? retryAttempts c)%Z with true by (symmetry; apply Z.ltb_lt; lia).
    cbn [andb].
    rewrite (request_loop_rejecting c _ fetch FetchFailure (Some (status r))
               (APIError (status r))).
    + reflexivity.
    + lia.
    + lia.
    + intros k Hk. apply Hf. lia.
    + intros k Hk. rewrite on_catch_network_stale by assumption.
      replace (k <? retryAttempts c)%Z with true; [reflexivity|].
      symmetry. apply Z.ltb_lt. lia.
    + rewrite on_catch_network_stale by assumption. now rewrite Z.ltb_irrefl.
Qed.

(** X4 on the default client: a 503, then three network failures, end in
    [APIError 503]. *)
Lemma X4_network_failure_after_response_witness :
  let c := new_BaseClient None None None in
  let fetch := fun k : Z =>
    if (k =? 0)%Z
    then Responds {| status := 503; retryAfterHeader := None; body := None |}
    else Rejects FetchFailure in
  snd (get c "/info" fetch) = Err (APIError 503).
Proof.
  intros c fetch.
  destruct (X4_network_failure_after_response c "/info" fetch) as [_ H].
  - vm_compute. discriminate.
  - rewrite (H {| status := 503; retryAfterHeader := None; body := None |}).
    + reflexivity.
    + reflexivity.
    + reflexivity.
    + vm_compute. discriminate.
    + intros k Hk. unfold fetch.
      destruct (Z.eqb_spec k 0); [lia|reflexivity].
Defined.

(** ** Responses that cannot be used, and a loop that never runs *)

(** X5.  A response with a 2xx status whose body is not JSON is not retried:
    after that single call, [get] and [post] throw [APIError] with the 2xx
    status. *)
Theorem X5_unparsable_success_is_api_error :
  forall (c : BaseClient) (endpoint : string) (body_sent : json) (headers : props)
         (fetch : Z -> FetchResult) (r : Response),
    (0 <= retryAttempts c)%Z ->
    fetch 0%Z = Responds r -> response_ok r = true -> body r = None ->
    get c endpoint fetch =
      ([Fetch (get_request c endpoint)], Err (APIError (status r)))
    /\ post c endpoint body_sent headers fetch =
      ([Fetch (post_request c endpoint body_sent headers)], Err (APIError (status r))).
Proof.
  intros c endpoint body_sent headers fetch r HN Hf Hok Hb.
  assert (Hs : (200 <= status r <= 299)%Z).
  { unfold response_ok in Hok. apply andb_true_iff in Hok.
    destruct Hok as [A B]. apply Z.leb_le in A, B. lia. }
  assert (R : forall req,
             run_request c req fetch = ([Fetch req], Err (APIError (status r)))).
  { intros req. unfold run_request.
    replace (Z.to_nat (retryAttempts c + 1)) with (S (Z.to_nat (retryAttempts c)))
      by lia.
    rewrite request_loop_step. cbn zeta. unfold attempt_outcome.
    rewrite Hf. unfold after_response.
    destruct (Z.eqb_spec (status r) 429); [lia|].
    rewrite Hok, Hb. cbn [negb].
    unfold on_catch, isRetryableError. cbn.
    destruct (Z.eqb_spec (status r) 0); [lia|]. cbn.
    destruct (Z.leb_spec 500 (status r)); [lia|]. cbn.
    destruct (Z.eqb_spec (status r) 429); [lia|]. reflexivity. }
  rewrite get_run, post_run, !R. split; reflexivity.
Qed.

(** X5 on a 200 whose body is not JSON. *)
Lemma X5_unparsable_success_is_api_error_witness :
  get (new_BaseClient None None None) "/info"
    (fun _ => Responds {| status := 200; retryAfterHeader := None; body := None |})
  = ([Fetch (get_request (new_BaseClient None None None) "/info")],
     Err (APIError 200)).
Proof.
  refine (proj1 (X5_unparsable_success_is_api_error (new_BaseClient None None None)
                   "/info" JNull []
                   (fun _ => Responds {| status := 200; retryAfterHeader := None;
                                         body := None |})
                   {| status := 200; retryAfterHeader := None; body := None |}
                   _ _ _ _)).
  - vm_compute. discriminate.
  - reflexivity.
  - reflexivity.
  - reflexivity.
Defined.

(** X6.  With a negative [retryAttempts] the loop body never runs: [get] and
    [post] make no call of [fetch] and throw the unset [lastError], that is
    [undefined]. *)
Theorem X6_negative_retry_attempts :
  forall (c : BaseClient) (endpoint : string) (body : json) (headers : props)
         (fetch : Z -> FetchResult),
    (retryAttempts c < 0)%Z ->
    get c endpoint fetch = ([], Err UndefinedThrown)
    /\ post c endpoint body headers fetch = ([], Err UndefinedThrown).
Proof.
  intros c endpoint body headers fetch H. unfold get, post, run_request.
  replace (Z.to_nat (retryAttempts c + 1)) with O by lia. split; reflexivity.
Qed.

(** X6 on a client configured with [retryAttempts: -1]. *)
Lemma X6_negative_retry_attempts_witness :
  let c := new_BaseClient None None
             (Some {| cfg_retryAttempts := Some (-1)%Z; cfg_retryDelay := None |}) in
  get c "/info" (fun _ => Rejects FetchFailure) = ([], Err UndefinedThrown).
Proof.
  intros c.
  refine (proj1 (X6_negative_retry_attempts c "/info" JNull []
                   (fun _ => Rejects FetchFailure) _)).
  vm_compute. reflexivity.
Defined.

(** ** Rate limiting, in general *)

Lemma after_response_rate_limited c attempt r :
  status r = 429%Z ->
  after_response c attempt r = Err (RateLimitError (retryAfterMs c attempt r)).
Proof. intros H. unfold after_response, retryAfterMs. rewrite H. reflexivity. Qed.

Lemma delays_before_pre c req attempt rest pending :
  delays_before
    ((if (0 <? attempt)%Z then [Sleep (backoff c (attempt - 1)); Fetch req]
      else [Fetch req]) ++ rest) pending =
  (pending ++ (if (0 <? attempt)%Z then [backoff c (attempt - 1)] else []))
    :: delays_before rest [].
Proof.
  destruct (0 <? attempt)%Z; cbn [List.app delays_before]; [reflexivity|].
  now rewrite app_nil_r.
Qed.

(** The sleeps before each call when every attempt is answered 429. *)
Lemma request_loop_rate_limited c req fetch wait :
  forall fuel attempt lastError lastStatus pending,
    (0 < fuel)%nat -> (0 <= attempt)%Z ->
    (attempt + Z.of_nat fuel = retryAttempts c + 1)%Z ->
    (forall k, (attempt <= k <= retryAttempts c)%Z ->
               exists r, fetch k = Responds r /\ status r = 429%Z /\
                         number_or (retryAfterMs c k r) (backoff c k) = wait k) ->
    delays_before (fst (request_loop c req fetch fuel attempt lastError lastStatus))
      pending =
    (pending ++ (if (0 <? attempt)%Z then [backoff c (attempt - 1)] else []))
      :: rate_limit_waits c wait attempt (fuel - 1).
Proof.
  induction fuel as [|fuel IH];
    intros attempt lastError lastStatus pending Hpos H0 Hsum Hall; [lia|].
  destruct (Hall attempt ltac:(lia)) as [r [Hf [Hs Hw]]].
  rewrite request_loop_step. cbn zeta. unfold attempt_outcome.
  rewrite Hf, after_response_rate_limited by assumption.
  unfold on_catch.
  destruct fuel as [|fuel'].
  - replace (attempt <? retryAttempts c)%Z with false
      by (symmetry; apply Z.ltb_ge; lia).
    cbn [fst]. rewrite delays_before_pre. reflexivity.
  - replace (attempt <? retryAttempts c)%Z with true
      by (symmetry; apply Z.ltb_lt; lia).
    cbn [fst]. rewrite delays_before_pre. cbn [List.app delays_before].
    rewrite (IH (attempt + 1)%Z); [|lia|lia|lia|intros k Hk; apply Hall; lia].
    replace (0 <? attempt + 1)%Z with true by (symmetry; apply Z.ltb_lt; lia).
    replace (attempt + 1 - 1)%Z with attempt by lia.
    replace (S (S fuel') - 1)%nat with (S fuel') by lia.
    replace (S fuel' - 1)%nat with fuel' by lia.
    cbn [rate_limit_waits List.app]. rewrite Hw. reflexivity.
Qed.

(** X7.  When every attempt is answered 429, the client sleeps twice before
    each retry: first what the [catch] block takes from the response, then
    the backoff [retryDelay * 2^k] at the head of the next iteration.  With
    a [Retry-After] header the first sleep is 1000 times the integer that
    the header starts with, or the backoff delay when it starts with none or
    with 0; without the header it is the backoff delay, which is then slept
    twice. *)
Theorem X7_rate_limit_sleeps_in_general :
  forall (c : BaseClient) (endpoint : string) (fetch : Z -> FetchResult),
    (0 <= retryAttempts c)%Z ->
    let n := Z.to_nat (retryAttempts c) in
    (forall h,
        h <> EmptyString ->
        (forall k, (0 <= k <= retryAttempts c)%Z ->
                   exists r, fetch k = Responds r /\ status r = 429%Z /\
                             retryAfterHeader r = Some h) ->
        delays_before (fst (get c endpoint fetch)) [] =
        [] :: rate_limit_waits c
                (fun k => number_or (option_map (fun s => s * 1000)%Z (parseInt h))
                            (backoff c k)) 0 n)
    /\ ((forall k, (0 <= k <= retryAttempts c)%Z ->
                   exists r, fetch k = Responds r /\ status r = 429%Z /\
                             retryAfterHeader r = None) ->
        delays_before (fst (get c endpoint fetch)) [] =
        [] :: rate_limit_waits c (backoff c) 0 n).
Proof.
  intros c endpoint fetch HN n. rewrite get_run. unfold run_request. split.
  - intros h Hh Hall.
    rewrite (request_loop_rate_limited c _ fetch
               (fun k => number_or (option_map (fun s => s * 1000)%Z (parseInt h))
                           (backoff c k))); try lia.
    + replace (Z.to_nat (retryAttempts c + 1) - 1)%nat with n by (subst n; lia).
      reflexivity.
    + intros k Hk. destruct (Hall k Hk) as [r [Hf [Hs Hr]]].
      exists r. split; [exact Hf|]. split; [exact Hs|].
      unfold retryAfterMs. rewrite Hr.
      destruct h; [contradiction|reflexivity].
  - intros Hall.
    rewrite (request_loop_rate_limited c _ fetch (backoff c)); try lia.
    + replace (Z.to_nat (retryAttempts c + 1) - 1)%nat with n by (subst n; lia).
      reflexivity.
    + intros k Hk. destruct (Hall k Hk) as [r [Hf [Hs Hr]]].
      exists r. split; [exact Hf|]. split; [exact Hs|].
      unfold retryAfterMs. rewrite Hr. cbn.
      destruct (backoff c k =? 0)%Z eqn:E; [|reflexivity].
      apply Z.eqb_eq in E. now rewrite E.
Qed.

(** X7 on the default client and a server that answers 429 with
    [Retry-After: 2] each time. *)
Lemma X7_rate_limit_sleeps_in_general_witness :
  let c := new_BaseClient None None None in
  let fetch := fun _ : Z =>
    Responds {| status := 429; retryAfterHeader := Some "2"; body := None |} in
  delays_before (fst (get c "/info" fetch)) [] =
  [[]; [2000; 1000]; [2000; 2000]; [2000; 4000]]%Z.
Proof.
  intros c fetch.
  destruct (X7_rate_limit_sleeps_in_general c "/info" fetch) as [H _].
  - vm_compute. discriminate.
  - rewrite (H "2").
    + reflexivity.
    + discriminate.
    + intros k _. eexists. repeat split.
Defined.

(** ** The base URL of a client *)

Lemma list_ascii_of_string_app a b :
  list_ascii_of_string (a ++ b) = list_ascii_of_string a ++ list_ascii_of_string b.
Proof. induction a as [|x a IH]; cbn; [reflexivity|now rewrite IH]. Qed.

Lemma string_of_list_ascii_app l1 l2 :
  string_of_list_ascii (l1 ++ l2) =
  (string_of_list_ascii l1 ++ string_of_list_ascii l2)%string.
Proof. induction l1 as [|x l1 IH]; cbn; [reflexivity|now rewrite IH]. Qed.

Lemma rev_string_app a b :
  rev_string (a ++ b) = (rev_string b ++ rev_string a)%string.
Proof.
  unfold rev_string.
  now rewrite list_ascii_of_string_app, rev_app_distr, string_of_list_ascii_app.
Qed.

Lemma rev_string_involutive s : rev_string (rev_string s) = s.
Proof.
  unfold rev_string.
  now rewrite list_ascii_of_string_of_list_ascii, rev_involutive,
    string_of_list_ascii_of_string.
Qed.

Lemma prefix_app p r : String.prefix p (p ++ r) = true.
Proof.
  induction p as [|a p IH]; cbn.
  - destruct r; reflexivity.
  - destruct (ascii_dec a a); [exact IH|contradiction].
Qed.

Lemma prefix_split p :
  forall s, String.prefix p s = true -> exists r, s = (p ++ r)%string.
Proof.
  induction p as [|a p IH]; intros s H.
  - exists s. reflexivity.
  - destruct s as [|b s]; [discriminate|]. cbn in H.
    destruct (ascii_dec a b) as [->|]; [|discriminate].
    destruct (IH s H) as [r ->]. exists r. reflexivity.
Qed.

Lemma endsWith_app x p : endsWith (x ++ p) p = true.
Proof. unfold endsWith, startsWith. rewrite rev_string_app. apply prefix_app. Qed.

Lemma endsWith_split s p :
  endsWith s p = true -> exists root, s = (root ++ p)%string.
Proof.
  unfold endsWith, startsWith. intros H.
  destruct (prefix_split _ _ H) as [r Hr]. exists (rev_string r).
  rewrite <- (rev_string_involutive s), Hr, rev_string_app.
  now rewrite rev_string_involutive.
Qed.

Lemma drop_last_app x (c : ascii) :
  drop_last (x ++ String c EmptyString) = x.
Proof.
  unfold drop_last. rewrite rev_string_app. cbn. apply rev_string_involutive.
Qed.

Lemma endsWith_snoc x p (c : ascii) :
  endsWith (x ++ String c EmptyString) (p ++ String c EmptyString) = endsWith x p.
Proof.
  unfold endsWith, startsWith. rewrite !rev_string_app. cbn.
  destruct (ascii_dec c c); [reflexivity|contradiction].
Qed.

Lemma endsWith_last_differs x p (c d : ascii) :
  c <> d ->
  endsWith (x ++ String c EmptyString) (p ++ String d EmptyString) = false.
Proof.
  intros H. unfold endsWith, startsWith. rewrite !rev_string_app. cbn.
  destruct (ascii_dec d c); [congruence|reflexivity].
Qed.

Lemma baseUrl_normal b :
  endsWith b "/api/v1" = true ->
  forall timeout config, baseUrl (new_BaseClient (Some b) timeout config) = b.
Proof.
  intros H timeout config. unfold new_BaseClient. cbn [baseUrl].
  destruct b as [|x b]; [discriminate|]. cbn [truthy_string]. now rewrite H.
Qed.

Lemma baseUrl_suffix baseUrl_given timeout config :
  endsWith (baseUrl (new_BaseClient baseUrl_given timeout config)) "/api/v1" = true.
Proof.
  unfold new_BaseClient. cbn [baseUrl].
  destruct (truthy_string baseUrl_given) as [b|]; [|reflexivity].
  destruct (endsWith b "/api/v1") eqn:H1; [exact H1|].
  destruct (endsWith b "/api/v1/") eqn:H2.
  - destruct (endsWith_split _ _ H2) as [root ->].
    change "/api/v1/" with ("/api/v1" ++ "/")%string.
    rewrite <- string_app_assoc, drop_last_app. apply endsWith_app.
  - apply endsWith_app.
Qed.

(** X8.  The base URL of a client always ends with [/api/v1], whatever URL
    was configured; a URL that ends with [/api/v1] is kept as it is, so the
    base URL of a client configures the same base URL again; and one
    trailing slash after a URL that has none makes no difference. *)
Theorem X8_base_url_normal_form :
  forall (baseUrl_given : option string) (timeout : option Z)
         (config : option PacificaConfig),
    let c := new_BaseClient baseUrl_given timeout config in
    (exists root, baseUrl c = (root ++ "/api/v1")%string)
    /\ (forall timeout' config',
          baseUrl (new_BaseClient (Some (baseUrl c)) timeout' config') = baseUrl c)
    /\ (forall b,
          b <> EmptyString -> endsWith b "/" = false ->
          baseUrl (new_BaseClient (Some (b ++ "/")%string) timeout config) =
          baseUrl (new_BaseClient (Some b) timeout config)).
Proof.
  intros given timeout config c.
  assert (E : endsWith (baseUrl c) "/api/v1" = true) by apply baseUrl_suffix.
  split; [now apply endsWith_split|]. split.
  - intros timeout' config'. now apply baseUrl_normal.
  - intros b Hb Hs. unfold new_BaseClient. cbn [baseUrl].
    assert (T1 : truthy_string (Some (b ++ "/")%string) = Some (b ++ "/")%string)
      by (destruct b; [contradiction|reflexivity]).
    assert (T2 : truthy_string (Some b) = Some b)
      by (destruct b; [contradiction|reflexivity]).
    rewrite T1, T2.
    assert (A1 : endsWith (b ++ "/") "/api/v1" = false)
      by (apply (endsWith_last_differs b "/api/v" "/" "1"); discriminate).
    assert (A2 : endsWith (b ++ "/") "/api/v1/" = endsWith b "/api/v1")
      by (apply (endsWith_snoc b "/api/v1" "/")).
    assert (A3 : endsWith (b ++ "/") "/" = true) by apply endsWith_app.
    assert (A4 : drop_last (b ++ "/") = b) by apply drop_last_app.
    rewrite A1, A2, A3, A4, Hs.
    destruct (endsWith b "/api/v1") eqn:H1; [reflexivity|].
    destruct (endsWith b "/api/v1/") eqn:H2; [|reflexivity].
    destruct (endsWith_split _ _ H2) as [root Hr].
    assert (Hc : endsWith b "/" = true).
    { rewrite Hr. change "/api/v1/" with ("/api/v1" ++ "/")%string.
      rewrite <- string_app_assoc. apply endsWith_app. }
    congruence.
Qed.

(** ** Hexadecimal keys and signatures *)

Lemma hex_decode_byte b rest :
  hex_decode (String (hex_digit (Byte.to_N b / 16))
                (String (hex_digit (Byte.to_N b mod 16)) rest)) =
  b :: hex_decode rest.
Proof. destruct b; reflexivity. Qed.

(** Reading back the hexadecimal text of a buffer gives the buffer. *)
Lemma hex_decode_encode bs : hex_decode (hex_encode bs) = bs.
Proof.
  induction bs as [|b bs IH]; [reflexivity|].
  cbn [hex_encode]. now rewrite hex_decode_byte, IH.
Qed.

Lemma hex_encode_length bs : String.length (hex_encode bs) = (2 * List.length bs)%nat.
Proof. induction bs as [|b bs IH]; cbn [hex_encode String.length List.length]; lia. Qed.

Lemma hex_encode_no_prefix bs : startsWith (hex_encode bs) "0x" = false.
Proof.
  destruct bs as [|b bs]; [reflexivity|].
  cbn [hex_encode]. destruct b; reflexivity.
Qed.

(** X9.  [verifySignature] reads hexadecimal: given the hexadecimal text of
    a signature and the text that [publicKeyToHex] gives for a public key,
    with or without the prefix [0x], it answers what the primitive [verify]
    answers on the signature, the UTF-8 bytes of the message and the public
    key, and [false] where the primitive throws. *)
Theorem X9_verify_reads_hex :
  forall (E : Ed25519) (message : string) (sig pk : list byte),
    let answer :=
      match verify sig (utf8_encode message) pk with
      | Some b => b
      | None => false
      end in
    verifySignature message (hex_encode sig) (publicKeyToHex pk) = answer
    /\ verifySignature message (hex_encode sig) ("0x" ++ publicKeyToHex pk) = answer.
Proof.
  intros E message sig pk answer. unfold verifySignature, publicKeyToHex.
  assert (P : startsWith ("0x" ++ hex_encode pk) "0x" = true)
    by apply (prefix_app "0x").
  rewrite hex_encode_no_prefix, P.
  change (drop 2 ("0x" ++ hex_encode pk)) with (hex_encode pk).
  rewrite !hex_decode_encode. split; reflexivity.
Qed.

(** ** The account field of a request *)

Lemma accountAddress_of_hex pk :
  List.length pk = 32%nat ->
  accountAddress_of (publicKeyToHex pk) = publicKeyToBase58 pk
  /\ accountAddress_of ("0x" ++ publicKeyToHex pk) = publicKeyToBase58 pk.
Proof.
  intros H. unfold accountAddress_of, publicKeyToHex, publicKeyToBase58.
  assert (P : startsWith ("0x" ++ hex_encode pk) "0x" = true)
    by apply (prefix_app "0x").
  rewrite hex_encode_no_prefix, P.
  change (drop 2 ("0x" ++ hex_encode pk)) with (hex_encode pk).
  rewrite hex_encode_length, H, hex_decode_encode. split; reflexivity.
Qed.

Lemma truthy_hex pk :
  List.length pk = 32%nat ->
  truthy_string (Some (publicKeyToHex pk)) = Some (publicKeyToHex pk).
Proof.
  intros H. pose proof (hex_encode_length pk) as L. unfold publicKeyToHex.
  destruct (hex_encode pk); [cbn in L; lia|reflexivity].
Qed.

Lemma envelope_account account sig now window data :
  obj_get "account" data = None ->
  obj_get "account"
    (obj_spread
       (obj_literal
          ([("account", JStr account); ("signature", JStr sig);
            ("timestamp", JNum now)] ++ expiry_entry window)) data)
  = Some (JStr account).
Proof.
  intros H. rewrite obj_get_spread.
  apply obj_get_rev_None in H. rewrite H.
  unfold obj_literal. rewrite obj_get_spread.
  destruct window; reflexivity.
Qed.

(** X10.  For a payload that has no field named [account] (the payload is
    spread last, so a field of that name would take its place), a client
    without a configured account public key names the account by its own
    public key, but in two encodings: a request signed with the private key
    carries the base-58 text of the public key, a request signed by the
    hardware wallet carries its hexadecimal text, and the two texts
    differ. *)
Theorem X10_account_field_encodings :
  forall (E : Ed25519) (S : SolanaCli) (self : SignClient) (now : Z)
         (operation : string) (data : props) (options : option RequestOptions)
         (keypair : Keypair),
    truthy_string (this_accountPublicKey self) = None ->
    generateKeypair (this_privateKey self) = Ok keypair ->
    List.length (publicKey keypair) = 32%nat ->
    obj_get "account" data = None ->
    (truthy_string (config_field options hardware_wallet_path) = None ->
     exists body,
       signed_request_body self now operation data options = Ok body /\
       obj_get "account" body = Some (JStr (publicKeyToBase58 (publicKey keypair))))
    /\ (forall body,
          truthy_string (config_field options hardware_wallet_path) <> None ->
          signed_request_body self now operation data options = Ok body ->
          obj_get "account" body = Some (JStr (publicKeyToHex (publicKey keypair))))
    /\ publicKeyToHex (publicKey keypair) <> publicKeyToBase58 (publicKey keypair).
Proof.
  intros E S self now operation data options [pk sk] Hacc Hkey Hlen Hdata.
  cbn [publicKey] in *.
  pose proof (truthy_hex pk Hlen) as Ht.
  destruct (accountAddress_of_hex pk Hlen) as [Ha _].
  split; [|split].
  - intros Hhw. unfold signed_request_body. rewrite Hacc, Hkey. cbn [publicKey].
    rewrite Hhw. unfold buildSignedRequest. rewrite Hkey, Ht, Ha.
    eexists. split; [reflexivity|].
    cbn [account signature timestamp expiry_window].
    exact (envelope_account _ _ now (Some (defaultExpiryWindow self)) data Hdata).
  - intros body Hhw. unfold signed_request_body. rewrite Hacc, Hkey. cbn [publicKey].
    destruct (truthy_string (config_field options hardware_wallet_path)) as [path|];
      [|contradiction].
    rewrite Ht. unfold buildSignedRequestWithHardwareWallet.
    destruct (sign_offchain_message path _) as [sig|]; [|discriminate].
    intros H. inversion H; subst body.
    unfold publicKeyToHex. rewrite hex_encode_no_prefix.
    exact (envelope_account (hex_encode pk) sig now
             (Some (defaultExpiryWindow self)) data Hdata).
  - intros Heq. pose proof (bs58_encode_length pk) as L1.
    pose proof (hex_encode_length pk) as L2.
    unfold publicKeyToHex, publicKeyToBase58 in Heq. rewrite <- Heq, L2, Hlen in L1.
    change (32 * 138 / 100 + 1)%nat with 45%nat in L1. lia.
Qed.

(** X10 on the client whose key is 32 zero bytes, with the stand-in
    primitives: the account of a request signed with the key is the base-58
    text of the public key, thirty-two ['1']. *)
Lemma X10_account_field_encodings_witness :
  exists body,
    @signed_request_body toy_Ed25519 toy_SolanaCli
      (new_SignClient None (KeyBytes (repeat x00 32)) None)
      1700000000000 "cancel_order" [("order_id", JNum 42)] None = Ok body
    /\ obj_get "account" body = Some (JStr (repeat_string "1" 32)).
Proof.
  refine (proj1 (X10_account_field_encodings toy_Ed25519 toy_SolanaCli
                   (new_SignClient None (KeyBytes (repeat x00 32)) None)
                   1700000000000 "cancel_order" [("order_id", JNum 42)] None
                   (@keypair_of toy_Ed25519 (repeat x00 32)) _ _ _ _) _);
    reflexivity.
Defined.

(** X11.  A private key that does not resolve fails a signed request before
    any call of [fetch], with the error of [generateKeypair]: always when
    the request is signed with the key, and also for a hardware-wallet
    request of a client without a configured account.  A hardware-wallet
    request of a client with a configured account never reads the key: its
    body is the one that [buildSignedRequestWithHardwareWallet] builds. *)
Theorem X11_unusable_private_key :
  forall (E : Ed25519) (S : SolanaCli) (self : SignClient) (now : Z)
         (fetch : Z -> FetchResult) (endpoint operation : string) (data : props)
         (options : option RequestOptions) (e : exn),
    generateKeypair (this_privateKey self) = Err e ->
    (truthy_string (config_field options hardware_wallet_path) = None \/
     truthy_string (this_accountPublicKey self) = None ->
     makeSignedRequest self now fetch endpoint operation data options = ([], Err e))
    /\ (forall a path,
          truthy_string (this_accountPublicKey self) = Some a ->
          truthy_string (config_field options hardware_wallet_path) = Some path ->
          signed_request_body self now operation data options =
          buildSignedRequestWithHardwareWallet now operation data a path
            (Some (defaultExpiryWindow self))).
Proof.
  intros E S self now fetch endpoint operation data options e Hkey. split.
  - intros H. unfold makeSignedRequest, signed_request_body.
    destruct (truthy_string (this_accountPublicKey self)) as [a|] eqn:Ha.
    + destruct H as [H|H]; [|discriminate]. rewrite H.
      unfold buildSignedRequest. rewrite Hkey. reflexivity.
    + rewrite Hkey. reflexivity.
  - intros a path Ha Hp. unfold signed_request_body. rewrite Ha, Hp.
    assert (T : truthy_string (Some a) = Some a).
    { destruct (this_accountPublicKey self) as [[|x s]|]; cbn in Ha;
        inversion Ha; reflexivity. }
    rewrite T. reflexivity.
Qed.

(** X11 on a client whose key has 31 bytes: the request fails with the
    invalid-length error and [fetch] is not called. *)
Lemma X11_unusable_private_key_witness :
  @makeSignedRequest toy_Ed25519 toy_SolanaCli
    (new_SignClient None (KeyBytes (repeat x00 31)) None) 1700000000000
    (fun _ => Rejects FetchFailure) "/orders/cancel" "cancel_order"
    [("order_id", JNum 42)] None
  = ([], Err (InvalidKeyLength 31)).
Proof.
  refine (proj1 (X11_unusable_private_key toy_Ed25519 toy_SolanaCli
                   (new_SignClient None (KeyBytes (repeat x00 31)) None)
                   1700000000000 (fun _ => Rejects FetchFailure) "/orders/cancel"
                   "cancel_order" [("order_id", JNum 42)] None
                   (InvalidKeyLength 31) _) _).
  - reflexivity.
  - left. reflexivity.
Defined.

(** ** The builder code *)

Lemma obj_get_rev k o :
  NoDup (map fst o) -> obj_get k (List.rev o) = obj_get k o.
Proof.
  induction o as [|[k' v'] o IH]; intros N; [reflexivity|].
  cbn in N. inversion N as [|? ? Hn N']; subst.
  cbn [List.rev obj_get]. rewrite obj_get_app, IH by assumption. cbn [obj_get].
  destruct (String.eqb_spec k k') as [->|Hk].
  - assert (G : obj_get k' o = None) by now apply obj_get_None.
    now rewrite G.
  - destruct (obj_get k o); reflexivity.
Qed.

Lemma obj_get_literal k entries :
  obj_get k (obj_literal entries) = obj_get k (List.rev entries).
Proof.
  unfold obj_literal. rewrite obj_get_spread.
  destruct (obj_get k (List.rev entries)); reflexivity.
Qed.

Lemma truthy_string_nonempty s x : truthy_string s = Some x -> x <> EmptyString.
Proof. destruct s as [[|c s]|]; cbn; intros H; inversion H; discriminate. Qed.

Lemma merged_builder_code self params code :
  truthy_string (builderCode self) = Some code ->
  falsy_field "builder_code" params = true ->
  obj_get "builder_code" (mergeBuilderCode self params) = Some (JStr code).
Proof.
  intros Hc Hf. unfold mergeBuilderCode. rewrite Hc, Hf.
  rewrite obj_get_literal, rev_app_distr. reflexivity.
Qed.

(** X12.  [mergeBuilderCode] never replaces a builder code that the
    parameters carry: parameters with a truthy [builder_code] are returned
    as they are.  Otherwise, when the client has a builder code, the result
    carries it.  Every other property of the parameters is kept, and merging
    twice is merging once. *)
Theorem X12_builder_code_merge :
  forall (self : SignClient) (params : props),
    NoDup (map fst params) ->
    (falsy_field "builder_code" params = false ->
     mergeBuilderCode self params = params)
    /\ (forall code,
          truthy_string (builderCode self) = Some code ->
          falsy_field "builder_code" params = true ->
          obj_get "builder_code" (mergeBuilderCode self params) = Some (JStr code))
    /\ (forall k, k <> "builder_code" ->
                  obj_get k (mergeBuilderCode self params) = obj_get k params)
    /\ mergeBuilderCode self (mergeBuilderCode self params)
       = mergeBuilderCode self params.
Proof.
  intros self params N. split; [|split; [|split]].
  - intros H. unfold mergeBuilderCode. rewrite H.
    destruct (truthy_string (builderCode self)); reflexivity.
  - intros code. apply merged_builder_code.
  - intros k Hk. unfold mergeBuilderCode.
    destruct (truthy_string (builderCode self)) as [code|]; [|reflexivity].
    destruct (falsy_field "builder_code" params); [|reflexivity].
    rewrite obj_get_literal, rev_app_distr. cbn [List.rev List.app obj_get].
    destruct (String.eqb_spec k "builder_code"); [contradiction|].
    now apply obj_get_rev.
  - destruct (truthy_string (builderCode self)) as [code|] eqn:Hc.
    2:{ unfold mergeBuilderCode. rewrite Hc. reflexivity. }
    destruct (falsy_field "builder_code" params) eqn:Hf.
    2:{ unfold mergeBuilderCode. rewrite Hc, Hf, Hf. reflexivity. }
    pose proof (merged_builder_code self params code Hc Hf) as G.
    unfold mergeBuilderCode at 1. rewrite Hc.
    unfold falsy_field at 1. rewrite G. cbn [truthy].
    apply truthy_string_nonempty in Hc.
    destruct (String.eqb_spec code EmptyString); [contradiction|reflexivity].
Qed.

(** X12 on order parameters without a builder code and a client whose
    builder code is [ACME]. *)
Lemma X12_builder_code_merge_witness :
  let self := new_SignClient (Some "ACME") (KeyBytes (repeat x00 32)) None in
  obj_get "builder_code"
    (mergeBuilderCode self [("symbol", JStr "BTC"); ("side", JStr "bid")])
  = Some (JStr "ACME").
Proof.
  intros self.
  refine (proj1 (proj2 (X12_builder_code_merge self
                          [("symbol", JStr "BTC"); ("side", JStr "bid")] _))
            "ACME" _ _).
  - cbn. repeat constructor; cbn; intuition discriminate.
  - reflexivity.
  - reflexivity.
Defined.

(** ** Orders *)

(** Every call of [fetch] that [makeSignedRequest] makes is the [POST] of
    the signed body to the endpoint. *)
Lemma makeSignedRequest_fetch `{Ed25519} `{SolanaCli} self now fetch endpoint
    operation payload options req :
  In (Fetch req)
     (fst (makeSignedRequest self now fetch endpoint operation payload options)) ->
  exists requestBody,
    signed_request_body self now operation payload options = Ok requestBody /\
    req = post_request (base self) endpoint (JObj requestBody)
            (agent_headers
               (string_or (config_field options agent_wallet)
                  (this_agentWalletPublicKey self))).
Proof.
  unfold makeSignedRequest.
  destruct (signed_request_body self now operation payload options) as [b|e];
    [|intros []].
  rewrite post_run. unfold run_request. intros Hin.
  apply request_loop_requests in Hin. exists b. split; [reflexivity|exact Hin].
Qed.

Lemma lift_fetch r req : In (Fetch req) (fst (lift r)) <-> In (Fetch req) (fst r).
Proof. reflexivity. Qed.

Lemma lift_not_order_error r :
  (forall m, snd (lift r) <> Err (PlainError m)) /\
  (forall v, snd (lift r) <> Err (UnsupportedOrderType v)).
Proof. unfold lift. cbn. destruct (snd r); split; intros ?; discriminate. Qed.

(** X13.  [createOrder] sends nothing that fails its checks.  Whenever it
    calls [fetch], the parameters have a side, and: for a limit order (also
    when no order type is given) an amount or a size and a price that does
    not parse to a number at most 0, the request going to [/orders/create];
    for a market order an amount or a size and a slippage, the request going
    to [/orders/create_market]; for a TWAP order an amount, a slippage and a
    duration, the request going to [/orders/twap/create].  And when it
    throws one of its own errors, it has not called [fetch]. *)
Theorem X13_orders_are_checked_before_sending :
  forall (E : Ed25519) (S : SolanaCli) (self : SignClient) (now : Z)
         (fetch : Z -> FetchResult) (params : props)
         (options : option RequestOptions),
    let call := createOrder self now fetch params options in
    (forall req,
        In (Fetch req) (fst call) ->
        method req = "POST" /\
        falsy_field "side" params = false /\
        ((order_type_or_limit params = JStr "limit" /\
          url req = (baseUrl (base self) ++ "/orders/create")%string /\
          (falsy_field "amount" params = false \/ falsy_field "size" params = false) /\
          exists price,
            obj_get "price" params = Some price /\ truthy price = true /\
            le_zero (parseFloat (ToString price)) = false)
         \/ (order_type_or_limit params = JStr "market" /\
             url req = (baseUrl (base self) ++ "/orders/create_market")%string /\
             (falsy_field "amount" params = false \/
              falsy_field "size" params = false) /\
             falsy_field "slippage_percent" params = false)
         \/ (order_type_or_limit params = JStr "twap" /\
             url req = (baseUrl (base self) ++ "/orders/twap/create")%string /\
             falsy_field "amount" params = false /\
             falsy_field "slippage_percent" params = false /\
             falsy_field "duration_in_seconds" params = false)))
    /\ (forall m, snd call = Err (PlainError m) -> fst call = [])
    /\ (forall v, snd call = Err (UnsupportedOrderType v) ->
                  fst call = [] /\ v = order_type_or_limit params).
Proof.
  intros E S self now fetch params options call. subst call. unfold createOrder.
  assert (F : forall endpoint operation payload req,
             In (Fetch req)
                (fst (lift (makeSignedRequest self now fetch endpoint operation
                              payload options))) ->
             method req = "POST" /\
             url req = (baseUrl (base self) ++ endpoint)%string).
  { intros endpoint operation payload req Hin. apply lift_fetch in Hin.
    apply makeSignedRequest_fetch in Hin. destruct Hin as [b [_ ->]].
    split; reflexivity. }
  destruct (order_type_or_limit params) as [ | b | z | t | items | ps ] eqn:Ht;
    try (split; [intros req []|split; [discriminate|]];
         intros v Hv; inversion Hv; auto).
  destruct (String.eqb_spec t "limit") as [->|Hl].
  { unfold createLimitOrder.
    destruct (falsy_field "side" params) eqn:Hside;
      [split; [intros req []|split; [reflexivity|discriminate]]|].
    destruct (falsy_field "amount" params && falsy_field "size" params) eqn:Ha;
      [split; [intros req []|split; [reflexivity|discriminate]]|].
    destruct (obj_get "price" params) as [price|] eqn:Hp;
      [|split; [intros req []|split; [reflexivity|discriminate]]].
    destruct (truthy price) eqn:Htp; cbn [negb];
      [|split; [intros req []|split; [reflexivity|discriminate]]].
    destruct (le_zero (parseFloat (ToString price))) eqn:Hz;
      [split; [intros req []|split; [reflexivity|discriminate]]|].
    split; [|split].
    - intros req Hin. destruct (F _ _ _ _ Hin) as [M U].
      split; [exact M|]. split; [reflexivity|]. left.
      split; [reflexivity|]. split; [exact U|]. split.
      + apply andb_false_iff in Ha. exact Ha.
      + exists price. auto.
    - intros m Hm. exfalso. revert Hm. apply lift_not_order_error.
    - intros v Hv. exfalso. revert Hv. apply lift_not_order_error. }
  destruct (String.eqb_spec t "market") as [->|Hm].
  { unfold createMarketOrder.
    destruct (falsy_field "side" params) eqn:Hside;
      [split; [intros req []|split; [reflexivity|discriminate]]|].
    destruct (falsy_field "amount" params && falsy_field "size" params) eqn:Ha;
      [split; [intros req []|split; [reflexivity|discriminate]]|].
    destruct (falsy_field "slippage_percent" params) eqn:Hsl;
      [split; [intros req []|split; [reflexivity|discriminate]]|].
    split; [|split].
    - intros req Hin. destruct (F _ _ _ _ Hin) as [M U].
      split; [exact M|]. split; [reflexivity|]. right. left.
      split; [reflexivity|]. split; [exact U|]. split; [|reflexivity].
      apply andb_false_iff in Ha. exact Ha.
    - intros m Hm'. exfalso. revert Hm'. apply lift_not_order_error.
    - intros v Hv. exfalso. revert Hv. apply lift_not_order_error. }
  destruct (String.eqb_spec t "twap") as [->|Htw].
  { unfold createTWAPOrder.
    destruct (falsy_field "side" params) eqn:Hside;
      [split; [intros req []|split; [reflexivity|discriminate]]|].
    destruct (falsy_field "amount" params) eqn:Ha;
      [split; [intros req []|split; [reflexivity|discriminate]]|].
    destruct (falsy_field "slippage_percent" params) eqn:Hsl;
      [split; [intros req []|split; [reflexivity|discriminate]]|].
    destruct (falsy_field "duration_in_seconds" params) eqn:Hd;
      [split; [intros req []|split; [reflexivity|discriminate]]|].
    split; [|split].
    - intros req Hin. destruct (F _ _ _ _ Hin) as [M U].
      split; [exact M|]. split; [reflexivity|]. right. right.
      repeat split; auto.
    - intros m Hm'. exfalso. revert Hm'. apply lift_not_order_error.
    - intros v Hv. exfalso. revert Hv. apply lift_not_order_error. }
  split; [intros req []|split; [discriminate|]].
  intros v Hv. inversion Hv. auto.
Qed.

(** X14.  [closePosition] without a size never reaches the network: the
    market order that it builds has neither an amount nor a size, and
    [createMarketOrder] rejects it.  With a size it sends a reduce-only
    market order for that amount whose side is always [ask], with a slippage
    of 0.5. *)
Theorem X14_close_position :
  forall (E : Ed25519) (S : SolanaCli) (self : SignClient) (now : Z)
         (fetch : Z -> FetchResult) (params : ClosePositionParams)
         (options : option RequestOptions),
    (truthy_string (cp_size params) = None ->
     closePosition self now fetch params options =
     ([], Err (PlainError "Order amount or size is required")))
    /\ (forall size,
          truthy_string (cp_size params) = Some size ->
          closePosition self now fetch params options =
          lift (makeSignedRequest self now fetch "/orders/create_market"
                  "create_market_order"
                  (mergeBuilderCode self
                     [("symbol", JStr (cp_market params)); ("side", JStr "ask");
                      ("reduce_only", JBool true); ("slippage_percent", JStr "0.5");
                      ("amount", JStr size)])
                  options)).
Proof.
  intros E S self now fetch params options. unfold closePosition. split.
  - intros ->. reflexivity.
  - intros size Hs. rewrite Hs.
    pose proof (truthy_string_nonempty _ _ Hs) as Hne.
    destruct size as [|c size]; [contradiction|]. reflexivity.
Qed.

(** X14 on a request to close the whole BTC position. *)
Lemma X14_close_position_witness :
  @closePosition toy_Ed25519 toy_SolanaCli
    (new_SignClient None (KeyBytes (repeat x00 32)) None) 1700000000000
    (fun _ => Rejects FetchFailure) {| cp_market := "BTC"; cp_size := None |} None
  = ([], Err (PlainError "Order amount or size is required")).
Proof.
  refine (proj1 (X14_close_position toy_Ed25519 toy_SolanaCli
                   (new_SignClient None (KeyBytes (repeat x00 32)) None)
                   1700000000000 (fun _ => Rejects FetchFailure)
                   {| cp_market := "BTC"; cp_size := None |} None) _).
  reflexivity.
Defined.

(** X15.  The endpoints of [createStopOrder] and [withdraw] start with
    [/api/v1], and so does the end of every base URL: each request of these
    methods goes to a URL in which [/api/v1] occurs twice in a row. *)
Theorem X15_doubled_api_prefix :
  forall (E : Ed25519) (S : SolanaCli) (env_BUILDER_CODE : option string)
         (key : PrivateKey) (config : option SignClientConfig) (now : Z)
         (fetch : Z -> FetchResult) (params : props)
         (options : option RequestOptions) (req : HttpRequest),
    let self := new_SignClient env_BUILDER_CODE key config in
    (In (Fetch req) (fst (createStopOrder self now fetch params options)) ->
     exists root, url req = (root ++ "/api/v1/api/v1/orders/stop/create")%string)
    /\ (In (Fetch req) (fst (withdraw self now fetch params options)) ->
        exists root, url req = (root ++ "/api/v1/api/v1/account/withdraw")%string).
Proof.
  intros E S env key config now fetch params options req self.
  destruct (endsWith_split _ _
              (baseUrl_suffix (config_field config sc_baseUrl)
                 (config_field config sc_timeout)
                 (option_map
                    (fun c => {| cfg_retryAttempts := sc_retryAttempts c;
                                 cfg_retryDelay := sc_retryDelay c |})
                    config))) as [root Hroot].
  split; intros Hin; apply lift_fetch, makeSignedRequest_fetch in Hin;
    destruct Hin as [b [_ ->]]; exists root; cbn [url post_request];
    subst self; cbn [base new_SignClient]; rewrite Hroot;
    now rewrite string_app_assoc.
Qed.

(** ** Batches *)

(** The account that [makeSignedRequest] and [batchOrders] resolve. *)
Lemma signed_action_body `{Ed25519} `{SolanaCli} self a now action :
  match truthy_string (this_accountPublicKey self) with
  | Some a' => Ok a'
  | None =>
      match generateKeypair (this_privateKey self) with
      | Ok keypair => Ok (publicKeyToHex (publicKey keypair))
      | Err e => Err e
      end
  end = Ok a ->
  signed_action self a now action =
  match signed_request_body self now (batch_operation action) (action_data action)
          None with
  | Ok requestBody =>
      Ok (JObj (obj_literal [("type", JStr (action_type action));
                             ("data", JObj requestBody)]))
  | Err e => Err e
  end.
Proof.
  intros Hr. unfold signed_action, signed_request_body. rewrite Hr.
  cbn [config_field truthy_string].
  destruct (buildSignedRequest now (batch_operation action) (action_data action)
              (this_privateKey self) (Some a) (Some (defaultExpiryWindow self)));
    reflexivity.
Qed.

Lemma signed_actions_spec `{Ed25519} `{SolanaCli} self a now_of :
  match truthy_string (this_accountPublicKey self) with
  | Some a' => Ok a'
  | None =>
      match generateKeypair (this_privateKey self) with
      | Ok keypair => Ok (publicKeyToHex (publicKey keypair))
      | Err e => Err e
      end
  end = Ok a ->
  forall actions i entries,
    signed_actions self a now_of i actions = Ok entries ->
    List.length entries = List.length actions /\
    forall j action,
      nth_error actions j = Some action ->
      exists requestBody,
        signed_request_body self (now_of (i + j)%nat) (batch_operation action)
          (action_data action) None = Ok requestBody /\
        nth_error entries j =
          Some (JObj (obj_literal [("type", JStr (action_type action));
                                   ("data", JObj requestBody)])).
Proof.
  intros Hr. induction actions as [|action actions IH]; intros i entries Hs.
  - cbn in Hs. inversion Hs. split; [reflexivity|]. intros [|j] x Hx; discriminate.
  - cbn [signed_actions] in Hs. rewrite (signed_action_body self a _ action Hr) in Hs.
    destruct (signed_request_body self (now_of i) (batch_operation action)
                (action_data action) None) as [b|e] eqn:Hb; [|discriminate].
    destruct (signed_actions self a now_of (S i) actions) as [more|e] eqn:Hm;
      [|discriminate].
    inversion Hs; subst entries. destruct (IH (S i) more Hm) as [L N].
    split; [cbn; now rewrite L|].
    intros [|j] x Hx; cbn [nth_error] in *.
    + inversion Hx; subst x. exists b. rewrite Nat.add_0_r. auto.
    + destruct (N j x Hx) as [b' [B1 B2]]. exists b'.
      replace (i + S j)%nat with (S i + j)%nat by lia. auto.
Qed.

(** X16.  Every call of [fetch] that [batchOrders] makes posts to
    [/orders/batch] one body whose [actions] has one entry per action, in
    order and with the type of the action.  The data of entry [i] is the
    body that [makeSignedRequest] builds for that action alone, signed with
    the private key at the clock reading of that action: as [create_order]
    when the type is [Create] and as [cancel_order] for every other type.
    The hardware wallet of the options is not used. *)
Theorem X16_batch_entries_are_single_requests :
  forall (E : Ed25519) (S : SolanaCli) (self : SignClient) (now_of : nat -> Z)
         (fetch : Z -> FetchResult) (actions : list BatchOrderAction)
         (options : option RequestOptions) (req : HttpRequest),
    In (Fetch req) (fst (batchOrders self now_of fetch actions options)) ->
    method req = "POST" /\
    url req = (baseUrl (base self) ++ "/orders/batch")%string /\
    exists entries,
      req_body req =
        Some (JSON_stringify (JObj (obj_literal [("actions", JArr entries)]))) /\
      List.length entries = List.length actions /\
      forall i action,
        nth_error actions i = Some action ->
        exists requestBody,
          signed_request_body self (now_of i) (batch_operation action)
            (action_data action) None = Ok requestBody /\
          nth_error entries i =
            Some (JObj (obj_literal [("type", JStr (action_type action));
                                     ("data", JObj requestBody)])).
Proof.
  intros E S self now_of fetch actions options req. unfold batchOrders.
  destruct (match truthy_string (this_accountPublicKey self) with
            | Some a' => Ok a'
            | None =>
                match generateKeypair (this_privateKey self) with
                | Ok keypair => Ok (publicKeyToHex (publicKey keypair))
                | Err e => Err e
                end
            end) as [a|e] eqn:Hr; [|intros []].
  destruct (signed_actions self a now_of 0 actions) as [entries|e] eqn:Hs;
    [|intros []].
  rewrite post_run. unfold run_request. intros Hin.
  apply request_loop_requests in Hin. subst req.
  split; [reflexivity|]. split; [reflexivity|].
  exists entries. split; [reflexivity|].
  destruct (signed_actions_spec self a now_of Hr actions 0%nat entries Hs) as [L N].
  split; [exact L|exact N].
Qed.

(** X16 on a batch of one creation and one cancellation, with the stand-in
    primitives and a server that cannot be reached: the request is a [POST]. *)
Lemma X16_batch_entries_are_single_requests_witness :
  let self := new_SignClient None (KeyBytes (repeat x00 32)) None in
  let actions :=
    [ {| action_type := "Create"; action_data := [("symbol", JStr "BTC")] |};
      {| action_type := "Cancel"; action_data := [("order_id", JNum 42)] |} ] in
  let req :=
    post_request (base self) "/orders/batch"
      (JObj (obj_literal
               [("actions",
                 JArr (match @signed_actions toy_Ed25519 self
                               (publicKeyToHex (repeat x00 32))
                               (fun i => 1700000000000 + Z.of_nat i)%Z 0 actions with
                       | Ok entries => entries
                       | Err _ => []
                       end))]))
      (agent_headers None) in
  method req = "POST".
Proof.
  intros self actions req.
  refine (proj1 (X16_batch_entries_are_single_requests toy_Ed25519 toy_SolanaCli self
                   (fun i => 1700000000000 + Z.of_nat i)%Z
                   (fun _ => Rejects FetchFailure) actions None req _)).
  vm_compute. left. reflexivity.
Defined.

(** ** Read requests *)

(** A 4xx response other than 429 ends the call at once. *)
Lemma run_request_4xx c req fetch r :
  (0 <= retryAttempts c)%Z ->
  fetch 0%Z = Responds r -> (400 <= status r < 500)%Z -> status r <> 429%Z ->
  run_request c req fetch = ([Fetch req], Err (APIError (status r))).
Proof.
  intros HN Hf Hs Hne. unfold run_request.
  replace (Z.to_nat (retryAttempts c + 1)) with (S (Z.to_nat (retryAttempts c)))
    by lia.
  rewrite request_loop_step. cbn zeta. unfold attempt_outcome.
  rewrite Hf, after_response_not_ok by lia.
  unfold on_catch. rewrite isRetryable_4xx by assumption. reflexivity.
Qed.

(** X17.  When the server answers the first attempt of a market-data method
    with a 4xx status other than 429, the method makes that single call.
    For a 404 it throws a plain error that names the channel to subscribe
    to instead; for any other such status it throws the [APIError] of
    [get]. *)
Theorem X17_market_data_not_found :
  forall (c : BaseClient) (market : string) (depth limit : option Z)
         (fetch : Z -> FetchResult) (r : Response),
    (0 <= retryAttempts c)%Z ->
    fetch 0%Z = Responds r -> (400 <= status r < 500)%Z -> status r <> 429%Z ->
    let answer (message : string) : result client_exn json :=
      if (status r =? 404)%Z then Err (PlainError message)
      else Err (Thrown (APIError (status r))) in
    (count_fetches (fst (getTicker c market fetch)) = 1%nat /\
     snd (getTicker c market fetch) =
       answer ("Ticker endpoints are not available via REST API. "
               ++ "Please use WebSocketClient.subscribe('ticker:" ++ market
               ++ "') for real-time ticker data.")%string)
    /\ (count_fetches (fst (getOrderBook c market depth fetch)) = 1%nat /\
        snd (getOrderBook c market depth fetch) =
          answer ("Orderbook endpoints are not available via REST API. "
                  ++ "Please use WebSocketClient.subscribe('orderbook:" ++ market
                  ++ "') for real-time orderbook data.")%string)
    /\ (count_fetches (fst (getTrades c market limit fetch)) = 1%nat /\
        snd (getTrades c market limit fetch) =
          answer ("Trades endpoints are not available via REST API. "
                  ++ "Please use WebSocketClient.subscribe('trades:" ++ market
                  ++ "') for real-time trades data.")%string)
    /\ (count_fetches (fst (getMarketInfo c (Some market) fetch)) = 1%nat /\
        exists message, snd (getMarketInfo c (Some market) fetch) = answer message)
    /\ (count_fetches (fst (getTickers c fetch)) = 1%nat /\
        exists message, snd (getTickers c fetch) = answer message).
Proof.
  intros c market depth limit fetch r HN Hf Hs Hne answer.
  unfold getTicker, getOrderBook, getTrades, getMarketInfo, getTickers, get_with.
  rewrite !(run_request_4xx c _ fetch r HN Hf Hs Hne).
  unfold not_found_as, answer. cbn [fst snd count_fetches].
  repeat split; try (eexists; reflexivity).
Qed.

(** X17 on a server that answers 404: [getTicker] throws the plain error
    after one call. *)
Lemma X17_market_data_not_found_witness :
  let c := new_ApiClient None in
  let fetch := fun _ : Z =>
    Responds {| status := 404; retryAfterHeader := None; body := None |} in
  count_fetches (fst (getTicker c "BTC" fetch)) = 1%nat.
Proof.
  intros c fetch.
  refine (proj1 (proj1 (X17_market_data_not_found c "BTC" None None fetch
                          {| status := 404; retryAfterHeader := None; body := None |}
                          _ _ _ _))).
  - vm_compute. discriminate.
  - reflexivity.
  - cbn. lia.
  - cbn. discriminate.
Defined.

Lemma get_with_fetch c endpoint params fetch req :
  In (Fetch req) (fst (get_with c endpoint params fetch)) ->
  method req = "GET" /\ url req = get_url c endpoint params /\ req_body req = None.
Proof.
  unfold get_with, run_request. intros Hin.
  apply request_loop_requests in Hin. subst req. repeat split.
Qed.

(** X18.  The account methods make no request without an account:
    [getAccountInfo] and [getAccountHistory] on the empty account, and
    [getBalance] with neither account nor currency, throw before any call of
    [fetch].  With an account, every call of [getAccountInfo] is a [GET] of
    [/account?account=] followed by the encoded account, and [getBalance]
    without a currency is that same request.  Every call of
    [getOrderHistory] is a [GET] of [/orders/history] with the account and,
    when it is not 0, the limit: the market argument is never sent. *)
Theorem X18_account_requests :
  forall (c : BaseClient) (account : string) (market cursor : option string)
         (limit : option Z) (fetch : Z -> FetchResult),
    getAccountInfo c "" fetch =
      ([], Err (PlainError "Account parameter is required for getAccountInfo()"))
    /\ getAccountHistory c "" limit cursor fetch =
      ([], Err (PlainError "Account parameter is required for getAccountHistory()"))
    /\ getBalance c None None fetch =
      ([], Err (PlainError "Account parameter is required for getBalance()"))
    /\ getBalance c (Some "") (Some "") fetch =
      ([], Err (PlainError "Account parameter is required for getBalance()"))
    /\ (account <> EmptyString ->
        getBalance c (Some account) None fetch = getAccountInfo c account fetch /\
        forall req,
          In (Fetch req) (fst (getAccountInfo c account fetch)) ->
          method req = "GET" /\
          url req = (baseUrl c ++ "/account?account=" ++ form_encode account)%string)
    /\ (forall req,
          In (Fetch req) (fst (getOrderHistory c account market limit fetch)) ->
          method req = "GET" /\
          url req =
            (baseUrl c ++ "/orders/history?account=" ++ form_encode account
             ++ match limit with
                | Some z =>
                    if (z =? 0)%Z then ""
                    else "&limit=" ++ form_encode (write_number z "")
                | None => ""
                end)%string).
Proof.
  intros c account market cursor limit fetch.
  split; [reflexivity|]. split; [reflexivity|]. split; [reflexivity|].
  split; [reflexivity|]. split.
  - intros Hne. split.
    + unfold getBalance. destruct account; [contradiction|reflexivity].
    + intros req. unfold getAccountInfo.
      destruct (String.eqb_spec account EmptyString); [contradiction|].
      intros Hin. apply lift_fetch, get_with_fetch in Hin.
      destruct Hin as [M [U _]]. split; [exact M|]. rewrite U.
      cbn [get_url URLSearchParams_toString]. now rewrite string_app_nil_r.
  - intros req Hin. unfold getOrderHistory in Hin.
    apply lift_fetch, get_with_fetch in Hin. destruct Hin as [M [U _]].
    split; [exact M|]. rewrite U.
    destruct limit as [z|]; [destruct (z =? 0)%Z|];
      cbn [List.app get_url URLSearchParams_toString];
      rewrite ?string_app_nil_r, ?string_app_assoc; reflexivity.
Qed.

(** X18 on the account [alice]. *)
Lemma X18_account_requests_witness :
  getBalance (new_ApiClient None) (Some "alice") None (fun _ => Rejects AbortError)
  = getAccountInfo (new_ApiClient None) "alice" (fun _ => Rejects AbortError).
Proof.
  refine (proj1 (proj1 (proj2 (proj2 (proj2 (proj2
            (X18_account_requests (new_ApiClient None) "alice" None None None
               (fun _ => Rejects AbortError)))))) _)).
  discriminate.
Defined.

(** ** Query strings *)

Lemma all_chars_app p a b :
  all_chars p (a ++ b) = all_chars p a && all_chars p b.
Proof.
  induction a as [|c a IH]; cbn; [reflexivity|]. now rewrite IH, andb_assoc.
Qed.

Lemma count_char_app c a b :
  count_char c (a ++ b) = (count_char c a + count_char c b)%nat.
Proof.
  induction a as [|d a IH]; cbn; [reflexivity|].
  destruct (Ascii.eqb c d); cbn; now rewrite IH.
Qed.

(** The encoding of a text has only letters, digits, [*], [-], [.], [_],
    [+] and [%]. *)
Lemma form_encode_bytes_chars bs :
  all_chars query_char (form_encode_bytes bs) = true
  /\ count_char "=" (form_encode_bytes bs) = O
  /\ count_char "&" (form_encode_bytes bs) = O.
Proof.
  induction bs as [|b bs [IH1 [IH2 IH3]]]; [repeat split|].
  destruct b; cbn; rewrite ?IH1, ?IH2, ?IH3; repeat split.
Qed.

(** X19.  The query string that [get] builds from its parameters has only
    letters, digits and the characters [*], [-], [.], [_], [+], [%], [&]
    and [=]; it has one [=] per parameter and one [&] between two
    parameters.  Whatever the names and values, they add no parameter and
    end no query. *)
Theorem X19_query_string_is_safe :
  forall (params : list (string * string)),
    all_chars query_char (URLSearchParams_toString params) = true
    /\ count_char "=" (URLSearchParams_toString params) = List.length params
    /\ count_char "&" (URLSearchParams_toString params) = (List.length params - 1)%nat.
Proof.
  induction params as [|[name value] params [IH1 [IH2 IH3]]]; [repeat split|].
  destruct (form_encode_bytes_chars (utf8_encode name)) as [N1 [N2 N3]].
  destruct (form_encode_bytes_chars (utf8_encode value)) as [V1 [V2 V3]].
  assert (E : URLSearchParams_toString ((name, value) :: params) =
              (form_encode name ++ "=" ++ form_encode value
               ++ match params with
                  | [] => ""
                  | _ => String "&" (URLSearchParams_toString params)
                  end)%string) by reflexivity.
  rewrite E. clear E. unfold form_encode.
  rewrite !all_chars_app, !count_char_app, N1, N2, N3, V1, V2, V3.
  destruct params as [|p params].
  - repeat split.
  - remember (URLSearchParams_toString (p :: params)) as q eqn:Eq.
    cbn [List.length] in *. cbn [all_chars count_char].
    rewrite IH1, IH2, IH3. cbn. repeat split; lia.
Qed.

(** ** The streaming transport: reconnection *)

Section Reconnection.

Context {U : Type}.
Variable run : HandlerId -> json -> U -> U * option exn.

Lemma cancel_timer_delays t l :
  Forall (fun x : Z * bool => (fst x <= 60000)%Z) l ->
  Forall (fun x : Z * bool => (fst x <= 60000)%Z) (cancel_timer t l).
Proof.
  intros H. unfold cancel_timer.
  destruct (nth_error l t) as [[d b]|] eqn:E; [|exact H].
  rewrite Forall_forall in *. intros x Hx.
  rewrite !in_app_iff in Hx. destruct Hx as [Hx|[Hx|Hx]].
  - apply H. rewrite <- (firstn_skipn t l). apply in_or_app. now left.
  - cbn in Hx. destruct Hx as [<-|[]]. cbn.
    apply nth_error_In in E. apply (H _ E).
  - apply H. rewrite <- (firstn_skipn (S t) l). apply in_or_app. now right.
Qed.

Lemma cancel_timer_length t (l : list (Z * bool)) :
  List.length (cancel_timer t l) = List.length l.
Proof.
  unfold cancel_timer. destruct (nth_error l t) as [[d b]|] eqn:E; [|reflexivity].
  assert (t < List.length l)%nat by (apply nth_error_Some; congruence).
  rewrite !length_app, firstn_length_le, length_skipn by lia. cbn. lia.
Qed.

Lemma set_socket_length i r l :
  List.length (set_socket i r l) = List.length l.
Proof.
  unfold set_socket. destruct (nth_error l i) eqn:E; [|reflexivity].
  assert (i < List.length l)%nat by (apply nth_error_Some; congruence).
  rewrite !length_app, firstn_length_le, length_skipn by lia. cbn. lia.
Qed.

Lemma close_socket_length i l :
  List.length (close_socket i l) = List.length l.
Proof.
  unfold close_socket. destruct (nth_error l i) as [[]|]; try reflexivity;
    apply set_socket_length.
Qed.

Lemma set_add_NoDup c s : NoDup s -> NoDup (set_add c s).
Proof.
  intros H. unfold set_add. destruct (existsb (String.eqb c) s) eqn:E; [exact H|].
  apply NoDup_app; [exact H|repeat constructor; intros []|].
  intros x Hx [<-|[]].
  assert (T : existsb (String.eqb c) s = true).
  { apply existsb_exists. exists c. split; [exact Hx|apply String.eqb_refl]. }
  congruence.
Qed.

Lemma set_delete_NoDup c s : NoDup s -> NoDup (set_delete c s).
Proof. intros H. unfold set_delete. now apply NoDup_filter. Qed.

(** What [handleReconnect] does: nothing to the client and the timers, or
    one more attempt, below the bound, and one more timer, of at most a
    minute. *)
Lemma handleReconnect_effect (w : @World U) :
  let w' := fst (handleReconnect run w) in
  config (client w') = config (client w)
  /\ subscriptions (client w') = subscriptions (client w)
  /\ ws (client w') = ws (client w)
  /\ isConnecting (client w') = isConnecting (client w)
  /\ sockets w' = sockets w
  /\ ((reconnectAttempts (client w') = reconnectAttempts (client w)
       /\ reconnectTimer (client w') = reconnectTimer (client w)
       /\ timers w' = timers w
       /\ (reconnect (config (client w)) = false
           \/ (maxReconnectAttempts (config (client w))
               <= reconnectAttempts (client w))%Z))
      \/ (reconnect (config (client w)) = true
          /\ (reconnectAttempts (client w)
              < maxReconnectAttempts (config (client w)))%Z
          /\ reconnectAttempts (client w') = (reconnectAttempts (client w) + 1)%Z
          /\ reconnectTimer (client w') = Some (List.length (timers w))
          /\ exists delay,
               (delay <= 60000)%Z /\ timers w' = timers w ++ [(delay, true)])).
Proof.
  unfold handleReconnect.
  destruct (reconnect (config (client w))) eqn:R; cbn [negb].
  2:{ cbn. repeat split. left. repeat split. now left. }
  destruct (Z.leb_spec (maxReconnectAttempts (config (client w)))
              (reconnectAttempts (client w))) as [L|L].
  - pose proof (emit_spec run E_error (error_data NotConnected) w)
      as [_ [_ [C [S [_ T]]]]].
    rewrite C. repeat split; try assumption. left. repeat split; auto.
  - unfold bind, update.
    match goal with |- context [emit run ?e ?d ?x] =>
      pose proof (emit_spec run e d x) as [Er [_ [C [S [_ T]]]]];
      destruct (emit run e d x) as [w2 r2] end.
    cbn [fst snd] in *. subst r2. cbn. rewrite C, S, T. cbn.
    repeat split. right. repeat split; try assumption.
    eexists. split; [|reflexivity]. apply Z.le_min_r.
Qed.

Lemma connect_effect (w : @World U) :
  let w' := fst (connect w) in
  config (client w') = config (client w)
  /\ reconnectAttempts (client w') = reconnectAttempts (client w)
  /\ subscriptions (client w') = subscriptions (client w)
  /\ timers w' = timers w.
Proof.
  unfold connect. destruct (is_open w); [cbn; auto|].
  destruct (isConnecting (client w)); cbn; auto.
Qed.

Lemma perform_config a (w : @World U) :
  config (client (fst (perform run a w))) = config (client w).
Proof.
  destruct a; cbn [perform].
  - apply connect_effect.
  - unfold disconnect, update. cbn.
    destruct (reconnectTimer (client w)); cbn;
      match goal with |- context [ws ?c] => destruct (ws c) end; reflexivity.
  - pose proof (subscribe_client run channel w) as [A _]. rewrite A. reflexivity.
  - unfold unsubscribe. destruct (is_open w) eqn:Ho; cbn [negb]; [|reflexivity].
    destruct (is_open_ws w Ho) as [i [Hws _]].
    unfold bind, send, update. rewrite Ho, Hws. reflexivity.
  - reflexivity.
  - reflexivity.
  - unfold bind, update, on_open. cbn [fst snd]. unfold bind, update.
    match goal with |- context [emit run ?e ?d ?x] =>
      pose proof (emit_client run e d x) as E; destruct (emit run e d x) as [w2 [[]|e2]] end;
    cbn [fst snd] in *.
    + destruct (forEach_subscribe_client run (subscriptions (client w2)) w2) as [A _];
        [auto|]. rewrite A, E. reflexivity.
    + rewrite E. reflexivity.
  - unfold bind. now rewrite on_message_client.
  - unfold bind, update, on_error. cbn [fst snd]. unfold bind, update.
    now rewrite emit_client.
  - unfold bind, update, on_close. cbn [fst snd]. unfold bind, update.
    match goal with |- context [emit run ?e ?d ?x] =>
      pose proof (emit_client run e d x) as E; destruct (emit run e d x) as [w2 [[]|e2]] end;
    cbn [fst snd] in *.
    + destruct (handleReconnect_effect w2) as [A _]. rewrite A, E. reflexivity.
    + rewrite E. reflexivity.
  - unfold bind, update. cbn [fst snd].
    match goal with |- context [connect ?x] =>
      destruct (connect_effect x) as [A _]; rewrite A end. reflexivity.
Qed.

Lemma perform_attempts a (w : @World U) :
  let c := client w in
  let c' := client (fst (perform run a w)) in
  reconnectAttempts c' = reconnectAttempts c
  \/ reconnectAttempts c' = 0%Z
  \/ ((reconnectAttempts c < maxReconnectAttempts (config c))%Z
      /\ reconnectAttempts c' = (reconnectAttempts c + 1)%Z).
Proof.
  destruct a; cbn [perform]; cbn zeta.
  - left. apply connect_effect.
  - left. unfold disconnect, update. cbn.
    destruct (reconnectTimer (client w)); cbn;
      match goal with |- context [ws ?c] => destruct (ws c) end; reflexivity.
  - left. pose proof (subscribe_client run channel w) as [A _]. rewrite A. reflexivity.
  - left. unfold unsubscribe. destruct (is_open w) eqn:Ho; cbn [negb]; [|reflexivity].
    destruct (is_open_ws w Ho) as [i [Hws _]].
    unfold bind, send, update. rewrite Ho, Hws. reflexivity.
  - left. reflexivity.
  - left. reflexivity.
  - right. left. unfold bind, update, on_open. cbn [fst snd]. unfold bind, update.
    match goal with |- context [emit run ?e ?d ?x] =>
      pose proof (emit_client run e d x) as E; destruct (emit run e d x) as [w2 [[]|e2]] end;
    cbn [fst snd] in *.
    + destruct (forEach_subscribe_client run (subscriptions (client w2)) w2) as [A _];
        [auto|]. rewrite A, E. reflexivity.
    + rewrite E. reflexivity.
  - left. unfold bind. now rewrite on_message_client.
  - left. unfold bind, update, on_error. cbn [fst snd]. unfold bind, update.
    now rewrite emit_client.
  - unfold bind, update, on_close. cbn [fst snd]. unfold bind, update.
    match goal with |- context [emit run ?e ?d ?x] =>
      pose proof (emit_client run e d x) as E; destruct (emit run e d x) as [w2 [[]|e2]] end;
    cbn [fst snd] in *.
    + destruct (handleReconnect_effect w2)
        as [_ [_ [_ [_ [_ [[A _]|[_ [L [A _]]]]]]]]]; rewrite E in *; cbn in *.
      * left. exact A.
      * right. right. split; assumption.
    + left. rewrite E. reflexivity.
  - left. unfold bind, update. cbn [fst snd].
    match goal with |- context [connect ?x] =>
      destruct (connect_effect x) as [_ [A _]]; rewrite A end. reflexivity.
Qed.

Lemma perform_timers a (w : @World U) :
  Forall (fun x : Z * bool => (fst x <= 60000)%Z) (timers w) ->
  Forall (fun x : Z * bool => (fst x <= 60000)%Z) (timers (fst (perform run a w))).
Proof.
  intros H. destruct a; cbn [perform].
  - destruct (connect_effect w) as [_ [_ [_ A]]]. now rewrite A.
  - unfold disconnect, update. cbn.
    destruct (reconnectTimer (client w)); cbn;
      match goal with |- context [ws ?c] => destruct (ws c) end; cbn;
      try exact H; now apply cancel_timer_delays.
  - pose proof (subscribe_client run channel w) as [_ [_ A]]. now rewrite A.
  - unfold unsubscribe. destruct (is_open w) eqn:Ho; cbn [negb]; [|exact H].
    destruct (is_open_ws w Ho) as [i [Hws _]].
    unfold bind, send, update. rewrite Ho, Hws. exact H.
  - exact H.
  - exact H.
  - unfold bind, update, on_open. cbn [fst snd]. unfold bind, update.
    match goal with |- context [emit run ?e ?d ?x] =>
      pose proof (emit_spec run e d x) as [_ [_ [_ [_ [_ E]]]]];
      destruct (emit run e d x) as [w2 [[]|e2]] end;
    cbn [fst snd] in *.
    + destruct (forEach_subscribe_client run (subscriptions (client w2)) w2)
        as [_ [_ A]]; [auto|]. rewrite A, E. exact H.
    + rewrite E. exact H.
  - destruct parsed as [m|].
    + pose proof (on_message_spec run m w) as S.
      assert (T : timers (fst (on_message run (Some m) w)) = timers w) by apply S.
      now rewrite T.
    + unfold on_message, try_catch, throw.
      pose proof (emit_spec run E_error (error_data SyntaxError) w)
        as [_ [_ [_ [_ [_ E]]]]].
      now rewrite E.
  - unfold bind, update, on_error. cbn [fst snd]. unfold bind, update.
    match goal with |- context [emit run ?e ?d ?x] =>
      pose proof (emit_spec run e d x) as [_ [_ [_ [_ [_ E]]]]] end.
    rewrite E. exact H.
  - unfold bind, update, on_close. cbn [fst snd]. unfold bind, update.
    match goal with |- context [emit run ?e ?d ?x] =>
      pose proof (emit_spec run e d x) as [_ [_ [_ [_ [_ E]]]]];
      destruct (emit run e d x) as [w2 [[]|e2]] end;
    cbn [fst snd] in *.
    + destruct (handleReconnect_effect w2)
        as [_ [_ [_ [_ [_ [[_ [_ [A _]]]|[_ [_ [_ [_ [d [Hd A]]]]]]]]]]]];
        rewrite A, E; cbn; [exact H|].
      apply Forall_app. split; [exact H|]. repeat constructor. exact Hd.
    + rewrite E. exact H.
  - unfold bind, update. cbn [fst snd].
    match goal with |- context [connect ?x] =>
      destruct (connect_effect x) as [_ [_ [_ A]]]; rewrite A end.
    cbn. now apply cancel_timer_delays.
Qed.

(** X20.  Whatever happens to a client (calls of its methods, events of its
    sockets, timers firing), its configuration stays the one it was built
    with, the count of reconnect attempts stays between 0 and
    [maxReconnectAttempts], every reconnect timer is set for at most 60000
    ms, and no channel is held twice. *)
Theorem X20_transport_invariant config0 u (w : @World U) :
  reachable run config0 u w -> transport_invariant config0 w.
Proof.
  induction 1 as [|w a w' Hr [I1 [I2 [I3 I4]]] [_ Hs]].
  - unfold transport_invariant. cbn. repeat split; try constructor; lia.
  - subst w'. unfold transport_invariant.
    pose proof (perform_config a w) as C. rewrite C.
    split; [exact I1|]. split; [|split].
    + destruct (perform_attempts a w) as [A|[A|[L A]]]; rewrite A; lia.
    + now apply perform_timers.
    + rewrite perform_subscriptions.
      destruct a; cbn [subscriptions_after]; try exact I4.
      * constructor.
      * destruct (String.eqb channel EmptyString); [exact I4|].
        now apply set_add_NoDup.
      * now apply set_delete_NoDup.
Qed.

Lemma nth_error_close_socket i l st :
  nth_error l i = Some st -> st <> CLOSED ->
  nth_error (close_socket i l) i = Some CLOSING.
Proof.
  intros H Hst. unfold close_socket. rewrite H.
  destruct st; try contradiction; eapply nth_error_set_socket; eassumption.
Qed.

(** What [disconnect] does to a client that holds a socket. *)
Lemma disconnect_effect (w : @World U) i :
  ws (client w) = Some i ->
  let w' := fst (disconnect w) in
  ws (client w') = None
  /\ subscriptions (client w') = []
  /\ reconnectTimer (client w') = None
  /\ config (client w') = config (client w)
  /\ reconnectAttempts (client w') = reconnectAttempts (client w)
  /\ isConnecting (client w') = isConnecting (client w)
  /\ sockets w' = close_socket i (sockets w)
  /\ List.length (timers w') = List.length (timers w).
Proof.
  intros Hws. unfold disconnect, update. cbn.
  destruct (reconnectTimer (client w)) as [t|] eqn:T; cbn; rewrite Hws; cbn;
    repeat split; try assumption. apply cancel_timer_length.
Qed.

(** What the close event of a socket does while the client may reconnect. *)
Lemma close_effect (w : @World U) i :
  reconnect (config (client w)) = true ->
  (reconnectAttempts (client w) < maxReconnectAttempts (config (client w)))%Z ->
  let w' := fst (perform run (SocketClose i) w) in
  ws (client w') = ws (client w)
  /\ isConnecting (client w') = false
  /\ subscriptions (client w') = subscriptions (client w)
  /\ reconnectAttempts (client w') = (reconnectAttempts (client w) + 1)%Z
  /\ reconnectTimer (client w') = Some (List.length (timers w))
  /\ sockets w' = set_socket i CLOSED (sockets w)
  /\ exists delay, (delay <= 60000)%Z /\ timers w' = timers w ++ [(delay, true)].
Proof.
  intros R L. cbn [perform]. unfold bind, update, on_close. cbn [fst snd].
  unfold bind, update.
  match goal with |- context [emit run ?e ?d ?x] =>
    pose proof (emit_spec run e d x) as [Er [_ [C [S [_ T]]]]];
    destruct (emit run e d x) as [w2 r2] end.
  cbn [fst snd] in *. subst r2. cbn in C, S, T.
  destruct (handleReconnect_effect w2)
    as [_ [A2 [A3 [A4 [A5 [[_ [_ [_ [B|B]]]]|[_ [_ [B1 [B2 [d [Hd B3]]]]]]]]]]]];
    rewrite C in *; cbn in *.
  - congruence.
  - lia.
  - rewrite S in A5. rewrite T in B2, B3. repeat split; try assumption.
    exists d. split; assumption.
Qed.

(** X21.  [disconnect] does not end the session.  It drops the socket and
    the subscriptions, but when the close event of the dropped socket
    arrives, the client schedules a reconnect as after any other close, and
    when that timer fires it opens a new socket. *)
Theorem X21_disconnect_is_followed_by_reconnect (w : @World U) i st :
  ws (client w) = Some i ->
  nth_error (sockets w) i = Some st -> st <> CLOSED ->
  reconnect (config (client w)) = true ->
  (reconnectAttempts (client w) < maxReconnectAttempts (config (client w)))%Z ->
  let w1 := fst (perform run CallDisconnect w) in
  let w2 := fst (perform run (SocketClose i) w1) in
  let t := List.length (timers w) in
  let w3 := fst (perform run (TimerFires t) w2) in
  (ws (client w1) = None /\ subscriptions (client w1) = []
   /\ enabled (SocketClose i) w1 = true)
  /\ (reconnectTimer (client w2) = Some t /\ enabled (TimerFires t) w2 = true)
  /\ (ws (client w3) = Some (List.length (sockets w))
      /\ nth_error (sockets w3) (List.length (sockets w)) = Some CONNECTING
      /\ subscriptions (client w3) = []).
Proof.
  intros Hws Hst Hne R L. cbn zeta.
  change (perform run CallDisconnect w) with (disconnect w).
  destruct (disconnect_effect w i Hws) as [D1 [D2 [D3 [D4 [D5 [D6 [D7 D8]]]]]]].
  set (w1 := fst (disconnect w)) in *.
  assert (R1 : reconnect (config (client w1)) = true) by now rewrite D4.
  assert (L1 : (reconnectAttempts (client w1)
                < maxReconnectAttempts (config (client w1)))%Z)
    by now rewrite D4, D5.
  destruct (close_effect w1 i R1 L1) as [C1 [C2 [C3 [C4 [C5 [C6 [d [Hd C7]]]]]]]].
  set (w2 := fst (perform run (SocketClose i) w1)) in *.
  assert (N1 : nth_error (sockets w1) i = Some CLOSING).
  { rewrite D7. eapply nth_error_close_socket; eassumption. }
  assert (En : nth_error (timers w2) (List.length (timers w)) = Some (d, true)).
  { rewrite C7, <- D8, nth_error_app2, Nat.sub_diag by lia. reflexivity. }
  split; [|split].
  - split; [exact D1|]. split; [exact D2|]. cbn [enabled]. now rewrite N1.
  - split; [now rewrite C5, D8|]. cbn [enabled]. now rewrite En.
  - cbn [perform]. unfold bind, update. cbn [fst snd]. unfold connect.
    assert (O : is_open (with_timers (cancel_timer (List.length (timers w))) w2)
                = false).
    { unfold is_open, readyState. cbn. now rewrite C1, D1. }
    rewrite O. cbn [client with_timers]. rewrite C2. cbn.
    rewrite C6, set_socket_length, D7, close_socket_length.
    split; [reflexivity|]. split.
    + assert (Hlen : List.length (set_socket i CLOSED (close_socket i (sockets w)))
                     = List.length (sockets w))
        by now rewrite set_socket_length, close_socket_length.
      rewrite <- Hlen, nth_error_app2, Nat.sub_diag by lia. reflexivity.
    + now rewrite C3, D2.
Qed.

End Reconnection.

(** ** The streaming transport: TWAP subscriptions and signed operations *)

Section TransportOperationsFacts.

Context {U : Type}.
Variable run : HandlerId -> json -> U -> U * option exn.

(** The replay of the set when the held socket opens, for any world whose
    set has no empty channel. *)
Lemma open_replays_set (w : @World U) i :
  Forall (fun c => c <> EmptyString) (subscriptions (client w)) ->
  ws (client w) = Some i -> enabled (SocketOpen i) w = true ->
  wire (fst (perform run (SocketOpen i) w)) =
  wire w ++ map (fun c => (i, subscribe_message c)) (subscriptions (client w)).
Proof.
  intros Hne Hws Hen. cbn [perform]. unfold bind, update, on_open. cbn [fst snd].
  unfold bind, update.
  cbn [enabled] in Hen.
  destruct (nth_error (sockets w) i) as [st|] eqn:Hst; [|discriminate].
  set (w0 := with_client _ (with_sockets _ w)).
  pose proof (emit_spec run E_open (JObj []) w0) as [E1 [_ [E2 [E3 [E4 E5]]]]].
  destruct (emit run E_open (JObj []) w0) as [w2 r2]. cbn [fst snd] in *. subst r2.
  assert (Hs2 : subscriptions (client w2) = subscriptions (client w))
    by (rewrite E2; reflexivity).
  destruct (forEach_subscribe_open run (subscriptions (client w2)) w2 i) as [_ F].
  - rewrite E2. exact Hws.
  - rewrite E3. subst w0. cbn. eapply nth_error_set_socket; eassumption.
  - rewrite Hs2. exact Hne.
  - auto.
  - rewrite F, E4, Hs2. reflexivity.
Qed.

Lemma twap_subscribe_open source channel account (w : @World U) i :
  ws (client w) = Some i -> nth_error (sockets w) i = Some OPEN ->
  let w' :=
    fst ((bind (send (twap_subscribe_message source account))
            (fun _ =>
               bind (update (with_client
                               (fun c => set_subscriptions
                                           (set_add channel (subscriptions c)) c)))
                 (fun _ => emit run E_subscription (channel_data channel)))) w) in
  wire w' = wire w ++ [(i, twap_subscribe_message source account)]
  /\ subscriptions (client w') = set_add channel (subscriptions (client w)).
Proof.
  intros Hws Hst. cbn zeta. unfold bind, send, update.
  assert (Ho : is_open w = true) by (unfold is_open, readyState; now rewrite Hws, Hst).
  rewrite Ho, Hws.
  match goal with |- context [emit run ?e ?d ?x] =>
    pose proof (emit_spec run e d x) as [_ [_ [C [_ [W _]]]]] end.
  rewrite W, C. split; reflexivity.
Qed.

(** The frame of the TWAP subscriptions, field by field. *)
Lemma twap_subscribe_message_fields source account :
  twap_subscribe_message source account
  = JObj [("method", JStr "subscribe");
          ("params", JObj [("source", JStr source); ("account", JStr account)])].
Proof. reflexivity. Qed.

(** X22.  On an open socket [subscribeToTWAPOrders] and
    [subscribeToTWAPOrderUpdates] send the frame
    [{method:'subscribe', params:{source, account}}] and record the channel
    [twap_orders:<account>] or [twap_order_updates:<account>].  When the
    held socket opens later, the recorded channel is replayed as a frame
    [{type:'subscribe', channel}], as every channel of the set is; the frame
    that was first sent is not among the replayed frames. *)
Theorem X22_twap_subscriptions_replay_as_channels account (w : @World U) i :
  ws (client w) = Some i -> nth_error (sockets w) i = Some OPEN ->
  let orders := ("twap_orders:" ++ account)%string in
  let updates := ("twap_order_updates:" ++ account)%string in
  let w1 := fst (subscribeToTWAPOrders run account w) in
  let w2 := fst (subscribeToTWAPOrderUpdates run account w) in
  (wire w1 =
     wire w
     ++ [(i, JObj [("method", JStr "subscribe");
                   ("params", JObj [("source", JStr "account_twap_orders");
                                    ("account", JStr account)])])]
   /\ subscriptions (client w1) = set_add orders (subscriptions (client w)))
  /\ (wire w2 =
        wire w
        ++ [(i, JObj [("method", JStr "subscribe");
                      ("params", JObj [("source", JStr "account_twap_order_updates");
                                       ("account", JStr account)])])]
      /\ subscriptions (client w2) = set_add updates (subscriptions (client w)))
  /\ (forall (w' : @World U) j channel,
        In channel (subscriptions (client w')) ->
        Forall (fun c => c <> EmptyString) (subscriptions (client w')) ->
        ws (client w') = Some j -> enabled (SocketOpen j) w' = true ->
        exists frames,
          wire (fst (perform run (SocketOpen j) w')) = wire w' ++ frames
          /\ In (j, JObj [("type", JStr "subscribe"); ("channel", JStr channel)]) frames
          /\ forall source a,
               ~ In (j, JObj [("method", JStr "subscribe");
                              ("params", JObj [("source", JStr source);
                                               ("account", JStr a)])]) frames).
Proof.
  intros Hws Hst. cbn zeta.
  assert (Ho : is_open w = true) by (unfold is_open, readyState; now rewrite Hws, Hst).
  split; [|split].
  - unfold subscribeToTWAPOrders. rewrite Ho. cbn [negb].
    rewrite <- twap_subscribe_message_fields.
    exact (twap_subscribe_open "account_twap_orders" _ account w i Hws Hst).
  - unfold subscribeToTWAPOrderUpdates. rewrite Ho. cbn [negb].
    rewrite <- twap_subscribe_message_fields.
    exact (twap_subscribe_open "account_twap_order_updates" _ account w i Hws Hst).
  - intros w' j channel Hin Hne Hws' Hen.
    exists (map (fun c => (j, subscribe_message c)) (subscriptions (client w'))).
    split; [now apply open_replays_set|]. split.
    + apply in_map_iff. exists channel. split; [|exact Hin].
      now rewrite subscribe_message_fields.
    + intros source a H. apply in_map_iff in H. destruct H as [c [H _]].
      rewrite subscribe_message_fields in H. inversion H.
Qed.

End TransportOperationsFacts.

(** X23.  [sendSignedOperation] fails before signing when the client has no
    private key or its socket is not open.  The frame it builds has type
    [operation] and no [expiry_window].  With an agent wallet (of the call
    or of the client) the [account] of the frame is the address of the agent
    wallet, not of the account, and the frame carries [agent_wallet];
    without one, the frame has no [agent_wallet] and its [account] is the
    configured account, or the public key of the private key in base 58. *)
Theorem X23_signed_operation_frame :
  forall (E : Ed25519) (U : Type) (keys : WebSocketKeys) (now : Z)
         (operation : string) (data : props) (options : option RequestOptions)
         (w : @World U),
    let agentWallet :=
      truthy_string
        (string_or (config_field options agent_wallet) (wk_agentWalletPublicKey keys)) in
    (wk_privateKey keys = None \/ is_open w = false ->
     exists e, sendSignedOperation keys now operation data options w = Err e)
    /\ (forall message,
          sendSignedOperation keys now operation data options w = Ok message ->
          message_field "type" message = Some (JStr "operation")
          /\ message_field "operation" message = Some (JStr operation)
          /\ message_field "timestamp" message = Some (JNum now)
          /\ message_field "expiry_window" message = None
          /\ message_field "agent_wallet" message = option_map JStr agentWallet
          /\ exists privateKey keypair,
               wk_privateKey keys = Some privateKey
               /\ generateKeypair privateKey = Ok keypair
               /\ message_field "account" message =
                  Some (JStr
                          match agentWallet with
                          | Some a => accountAddress_of a
                          | None =>
                              match truthy_string (wk_accountPublicKey keys) with
                              | Some a => accountAddress_of a
                              | None => bs58_encode (publicKey keypair)
                              end
                          end)).
Proof.
  intros E U keys now operation data options w. cbn zeta. split.
  - intros [H|H]; unfold sendSignedOperation.
    + rewrite H. eexists. reflexivity.
    + destruct (wk_privateKey keys); [|eexists; reflexivity].
      rewrite H. eexists. reflexivity.
  - intros message. unfold sendSignedOperation.
    destruct (wk_privateKey keys) as [privateKey|]; [|discriminate].
    destruct (negb (is_open w)); [discriminate|].
    unfold buildSignedRequest.
    destruct (generateKeypair privateKey) as [[pk sk]|e] eqn:G; [|discriminate].
    set (agent := string_or (config_field options agent_wallet)
                    (wk_agentWalletPublicKey keys)).
    assert (A : truthy_string
                  (string_or (string_or agent (wk_accountPublicKey keys))
                     (wk_accountPublicKey keys)) =
                match truthy_string agent with
                | Some a => Some a
                | None => truthy_string (wk_accountPublicKey keys)
                end).
    { unfold string_or at 1 2.
      destruct (truthy_string agent) as [a|] eqn:Ta.
      - assert (T : truthy_string (Some a) = Some a).
        { destruct agent as [[|x s]|]; cbn in Ta; inversion Ta; reflexivity. }
        rewrite T. exact T.
      - destruct (truthy_string (wk_accountPublicKey keys)) as [b|] eqn:Tb.
        + destruct (wk_accountPublicKey keys) as [[|x s]|]; cbn in Tb;
            inversion Tb; reflexivity.
        + exact Tb. }
    rewrite A. intros H. inversion H as [Hm]. clear H Hm.
    unfold operation_message. cbn [account signature timestamp expiry_window].
    destruct (truthy_string agent) as [a|];
      (repeat split; try reflexivity);
      exists privateKey, {| publicKey := pk; privateKey := sk |};
      (split; [reflexivity|]); (split; [exact G|]);
      destruct (truthy_string (wk_accountPublicKey keys)); reflexivity.
Qed.

(** X23 on a client whose key is 32 zero bytes and whose agent wallet is
    [agent], with the stand-in primitives, once its socket is open: the
    frame names the agent wallet as its account. *)
Lemma X23_signed_operation_frame_witness :
  match
    @sendSignedOperation unit toy_Ed25519
      (new_WebSocketKeys None (Some (KeyBytes (repeat x00 32))) (Some "owner")
         (Some "agent") None)
      1700000000000 "create_order" [("symbol", JStr "BTC")] None
      (run_actions (fun _ _ u => (u, None)) [CallConnect; SocketOpen 0]
         (new_World None tt))
  with
  | Ok message =>
      message_field "account" message = Some (JStr "agent")
      /\ message_field "agent_wallet" message = Some (JStr "agent")
      /\ message_field "expiry_window" message = None
  | Err _ => False
  end.
Proof.
  destruct (@sendSignedOperation unit toy_Ed25519
              (new_WebSocketKeys None (Some (KeyBytes (repeat x00 32))) (Some "owner")
                 (Some "agent") None)
              1700000000000 "create_order" [("symbol", JStr "BTC")] None
              (run_actions (fun _ _ u => (u, None)) [CallConnect; SocketOpen 0]
                 (new_World None tt))) as [message|e] eqn:H.
  - destruct (proj2 (X23_signed_operation_frame toy_Ed25519 unit _ _ _ _ _ _)
                message H) as [_ [_ [_ [A [B [sk [kp [_ [_ C]]]]]]]]].
    split; [exact C|]. split; [exact B|exact A].
  - vm_compute in H. discriminate.
Defined.

(** X20 on a client with the default configuration, after its first socket
    closed, the reconnect timer fired, the second socket opened and a channel
    was subscribed. *)
Lemma X20_transport_invariant_witness :
  transport_invariant None
    (run_actions (fun _ _ u => (u, None))
       [CallConnect; SocketClose 0; TimerFires 0; SocketOpen 1;
        CallSubscribe "ticker:BTC"] (new_World None tt)).
Proof.
  apply (X20_transport_invariant (fun _ _ u => (u, None)) None tt).
  apply (run_checked_reachable (fun _ _ u => (u, None)) None tt
           [CallConnect; SocketClose 0; TimerFires 0; SocketOpen 1;
            CallSubscribe "ticker:BTC"] (new_World None tt)).
  - apply reachable_new.
  - vm_compute. reflexivity.
Defined.

(** X21 on a client with the default configuration that is connected and
    subscribed to a channel: after [disconnect], the close event and the
    timer, the client holds a second socket, which is connecting. *)
Lemma X21_disconnect_is_followed_by_reconnect_witness :
  let w :=
    run_actions (fun _ _ u => (u, None))
      [CallConnect; SocketOpen 0; CallSubscribe "ticker:BTC"] (new_World None tt) in
  let w3 :=
    run_actions (fun _ _ u => (u, None))
      [CallDisconnect; SocketClose 0; TimerFires 0] w in
  ws (client w3) = Some 1%nat /\ nth_error (sockets w3) 1 = Some CONNECTING.
Proof.
  cbn zeta.
  destruct (X21_disconnect_is_followed_by_reconnect (fun _ _ u => (u, None))
              (run_actions (fun _ _ u => (u, None))
                 [CallConnect; SocketOpen 0; CallSubscribe "ticker:BTC"]
                 (new_World None tt)) 0 OPEN eq_refl eq_refl
              ltac:(discriminate) eq_refl eq_refl)
    as [_ [_ [A [B _]]]].
  split; [exact A|exact B].
Defined.

(** X22 on the account [acct], on a client that has just connected: the
    only frame sent is the TWAP frame. *)
Lemma X22_twap_subscriptions_replay_as_channels_witness :
  wire (fst (subscribeToTWAPOrders (fun _ _ u => (u, None)) "acct"
               (run_actions (fun _ _ u => (u, None)) [CallConnect; SocketOpen 0]
                  (new_World None tt))))
  = [(0%nat, JObj [("method", JStr "subscribe");
                    ("params", JObj [("source", JStr "account_twap_orders");
                                     ("account", JStr "acct")])])].
Proof.
  destruct (X22_twap_subscriptions_replay_as_channels (fun _ _ u => (u, None))
              "acct"
              (run_actions (fun _ _ u => (u, None)) [CallConnect; SocketOpen 0]
                 (new_World None tt)) 0 eq_refl eq_refl)
    as [[A _] _].
  exact A.
Defined.

(** ** Signing with the hardware wallet *)

Lemma trimStart_no_leading_space s : no_leading_space (trimStart s).
Proof.
  induction s as [|c s IH]; cbn; [exact I|].
  destruct (is_js_space c) eqn:E; [exact IH|exact E].
Qed.

Lemma trimStart_fixed s : no_leading_space s -> trimStart s = s.
Proof. destruct s as [|c s]; cbn; [reflexivity|]. now intros ->. Qed.

Lemma trimStart_suffix s : exists p, s = (p ++ trimStart s)%string.
Proof.
  induction s as [|c s [p IH]]; [exists EmptyString; reflexivity|].
  cbn. destruct (is_js_space c).
  - exists (String c p). cbn. now rewrite <- IH.
  - exists EmptyString. reflexivity.
Qed.

Lemma no_leading_space_prefix a b :
  no_leading_space (a ++ b) -> no_leading_space a.
Proof. destruct a; cbn; auto. Qed.

Lemma trim_no_leading_space s :
  no_leading_space (trim s) /\ no_leading_space (rev_string (trim s)).
Proof.
  unfold trim. rewrite rev_string_involutive. split; [|apply trimStart_no_leading_space].
  destruct (trimStart_suffix (rev_string (trimStart s))) as [p Hp].
  apply (f_equal rev_string) in Hp.
  rewrite rev_string_involutive, rev_string_app in Hp.
  apply (no_leading_space_prefix _ (rev_string p)). rewrite <- Hp.
  apply trimStart_no_leading_space.
Qed.

Lemma trim_idempotent s : trim (trim s) = trim s.
Proof.
  destruct (trim_no_leading_space s) as [A B].
  unfold trim at 1. rewrite (trimStart_fixed _ A), (trimStart_fixed _ B).
  apply rev_string_involutive.
Qed.

Lemma all_chars_rev p s : all_chars p (rev_string s) = all_chars p s.
Proof.
  induction s as [|c s IH]; [reflexivity|].
  change (String c s) with (String c EmptyString ++ s)%string.
  rewrite rev_string_app, !all_chars_app, IH. cbn.
  now rewrite andb_true_r, andb_comm.
Qed.

Lemma all_chars_trimStart p s : all_chars p s = true -> all_chars p (trimStart s) = true.
Proof.
  intros H. destruct (trimStart_suffix s) as [q Hq].
  rewrite Hq, all_chars_app in H. now apply andb_prop in H.
Qed.

Lemma all_chars_trim p s : all_chars p s = true -> all_chars p (trim s) = true.
Proof.
  intros H. unfold trim. rewrite all_chars_rev. apply all_chars_trimStart.
  rewrite all_chars_rev. now apply all_chars_trimStart.
Qed.

Lemma split_lines_single s : Forall (fun l => single_line l = true) (split_lines s).
Proof.
  induction s as [|c s IH]; cbn [split_lines]; [repeat constructor|].
  destruct (Ascii.eqb c line_feed) eqn:E.
  - constructor; [reflexivity|exact IH].
  - destruct (split_lines s) as [|l ls].
    + repeat constructor. unfold single_line. cbn. now rewrite E.
    + inversion IH; subst. constructor; [|assumption].
      unfold single_line in *. cbn. now rewrite E.
Qed.

Lemma last_Forall {A : Type} (P : A -> Prop) l d :
  P d -> Forall P l -> P (last l d).
Proof.
  intros Hd H. induction H as [|x l Hx H IH]; [exact Hd|].
  destruct l; [exact Hx|exact IH].
Qed.

(** X24.  A signature that [signWithHardwareWallet] returns is not empty,
    has no white space at either end and is a single line: the last line of
    what the command printed.  Every failure, of the command or of the
    checks, is thrown as an error whose message begins with
    [Error signing with hardware wallet: ]; in particular the request
    builder then fails too. *)
Theorem X24_hardware_wallet_signature :
  forall (exec : string -> ExecResult) (message hardwareWalletPath : string),
    (forall signature,
        signWithHardwareWallet exec message hardwareWalletPath = Ok signature ->
        signature <> EmptyString
        /\ trim signature = signature
        /\ single_line signature = true
        /\ exists stdout stderr,
             exec (hardware_wallet_command hardwareWalletPath message)
             = Printed stdout stderr
             /\ signature = trim (last (split_lines (trim stdout)) EmptyString))
    /\ (forall error_message,
          signWithHardwareWallet exec message hardwareWalletPath = Err error_message ->
          startsWith error_message "Error signing with hardware wallet: " = true)
    /\ (forall stdout stderr,
          exec (hardware_wallet_command hardwareWalletPath message)
          = Printed stdout stderr ->
          includes stderr "Please approve" = true ->
          trim (last (split_lines (trim stdout)) EmptyString) <> EmptyString ->
          signWithHardwareWallet exec message hardwareWalletPath
          = Ok (trim (last (split_lines (trim stdout)) EmptyString))).
Proof.
  intros exec message path. unfold signWithHardwareWallet.
  destruct (exec (hardware_wallet_command path message)) as [stdout stderr|m].
  - split; [|split].
    + intros signature.
      destruct (negb (String.eqb stderr EmptyString)
                && negb (includes stderr "Please approve")); [discriminate|].
      destruct (String.eqb_spec (trim (last (split_lines (trim stdout)) EmptyString))
                  EmptyString) as [E|E]; [discriminate|].
      intros H. inversion H; subst signature. split; [exact E|].
      split; [apply trim_idempotent|]. split.
      * apply all_chars_trim.
        apply (last_Forall (fun l => single_line l = true)); [reflexivity|].
        apply split_lines_single.
      * exists stdout, stderr. split; reflexivity.
    + intros error_message.
      destruct (negb (String.eqb stderr EmptyString)
                && negb (includes stderr "Please approve")).
      * intros H. inversion H.
        apply (prefix_app "Error signing with hardware wallet: ").
      * destruct (String.eqb (trim (last (split_lines (trim stdout)) EmptyString))
                    EmptyString); [|discriminate].
        intros H. inversion H. reflexivity.
    + intros stdout' stderr' H Hin Hne. inversion H; subst stdout' stderr'.
      rewrite Hin, andb_false_r.
      destruct (String.eqb_spec (trim (last (split_lines (trim stdout)) EmptyString))
                  EmptyString); [contradiction|reflexivity].
  - split; [|split].
    + discriminate.
    + intros error_message H. inversion H.
      apply (prefix_app "Error signing with hardware wallet: ").
    + discriminate.
Qed.

(** X24 on a wallet that prints an approval prompt and then the signature,
    with a prompt on the error stream. *)
Lemma X24_hardware_wallet_signature_witness :
  let exec := fun _ : string =>
    Printed (String line_feed
               ("Approve on device" ++ String line_feed ("  5VERv8  " ++ String line_feed EmptyString)))
            "Please approve the message" in
  signWithHardwareWallet exec "{}" "usb://ledger" = Ok "5VERv8"
  /\ trim "5VERv8" = "5VERv8".
Proof.
  cbn zeta.
  destruct (X24_hardware_wallet_signature
              (fun _ : string =>
                 Printed (String line_feed
                            ("Approve on device"
                             ++ String line_feed ("  5VERv8  " ++ String line_feed EmptyString)))
                         "Please approve the message")
              "{}" "usb://ledger") as [A _].
  split; [reflexivity|].
  destruct (A "5VERv8" eq_refl) as [_ [B _]]. exact B.
Defined.

(** X25.  The command line that [buildSignedRequestWithHardwareWallet] has
    executed holds the signed text as it is, between two double quotes.  The
    signed text always begins with [{"data":], so the double quotes of the
    text itself stand unescaped inside the quoted argument. *)
Theorem X25_hardware_wallet_command_text :
  forall (operation : string) (header : SignatureHeader) (data : props)
         (hardwareWalletPath : string),
  exists rest,
    createCompactJson (messagePayload operation header data)
    = ("{" ++ String quote_char ("data" ++ String quote_char (":" ++ rest)))%string
    /\ hardware_wallet_command hardwareWalletPath
         (createCompactJson (messagePayload operation header data))
       = ("solana sign-offchain-message -k "
          ++ String quote_char
               (hardwareWalletPath
                ++ String quote_char
                     (" "
                      ++ String quote_char
                           ("{"
                            ++ String quote_char
                                 ("data"
                                  ++ String quote_char
                                       (":" ++ rest ++ String quote_char EmptyString))))))%string.
Proof.
  intros operation [t [e|]] data path.
  - eexists. split.
    + unfold createCompactJson, JSON_stringify, messagePayload. cbn. reflexivity.
    + unfold hardware_wallet_command. reflexivity.
  - eexists. split.
    + unfold createCompactJson, JSON_stringify, messagePayload. cbn. reflexivity.
    + unfold hardware_wallet_command. reflexivity.
Qed.

(** ** The rate limiter *)

Module RateLimiterFacts.

Import RateLimiter.

Lemma filter_filter_le (c k : Z) (l : list Z) :
  (k <= c)%Z ->
  filter (fun r => (c <=? r)%Z) (filter (fun r => (k <=? r)%Z) l)
  = filter (fun r => (c <=? r)%Z) l.
Proof.
  intros H. induction l as [|x l IH]; [reflexivity|]. cbn.
  destruct (Z.leb_spec k x); cbn.
  - now rewrite IH.
  - destruct (Z.leb_spec c x); [lia|exact IH].
Qed.

Lemma filter_length_mono (c k : Z) (l : list Z) :
  (k <= c)%Z ->
  (List.length (filter (fun r => (c <=? r)%Z) l)
   <= List.length (filter (fun r => (k <=? r)%Z) l))%nat.
Proof.
  intros H. rewrite <- (filter_filter_le c k l H). apply filter_length_le.
Qed.

Lemma in_window_length start width l :
  (List.length (in_window start width l)
   <= List.length (filter (fun r => (start <=? r)%Z) l))%nat.
Proof.
  unfold in_window. induction l as [|x l IH]; [reflexivity|]. cbn.
  destruct (Z.leb_spec start x); cbn; [|exact IH].
  destruct (x <=? start + width)%Z; cbn; lia.
Qed.

Lemma calls_snoc self clock now :
  calls self (clock ++ [now]) = call (calls self clock) now.
Proof. unfold calls. now rewrite fold_left_app. Qed.

Lemma call_parameters state now :
  maxRequests (fst (call state now)) = maxRequests (fst state)
  /\ windowMs (fst (call state now)) = windowMs (fst state).
Proof.
  unfold call, checkLimit.
  destruct (maxRequests (fst state) <=? _)%Z; split; reflexivity.
Qed.

Lemma calls_parameters self clock :
  maxRequests (fst (calls self clock)) = maxRequests self
  /\ windowMs (fst (calls self clock)) = windowMs self.
Proof.
  induction clock as [|now clock IH] using rev_ind; [split; reflexivity|].
  rewrite calls_snoc. destruct (call_parameters (calls self clock) now) as [A B].
  rewrite A, B. exact IH.
Qed.

(** Whatever the clock does, the limiter never holds more than
    [maxRequests] entries. *)
Lemma calls_stored self clock :
  requests self = [] ->
  (Z.of_nat (List.length (requests (fst (calls self clock))))
   <= Z.max 0 (maxRequests self))%Z.
Proof.
  intros H0. induction clock as [|now clock IH] using rev_ind.
  - cbn. rewrite H0. cbn. lia.
  - rewrite calls_snoc. destruct (calls_parameters self clock) as [Pm _].
    destruct (calls self clock) as [s acc]. cbn [fst snd] in *.
    unfold call, checkLimit. cbn [fst snd].
    set (kept := filter _ (requests s)).
    assert (K : (List.length kept <= List.length (requests s))%nat)
      by apply filter_length_le.
    destruct (Z.leb_spec (maxRequests s) (Z.of_nat (List.length kept))); cbn.
    + lia.
    + rewrite length_app. cbn. lia.
Qed.

(** While the clock does not go back, the entries that the limiter holds
    are the accepted readings, as far as any later cutoff can tell. *)
Lemma calls_recorded self clock :
  requests self = [] ->
  StronglySorted Z.le clock ->
  forall c,
    (forall r, In r clock -> (r - windowMs self <= c)%Z) ->
    filter (fun r => (c <=? r)%Z) (requests (fst (calls self clock)))
    = filter (fun r => (c <=? r)%Z) (accepted self clock).
Proof.
  intros H0. unfold accepted.
  induction clock as [|now clock IH] using rev_ind; intros Hs c Hc.
  - cbn. now rewrite H0.
  - assert (Hs' : StronglySorted Z.le clock /\ Forall (fun r => (r <= now)%Z) clock).
    { clear -Hs. induction clock as [|x clock IH]; [split; constructor|].
      cbn in Hs. inversion Hs as [|? ? S F]; subst.
      destruct (IH S) as [A B]. split.
      - constructor; [exact A|].
        rewrite Forall_forall in *. intros y Hy. apply F, in_or_app. now left.
      - constructor; [|exact B].
        rewrite Forall_forall in F. apply F, in_or_app. right. now left. }
    destruct Hs' as [Hs' Hle]. rewrite Forall_forall in Hle.
    specialize (IH Hs').
    rewrite calls_snoc. destruct (calls_parameters self clock) as [_ Pw].
    assert (Hk : (now - windowMs self <= c)%Z)
      by (apply Hc, in_or_app; right; now left).
    pose proof (IH (now - windowMs self)%Z
                  (fun r Hr => ltac:(specialize (Hle r Hr); lia))) as Ik.
    destruct (calls self clock) as [s acc]. cbn [fst snd] in *.
    unfold call, checkLimit. cbn [fst snd]. rewrite Pw.
    destruct (maxRequests s <=? _)%Z; cbn [fst snd requests set_requests].
    + rewrite Ik. apply filter_filter_le, Hk.
    + rewrite !filter_app, Ik. f_equal. apply filter_filter_le, Hk.
Qed.

End RateLimiterFacts.

(** X26.  A new limiter never holds more than [maxRequests] entries, and
    [getCurrentCount] never exceeds what it holds, whatever the clock does.
    While the clock does not go back, no window of [windowMs] milliseconds
    holds more than [maxRequests] accepted calls. *)
Theorem X26_rate_limiter_window :
  forall (maxRequests windowMs : option Z) (clock : list Z),
    let self := RateLimiter.new maxRequests windowMs in
    let bound := Z.max 0 (RateLimiter.maxRequests self) in
    (Z.of_nat (List.length (RateLimiter.requests (fst (RateLimiter.calls self clock))))
     <= bound)%Z
    /\ (forall now,
          0 <= RateLimiter.getCurrentCount now (fst (RateLimiter.calls self clock))
            <= bound)%Z
    /\ (StronglySorted Z.le clock ->
        forall start,
          (Z.of_nat
             (List.length
                (RateLimiter.in_window start (RateLimiter.windowMs self)
                   (RateLimiter.accepted self clock)))
           <= bound)%Z).
Proof.
  intros maxRequests windowMs clock self bound.
  pose proof (RateLimiterFacts.calls_stored self clock eq_refl) as S.
  split; [exact S|]. split.
  - intros now. unfold RateLimiter.getCurrentCount.
    rewrite <- length_rev in S.
    set (l := List.rev _) in *. clearbody l.
    assert (C : forall c l, (0 <= RateLimiter.count_from_last c l
                             <= Z.of_nat (List.length l))%Z).
    { clear. intros c l. induction l as [|x l IH]; cbn [RateLimiter.count_from_last].
      - cbn. lia.
      - cbn [List.length]. destruct (c <=? x)%Z; lia. }
    specialize (C (now - RateLimiter.windowMs
                           (fst (RateLimiter.calls self clock)))%Z l).
    fold bound in S. lia.
  - induction clock as [|now clock IH] using rev_ind; intros Hs start.
    + cbn. subst bound. lia.
    + assert (Hs' : StronglySorted Z.le clock /\ Forall (fun r => (r <= now)%Z) clock).
      { clear -Hs. induction clock as [|x clock IH]; [split; constructor|].
        cbn in Hs. inversion Hs as [|? ? S F]; subst.
        destruct (IH S) as [A B]. split.
        - constructor; [exact A|].
          rewrite Forall_forall in *. intros y Hy. apply F, in_or_app. now left.
        - constructor; [|exact B].
          rewrite Forall_forall in F. apply F, in_or_app. right. now left. }
      destruct Hs' as [Hs' Hle]. rewrite Forall_forall in Hle.
      pose proof (RateLimiterFacts.calls_stored self clock eq_refl) as S'.
      specialize (IH S' Hs' start).
      pose proof (RateLimiterFacts.calls_recorded self clock eq_refl Hs'
                    (now - RateLimiter.windowMs self)%Z
                    (fun r Hr => ltac:(specialize (Hle r Hr); lia))) as R.
      unfold RateLimiter.accepted in *. rewrite RateLimiterFacts.calls_snoc.
      destruct (RateLimiterFacts.calls_parameters self clock) as [Pm Pw].
      destruct (RateLimiter.calls self clock) as [s acc]. cbn [fst snd] in *.
      unfold RateLimiter.call, RateLimiter.checkLimit. cbn [fst snd].
      rewrite Pw, Pm, R.
      destruct (Z.leb_spec (RateLimiter.maxRequests self)
                  (Z.of_nat (List.length
                               (filter (fun r => (now - RateLimiter.windowMs self <=? r)%Z)
                                  acc)))) as [L|L];
        cbn [fst snd]; [exact IH|].
      unfold RateLimiter.in_window. rewrite filter_app, length_app. cbn [filter].
      destruct (Z.leb_spec start now) as [A|A]; cbn [andb];
        [|cbn [List.length]; fold (RateLimiter.in_window start
                                     (RateLimiter.windowMs self) acc); lia].
      destruct (Z.leb_spec now (start + RateLimiter.windowMs self)) as [B|B];
        cbn [List.length];
        [|fold (RateLimiter.in_window start (RateLimiter.windowMs self) acc); lia].
      fold (RateLimiter.in_window start (RateLimiter.windowMs self) acc).
      pose proof (RateLimiterFacts.in_window_length start
                    (RateLimiter.windowMs self) acc) as W.
      pose proof (RateLimiterFacts.filter_length_mono start
                    (now - RateLimiter.windowMs self)%Z acc ltac:(lia)) as M.
      subst bound. lia.
Qed.

(** X26 on a limiter of two requests a second: of four calls at 0, 10, 20
    and 1005 ms the third is refused, and the window that starts at 0 holds
    two accepted calls. *)
Lemma X26_rate_limiter_window_witness :
  RateLimiter.accepted (RateLimiter.new (Some 2%Z) (Some 1000%Z)) [0; 10; 20; 1005]%Z
  = [0; 10; 1005]%Z
  /\ (Z.of_nat
        (List.length
           (RateLimiter.in_window 0 1000
              (RateLimiter.accepted (RateLimiter.new (Some 2%Z) (Some 1000%Z))
                 [0; 10; 20; 1005]%Z)))
      <= 2)%Z.
Proof.
  split; [reflexivity|].
  refine (proj2 (proj2 (X26_rate_limiter_window (Some 2%Z) (Some 1000%Z)
                          [0; 10; 20; 1005]%Z)) _ 0%Z).
  repeat constructor; lia.
Defined.

(** ** White space around a key *)

Lemma trimStart_spaces a x :
  all_chars is_js_space a = true -> trimStart (a ++ x) = trimStart x.
Proof.
  induction a as [|c a IH]; cbn; [reflexivity|].
  intros H. apply andb_prop in H. destruct H as [Hc Ha]. rewrite Hc. now apply IH.
Qed.

Lemma trimStart_all_spaces a :
  all_chars is_js_space a = true -> trimStart a = EmptyString.
Proof.
  induction a as [|c a IH]; cbn; [reflexivity|].
  intros H. apply andb_prop in H. destruct H as [Hc Ha]. rewrite Hc. now apply IH.
Qed.

Lemma trimStart_suffix_spaces s :
  exists p, all_chars is_js_space p = true /\ s = (p ++ trimStart s)%string.
Proof.
  induction s as [|c s [p [Hp IH]]]; [exists EmptyString; split; reflexivity|].
  cbn. destruct (is_js_space c) eqn:E.
  - exists (String c p). cbn. rewrite E, Hp. split; [reflexivity|]. now rewrite <- IH.
  - exists EmptyString. split; reflexivity.
Qed.

Lemma trimStart_trailing_spaces s b :
  all_chars is_js_space b = true ->
  trimStart (rev_string (trimStart (s ++ b)))
  = trimStart (rev_string (trimStart s)).
Proof.
  intros Hb. destruct (trimStart_suffix_spaces s) as [p [Hp Hs]].
  pose proof (trimStart_no_leading_space s) as Hu.
  rewrite Hs at 1. rewrite string_app_assoc, (trimStart_spaces p _ Hp).
  destruct (trimStart s) as [|c u] eqn:E.
  - cbn [append]. now rewrite (trimStart_all_spaces b Hb).
  - cbn [append trimStart]. cbn in Hu. rewrite Hu.
    change (String c (u ++ b)) with (String c u ++ b)%string.
    rewrite rev_string_app. apply trimStart_spaces. now rewrite all_chars_rev.
Qed.

Lemma trim_surrounding_spaces a s b :
  all_chars is_js_space a = true -> all_chars is_js_space b = true ->
  trim (a ++ s ++ b) = trim s.
Proof.
  intros Ha Hb. unfold trim.
  now rewrite (trimStart_spaces a _ Ha), (trimStart_trailing_spaces s b Hb).
Qed.

(** X27.  White space around a key string does not count: a key with white
    space before and after it resolves as the key itself does, to the same
    keypair or to the same error; and a key is resolved as its trimmed text
    is. *)
Theorem X27_key_string_whitespace :
  forall (E : Ed25519) (a s b : string),
    all_chars is_js_space a = true ->
    all_chars is_js_space b = true ->
    generateKeypair (KeyString (a ++ s ++ b)) = generateKeypair (KeyString s)
    /\ generateKeypair (KeyString (trim s)) = generateKeypair (KeyString s).
Proof.
  intros E a s b Ha Hb. unfold generateKeypair.
  now rewrite (trim_surrounding_spaces a s b Ha Hb), trim_idempotent.
Qed.

(** X27 on the base-58 text of 32 zero bytes, after two spaces and before a
    line feed, with the stand-in primitives. *)
Lemma X27_key_string_whitespace_witness :
  @generateKeypair toy_Ed25519
    (KeyString ("  " ++ repeat_string "1" 32 ++ String line_feed EmptyString))
  = Ok (@keypair_of toy_Ed25519 (repeat x00 32)).
Proof.
  rewrite (proj1 (X27_key_string_whitespace toy_Ed25519 "  " (repeat_string "1" 32)
                    (String line_feed EmptyString) eq_refl eq_refl)).
  reflexivity.
Defined.
